(** * Changelog builder: commit-log parsing, classification, footer
      deduplication and markdown assembly.

    Shallow embedding of [changelogBuilder.ts] (the variant that exports
    [lastTag] and [buildChangelog], imported by [release.ts]).

    JavaScript strings are modelled by [string]: a character is one code
    unit below 256.  The whitespace class, the line terminators and
    [toLowerCase] are the JavaScript ones restricted to that range.
    [undefined] is [None]; a property access on [undefined] is the
    exception [TypeError], carried by the [result] type.

    The two collaborators are inputs: the text returned by [getLog()] is
    the argument of [buildChangelog], and the [owner] and [repo] returned
    by [getOwnerAndRepo()] are parameters of the rendering functions. *)

From Stdlib Require Import String Ascii List Bool Arith ZArith Lia.
Import ListNotations.

Local Open Scope list_scope.
Local Open Scope string_scope.

(* ================================================================== *)
(** * Part I.  Definitions *)
(* ================================================================== *)

(** ** Exceptions *)

Inductive JsError : Type :=
| TypeError.

Inductive result (A : Type) : Type :=
| Ok (a : A)
| Throw (e : JsError).

Arguments Ok {A} a.
Arguments Throw {A} e.

Definition bind {A B : Type} (m : result A) (f : A -> result B) : result B :=
  match m with
  | Ok a => f a
  | Throw e => Throw e
  end.

Notation "x <- m ;; k" := (bind m (fun x => k))
  (at level 61, m at next level, right associativity).
Notation "' p <- m ;; k" := (bind m (fun x => let p := x in k))
  (at level 61, p pattern, m at next level, right associativity).

(** ** JavaScript string primitives *)

Module Js.

Definition LF : ascii := "010"%char.
Definition CR : ascii := "013"%char.

Definition lf : string := String LF EmptyString.
Definition cr : string := String CR EmptyString.

Definition code (c : ascii) : nat := nat_of_ascii c.

Definition between (lo hi n : nat) : bool :=
  Nat.leb lo n && Nat.leb n hi.

(** WhiteSpace and LineTerminator code points below 256: TAB, LF, VT,
    FF, CR, SP and NBSP.  This is the class of [\s] and the set that
    [trim] strips. *)
Definition isWhiteSpace (c : ascii) : bool :=
  between 9 13 (code c) || Nat.eqb (code c) 32 || Nat.eqb (code c) 160.

(** [\w] is [[A-Za-z0-9_]]. *)
Definition isWordChar (c : ascii) : bool :=
  between 65 90 (code c) || between 97 122 (code c)
  || between 48 57 (code c) || Nat.eqb (code c) 95.

(** [.] without the [s] flag: anything but a line terminator. *)
Definition isDot (c : ascii) : bool :=
  negb (Nat.eqb (code c) 10 || Nat.eqb (code c) 13).

(** [[^)]]. *)
Definition notRParen (c : ascii) : bool := negb (c =? ")")%char.

Definition truthy (s : string) : bool :=
  match s with
  | EmptyString => false
  | String _ _ => true
  end.

Fixpoint all (p : ascii -> bool) (s : string) : bool :=
  match s with
  | EmptyString => true
  | String c s' => p c && all p s'
  end.

Fixpoint trimStart (s : string) : string :=
  match s with
  | EmptyString => EmptyString
  | String c s' => if isWhiteSpace c then trimStart s' else s
  end.

Fixpoint trimEnd (s : string) : string :=
  match s with
  | EmptyString => EmptyString
  | String c s' =>
      let t := trimEnd s' in
      if isWhiteSpace c && negb (truthy t) then EmptyString else String c t
  end.

Definition trim (s : string) : string := trimEnd (trimStart s).

Definition lowerChar (c : ascii) : ascii :=
  let n := code c in
  if between 65 90 n || between 192 214 n || between 216 222 n
  then ascii_of_nat (n + 32)
  else c.

Fixpoint toLowerCase (s : string) : string :=
  match s with
  | EmptyString => EmptyString
  | String c s' => String (lowerChar c) (toLowerCase s')
  end.

(** [s.includes(needle)] *)
Fixpoint includes (needle s : string) : bool :=
  prefix needle s ||
  match s with
  | EmptyString => false
  | String _ s' => includes needle s'
  end.

Fixpoint drop (n : nat) (s : string) : string :=
  match n, s with
  | S n', String _ s' => drop n' s'
  | _, _ => s
  end.

(** [s.replace(pat, rep)] for a string pattern: the first occurrence. *)
Fixpoint replace (pat rep s : string) : string :=
  if prefix pat s then rep ++ drop (String.length pat) s
  else match s with
       | EmptyString => EmptyString
       | String c s' => String c (replace pat rep s')
       end.

(** [s.split(sep)] for a non-empty separator.  [skip] counts the
    characters of a separator occurrence still to be passed over, [cur]
    is the piece being read. *)
Fixpoint splitFrom (sep s : string) (skip : nat) (cur : string)
  : list string :=
  match s with
  | EmptyString => [cur]
  | String c s' =>
      match skip with
      | S n => splitFrom sep s' n cur
      | O =>
          if prefix sep s
          then cur :: splitFrom sep s' (String.length sep - 1) EmptyString
          else splitFrom sep s' 0 (cur ++ String c EmptyString)
      end
  end.

Definition split (sep s : string) : list string :=
  splitFrom sep s 0 EmptyString.

(** [l.join(sep)] *)
Definition join (sep : string) (l : list string) : string :=
  String.concat sep l.

(** [l.includes(x)] on an array of strings. *)
Definition arrayIncludes (x : string) (l : list string) : bool :=
  existsb (String.eqb x) l.

End Js.

(** ** A backtracking matcher for the constructs of the title pattern

    Every combinator takes the rest of the subject and a continuation
    and returns the first success in the order a backtracking engine
    tries the alternatives. *)

Module Re.

Section Combinators.
Context {R : Type}.

Definition orElse (a b : option R) : option R :=
  match a with
  | Some x => Some x
  | None => b
  end.

(** one literal character *)
Definition lit (c : ascii) (s : string) (k : string -> option R)
  : option R :=
  match s with
  | String c' s' => if (c =? c')%char then k s' else None
  | EmptyString => None
  end.

(** [cls*], greedy: longest run first, then one character less ... *)
Fixpoint starG (p : ascii -> bool) (s : string)
         (k : string -> string -> option R) : option R :=
  match s with
  | String c s' =>
      if p c
      then orElse (starG p s' (fun m r => k (String c m) r))
                  (k EmptyString s)
      else k EmptyString s
  | EmptyString => k EmptyString s
  end.

(** [cls+], greedy *)
Definition plusG (p : ascii -> bool) (s : string)
           (k : string -> string -> option R) : option R :=
  match s with
  | String c s' =>
      if p c then starG p s' (fun m r => k (String c m) r) else None
  | EmptyString => None
  end.

(** [cls*?], lazy: shortest run first, then one character more ... *)
Fixpoint starL (p : ascii -> bool) (s : string)
         (k : string -> string -> option R) : option R :=
  orElse (k EmptyString s)
         match s with
         | String c s' =>
             if p c then starL p s' (fun m r => k (String c m) r)
             else None
         | EmptyString => None
         end.

(** [cls+?], lazy *)
Definition plusL (p : ascii -> bool) (s : string)
           (k : string -> string -> option R) : option R :=
  match s with
  | String c s' =>
      if p c then starL p s' (fun m r => k (String c m) r) else None
  | EmptyString => None
  end.

(** [(?:body)?], greedy: the body first, then without it, the
    capture of the body being undefined. *)
Definition optional {A : Type}
           (body : string -> (A -> string -> option R) -> option R)
           (s : string) (k : option A -> string -> option R)
  : option R :=
  orElse (body s (fun a r => k (Some a) r)) (k None s).

(** [$] without the [m] flag *)
Definition eos (s : string) (v : R) : option R :=
  match s with
  | EmptyString => Some v
  | String _ _ => None
  end.

End Combinators.

End Re.

(** ** Data model *)

Definition lineDelimiter : string :=
  "thisismylinedelimiterthatwilldefinitelynotappearintheactualcommitmessage".
Definition logDelimiter : string :=
  "thisismylogdelimiterthatwilldefinitelynotappearintheactualcommitmessage".

Record CommitHash : Type := mkCommitHash {
  short : string;
  full : string
}.

Record LogItem : Type := mkLogItem {
  hashes : list CommitHash;
  type : string;
  scope : option string;
  message : string;
  usernames : list string;
  prs : list string;
  body : string
}.

(** The keys [feat], [impr] and [fix] of [titles], in insertion order
    ([fix] being a keyword, the constructors carry a prefix). *)
Inductive TitleKey : Type := k_feat | k_impr | k_fix.

Definition keyName (k : TitleKey) : string :=
  match k with
  | k_feat => "feat"
  | k_impr => "impr"
  | k_fix => "fix"
  end.

Definition titles (k : TitleKey) : string :=
  match k with
  | k_feat => "Features"
  | k_impr => "Improvements"
  | k_fix => "Bug Fixes"
  end.

Definition titleKeys : list TitleKey := [k_feat; k_impr; k_fix].

(** The vocabulary listed in the commented-out [CommitTypes] union. *)
Definition CommitTypes : list string :=
  ["feat"; "impr"; "fix"; "docs"; "refactor"; "perf"; "test"; "build";
   "ci"; "style"; "chore"; "revert"].

(** ** The title grammar

    [/^(\w+)(?:\(([^)]+)\))?:\s+(.+?)(?:\s*\((@[^)]+)\))?(?:\s+\((#[^)]+)\))?$/] *)

Record TitleMatch : Type := mkTitleMatch {
  m_type : string;
  m_scope : option string;
  m_message : string;
  m_username : option string;
  m_pr : option string
}.

Definition scopeGroup {R} (s : string) (k : string -> string -> option R)
  : option R :=
  Re.lit "(" s (fun s =>
  Re.plusG Js.notRParen s (fun sc s =>
  Re.lit ")" s (fun s => k sc s))).

Definition usernameGroup {R} (s : string) (k : string -> string -> option R)
  : option R :=
  Re.starG Js.isWhiteSpace s (fun _ s =>
  Re.lit "(" s (fun s =>
  Re.lit "@" s (fun s =>
  Re.plusG Js.notRParen s (fun u s =>
  Re.lit ")" s (fun s => k (String "@" u) s))))).

Definition prGroup {R} (s : string) (k : string -> string -> option R)
  : option R :=
  Re.plusG Js.isWhiteSpace s (fun _ s =>
  Re.lit "(" s (fun s =>
  Re.lit "#" s (fun s =>
  Re.plusG Js.notRParen s (fun p s =>
  Re.lit ")" s (fun s => k (String "#" p) s))))).

Definition titleMatch (title : string) : option TitleMatch :=
  Re.plusG Js.isWordChar title (fun ty s =>
  Re.optional scopeGroup s (fun sc s =>
  Re.lit ":" s (fun s =>
  Re.plusG Js.isWhiteSpace s (fun _ s =>
  Re.plusL Js.isDot s (fun msg s =>
  Re.optional usernameGroup s (fun us s =>
  Re.optional prGroup s (fun pr s =>
  Re.eos s (mkTitleMatch ty sc msg us pr)))))))).

(** ** convertStringToLog *)

(** One iteration of the [for (const line of logString)] loop on the
    accumulators [log] and [committers]. *)
Definition convertLine (acc : list LogItem * list string) (line : string)
  : result (list LogItem * list string) :=
  let '(log, committers) := acc in
  if (line =? EmptyString) || (line =? Js.cr) || (line =? Js.lf) then Ok acc
  else
    match map Js.trim (Js.split logDelimiter line) with
    | hash :: shortHash :: title :: rest =>
        let body := nth_error rest 0 in
        let committer := nth_error rest 1 in
        match titleMatch title with
        | None => Ok acc
        | Some m =>
            let usernames :=
              match m_username m with
              | Some u => if Js.truthy u then Js.split ", " u else []
              | None => []
              end in
            let prs :=
              match m_pr m with
              | Some p => if Js.truthy p then Js.split ", " p else []
              | None => []
              end in
            let committers :=
              match committer with
              | Some c =>
                  if Js.truthy c
                     && negb (Js.arrayIncludes c committers)
                     && negb (Js.includes "github" (Js.toLowerCase c))
                  then (committers ++ [c])%list
                  else committers
              | None => committers
              end in
            let log :=
              if Js.truthy (m_type m) && Js.truthy (m_message m)
              then (log ++ [ {| hashes := [ {| short := shortHash;
                                               full := hash |} ];
                                type := m_type m;
                                scope := m_scope m;
                                message := m_message m;
                                usernames := usernames;
                                prs := prs;
                                body := match body with
                                        | Some b => b
                                        | None => EmptyString
                                        end |} ])%list
              else log in
            Ok (log, committers)
        end
    | _ =>
        (* [title] is [undefined]: [title.match] throws *)
        Throw TypeError
    end.

Fixpoint convertLines (lines : list string) (acc : list LogItem * list string)
  : result (list LogItem * list string) :=
  match lines with
  | [] => Ok acc
  | line :: lines' =>
      acc' <- convertLine acc line ;;
      convertLines lines' acc'
  end.

Definition convertStringToLog (logString : list string)
  : result (list LogItem * list string) :=
  convertLines logString ([], []).

(** ** Rendering *)

Definition header : string :=
  "Thank you to all the contributors who made this release possible!".

Definition nerdHeading : string :=
  "### Nerd stuff" ++ Js.lf ++ Js.lf ++
  "These changes will not be visible to users, but are included for completeness and to credit contributors."
  ++ Js.lf ++ Js.lf.

Definition marker : string := "!nuf".

(** [t.hashes[0].full]: a [TypeError] when [hashes] is empty. *)
Definition firstFull (t : LogItem) : result string :=
  match hashes t with
  | h :: _ => Ok (full h)
  | [] => Throw TypeError
  end.

(** [t.hashes[0].full === item.hashes[0].full] *)
Definition sameFull (t item : LogItem) : result bool :=
  a <- firstFull t ;;
  b <- firstFull item ;;
  Ok (a =? b).

Section ArrayCallbacks.
Context {A : Type}.

(** [l.findIndex(p)], scanning from index [i]; [-1] when nothing
    satisfies [p]. *)
Fixpoint findIndexFrom (p : A -> result bool) (l : list A) (i : Z)
  : result Z :=
  match l with
  | [] => Ok (-1)%Z
  | t :: l' =>
      b <- p t ;;
      if b then Ok i else findIndexFrom p l' (i + 1)%Z
  end.

Definition findIndex (p : A -> result bool) (l : list A) : result Z :=
  findIndexFrom p l 0%Z.

(** [l.filter((item, index) => p(item, index))], scanning from [i]. *)
Fixpoint filterFrom (p : A -> Z -> result bool) (l : list A) (i : Z)
  : result (list A) :=
  match l with
  | [] => Ok []
  | x :: l' =>
      b <- p x i ;;
      rest <- filterFrom p l' (i + 1)%Z ;;
      Ok (if b then x :: rest else rest)
  end.

Definition filterIndexed (p : A -> Z -> result bool) (l : list A)
  : result (list A) :=
  filterFrom p l 0%Z.

End ArrayCallbacks.

Definition isType (ty : string) (item : LogItem) : bool := type item =? ty.

Definition isMarked (ty : string) (item : LogItem) : bool :=
  (type item =? ty) && Js.includes marker (body item).

(** The array [allOtherLogs] of [buildFooter]. *)
Definition allOtherLogs (logs : list LogItem) : list LogItem :=
  let featLogs := filter (isMarked "feat") logs in
  let imprLogs := filter (isMarked "impr") logs in
  let fixLogs := filter (isMarked "fix") logs in
  let docLogs := filter (isType "docs") logs in
  let refactorLogs := filter (isType "refactor") logs in
  let perfLogs := filter (isType "perf") logs in
  let testLogs := filter (isType "test") logs in
  let buildLogs := filter (isType "build") logs in
  let ciLogs := filter (isType "ci") logs in
  let styleLogs := filter (isType "style") logs in
  let choreLogs := filter (isType "chore") logs in
  (featLogs ++ imprLogs ++ fixLogs ++ styleLogs ++ docLogs ++ refactorLogs
   ++ perfLogs ++ ciLogs ++ testLogs ++ buildLogs ++ choreLogs)%list.

(** The array [uniqueOtherLogs] of [buildFooter], as a function of
    [allOtherLogs]. *)
Definition uniqueOtherLogs (self : list LogItem) : result (list LogItem) :=
  filterIndexed
    (fun item index =>
       i <- findIndex (fun t => sameFull t item) self ;;
       Ok (index =? i)%Z)
    self.

(** The records of one user-facing section. *)
Definition sectionItems (ty : TitleKey) (allItems : list LogItem)
  : list LogItem :=
  filter (fun item => (type item =? keyName ty)
                      && negb (Js.includes marker (body item)))
         allItems.

Section Render.

(** [getOwnerAndRepo()], resolved by [release.ts] from the remote URL. *)
Variables owner repo : string.

Definition getPrLink (pr : string) : string :=
  let prNum := Js.replace "#" EmptyString pr in
  "[#" ++ prNum ++ "](https://github.com/" ++ owner ++ "/" ++ repo
  ++ "/pull/" ++ prNum ++ ")".

Definition getCommitLink (hash longHash : string) : string :=
  "[" ++ hash ++ "](https://github.com/" ++ owner ++ "/" ++ repo
  ++ "/commit/" ++ longHash ++ ")".

(** The body of the loop of [buildItems]: [ret += ...] for one item. *)
Definition buildItem (ret : string) (item : LogItem)
           (mergeTypeAndScope : bool) : string :=
  let scope_ :=
    match scope item with
    | Some s => if Js.truthy s then "**" ++ s ++ ":** " else EmptyString
    | None => EmptyString
    end in
  let scope_ :=
    if mergeTypeAndScope
    then "**" ++ type item ++
         match scope item with
         | Some s => if Js.truthy s then "(" ++ s ++ ")" else EmptyString
         | None => EmptyString
         end ++ ":** "
    else scope_ in
  let usernames_ :=
    if (0 <? List.length (usernames item))%nat
    then " (" ++ Js.join ", " (usernames item) ++ ")"
    else EmptyString in
  let pr :=
    if (0 <? List.length (prs item))%nat
    then " (" ++ Js.join ", " (map getPrLink (prs item)) ++ ")"
    else EmptyString in
  let hash :=
    " (" ++ Js.join ", "
              (map (fun h => getCommitLink (short h) (full h))
                   (hashes item))
    ++ ")" in
  ret ++ "- " ++ scope_ ++ message item ++ usernames_ ++ pr ++ hash
  ++ Js.lf.

Fixpoint buildItemsFrom (ret : string) (items : list LogItem)
         (mergeTypeAndScope : bool) : string :=
  match items with
  | [] => ret
  | item :: items' =>
      buildItemsFrom (buildItem ret item mergeTypeAndScope) items'
                     mergeTypeAndScope
  end.

Definition buildItems (items : list LogItem) (mergeTypeAndScope : bool)
  : string :=
  buildItemsFrom EmptyString items mergeTypeAndScope.

Definition buildSection (ty : TitleKey) (allItems : list LogItem)
  : string :=
  let ret := "### " ++ titles ty ++ Js.lf ++ Js.lf in
  let items := sectionItems ty allItems in
  if (List.length items =? 0)%nat then EmptyString
  else ret ++ buildItems items false.

Definition buildFooter (logs : list LogItem) : result string :=
  unique <- uniqueOtherLogs (allOtherLogs logs) ;;
  Ok (if (0 <? List.length unique)%nat
      then nerdHeading ++ buildItems unique true
      else EmptyString).

(** [contributorCount] of [buildChangelog]. *)
Definition contributorCount (log : list LogItem) : nat :=
  List.length
    (List.concat
       (map (fun l =>
               filter (fun u => negb (Js.toLowerCase u =? "dependabot"))
                      (usernames l))
            log)).

(** The [sections] array of [buildChangelog]. *)
Definition buildSections (log : list LogItem) : list string :=
  fold_left
    (fun sections ty =>
       let section := buildSection ty log in
       if Js.truthy section then (sections ++ [section])%list
       else sections)
    titleKeys [].

(** [buildChangelog], with the text returned by [getLog()] as its
    argument. *)
Definition buildChangelog (logString : string) : result string :=
  let splitLog := Js.split lineDelimiter logString in
  '(log, committers) <- convertStringToLog splitLog ;;
  let final := EmptyString in
  let final :=
    if (1 <? contributorCount log)%nat || (1 <? List.length committers)%nat
    then final ++ header ++ Js.lf ++ Js.lf
    else final in
  let final := final ++ Js.join Js.lf (buildSections log) in
  footer <- buildFooter log ;;
  Ok (if Js.truthy footer then final ++ Js.lf ++ footer else final).

End Render.

(** ** The specification's side

    Definitions written from the words of the specification, to be
    compared with the definitions above. *)

Module Spec.

(** The recognized vocabulary of conventional change types. *)
Definition recognized (ty : string) : bool :=
  Js.arrayIncludes ty CommitTypes.

(** The three user-facing types. *)
Definition userFacing (ty : string) : bool :=
  (ty =? "feat") || (ty =? "impr") || (ty =? "fix").

(** The internal-only marker in a body. *)
Definition marked (item : LogItem) : bool :=
  Js.includes "!nuf" (body item).

(** The title grammar: [type] ([\w+]), optional [(scope)], [: ],
    [message], optional trailing [ (@user1, @user2)], optional trailing
    [ (#123, #456)]. *)
Definition scopeText (sc : option string) : string :=
  match sc with
  | Some s => "(" ++ s ++ ")"
  | None => EmptyString
  end.

Definition annotationText (ws : string) (g : option string) : string :=
  match g with
  | Some a => ws ++ "(" ++ a ++ ")"
  | None => EmptyString
  end.

Definition nonEmptyOf (p : ascii -> bool) (s : string) : Prop :=
  Js.truthy s = true /\ Js.all p s = true.

Definition annotation (mark : ascii) (g : option string) : Prop :=
  match g with
  | Some a => exists rest, a = String mark rest
                           /\ nonEmptyOf Js.notRParen rest
  | None => True
  end.

Definition grammar (title : string) (m : TitleMatch) : Prop :=
  exists ws wsU wsP,
    title = m_type m ++ scopeText (m_scope m) ++ ":" ++ ws ++ m_message m
            ++ annotationText wsU (m_username m)
            ++ annotationText wsP (m_pr m)
    /\ nonEmptyOf Js.isWordChar (m_type m)
    /\ match m_scope m with
       | Some s => nonEmptyOf Js.notRParen s
       | None => True
       end
    /\ nonEmptyOf Js.isWhiteSpace ws
    /\ nonEmptyOf Js.isDot (m_message m)
    /\ annotation "@" (m_username m)
    /\ annotation "#" (m_pr m)
    /\ Js.all Js.isWhiteSpace wsU = true
    /\ Js.all Js.isWhiteSpace wsP = true.

(** Footer categories in the fixed concatenation order:
    feature(marked), improvement(marked), fix(marked), style, docs,
    refactor, perf, ci, test, build, chore. *)
Definition footerOrder : list (LogItem -> bool) :=
  [ isMarked "feat"; isMarked "impr"; isMarked "fix";
    isType "style"; isType "docs"; isType "refactor"; isType "perf";
    isType "ci"; isType "test"; isType "build"; isType "chore" ].

Definition footerEligible (item : LogItem) : bool :=
  existsb (fun cat => cat item) footerOrder.

Definition concatenated (log : list LogItem) : list LogItem :=
  flat_map (fun cat => filter cat log) footerOrder.

(** Scanning left to right, keep only the first occurrence: [pre] holds
    the elements already scanned. *)
Fixpoint keepFirstFrom {A : Type} (same : A -> A -> bool)
         (pre l : list A) : list A :=
  match l with
  | [] => []
  | x :: l' =>
      if existsb (fun t => same t x) pre
      then keepFirstFrom same (pre ++ [x]) l'
      else x :: keepFirstFrom same (pre ++ [x]) l'
  end.

Definition keepFirst {A : Type} (same : A -> A -> bool) (l : list A)
  : list A :=
  keepFirstFrom same [] l.

(** The full hash of a record, as the first of its hash pairs. *)
Definition fullHash (item : LogItem) : string :=
  match hashes item with
  | h :: _ => full h
  | [] => EmptyString
  end.

(** Two elements carry the same key. *)
Definition sameKey {A : Type} (key : A -> string) (t x : A) : bool :=
  key t =? key x.

Definition sameFullHash (t item : LogItem) : bool :=
  sameKey fullHash t item.

(** All the full hashes of a record. *)
Definition fullHashes (item : LogItem) : list string :=
  map full (hashes item).

Definition sameFullHashes (t item : LogItem) : bool :=
  if list_eq_dec string_dec (fullHashes t) (fullHashes item)
  then true else false.

(** Distinct usernames that are not an automation name: a username is
    left out when its name, the handle without its [@], is in the
    exclusion set, in any letter case. *)
Definition automationNames : list string := ["dependabot"].

Definition handle (u : string) : string :=
  match u with
  | String c name => if (c =? "@")%char then name else u
  | EmptyString => u
  end.

Definition nonBotUsername (u : string) : bool :=
  negb (Js.arrayIncludes (Js.toLowerCase (handle u)) automationNames).

Definition distinctContributors (log : list LogItem) : list string :=
  nodup string_dec
        (filter nonBotUsername (List.concat (map usernames log))).

Definition nonBotCommitter (c : string) : bool :=
  negb (Js.includes "github" (Js.toLowerCase c)).

(** A pull-request reference [#N] without its mark: [N]. *)
Fixpoint number (pr : string) : string :=
  match pr with
  | EmptyString => EmptyString
  | String c pr' => if (c =? "#")%char then pr' else String c (number pr')
  end.

Section Lines.
Variables owner repo : string.

(** The link forms [[#N](.../pull/N)] and [[shorthash](.../commit/fullhash)],
    on the address of the repository. *)
Definition repository : string :=
  "https://github.com/" ++ owner ++ "/" ++ repo.

Definition prLink (pr : string) : string :=
  "[#" ++ number pr ++ "](" ++ repository ++ "/pull/" ++ number pr ++ ")".

Definition commitLink (h : CommitHash) : string :=
  "[" ++ short h ++ "](" ++ repository ++ "/commit/" ++ full h ++ ")".

(** [- [**scope:** ]message[ (@user1, @user2)][ (#123, #456)] (hash-links)],
    the footer having the merged prefix [**type(scope):**]; the
    references of the PR group and the hash pairs are links. *)
Definition group (l : list string) : string :=
  " (" ++ Js.join ", " l ++ ")".

Definition optionalGroup (l : list string) : string :=
  match l with
  | [] => EmptyString
  | _ :: _ => group l
  end.

Definition prefixOf (merged : bool) (item : LogItem) : string :=
  match merged, scope item with
  | false, Some s => "**" ++ s ++ ":** "
  | false, None => EmptyString
  | true, Some s => "**" ++ type item ++ "(" ++ s ++ "):** "
  | true, None => "**" ++ type item ++ ":** "
  end.

Definition line (merged : bool) (item : LogItem) : string :=
  "- " ++ prefixOf merged item ++ message item
  ++ optionalGroup (usernames item)
  ++ optionalGroup (map prLink (prs item))
  ++ group (map commitLink (hashes item))
  ++ Js.lf.

Definition lines (merged : bool) (items : list LogItem) : string :=
  String.concat EmptyString (map (line merged) items).
End Lines.

End Spec.

(** A record as the parser builds it from the trimmed fields of an entry
    and the captures of its title. *)
Definition recordOf (hash shortHash : string) (rest : list string)
           (m : TitleMatch) : LogItem :=
  {| hashes := [ {| short := shortHash; full := hash |} ];
     type := m_type m;
     scope := m_scope m;
     message := m_message m;
     usernames := match m_username m with
                  | Some u => Js.split ", " u
                  | None => []
                  end;
     prs := match m_pr m with
            | Some p => Js.split ", " p
            | None => []
            end;
     body := match nth_error rest 0 with
             | Some b => b
             | None => EmptyString
             end |}.

(** [r] stems from an entry of [lines] whose title matches. *)
Definition parsedFrom (lines : list string) (r : LogItem) : Prop :=
  exists line hash shortHash title rest m,
    In line lines
    /\ map Js.trim (Js.split logDelimiter line)
       = hash :: shortHash :: title :: rest
    /\ titleMatch title = Some m
    /\ r = recordOf hash shortHash rest m.

(** What every parsed record satisfies. *)
Definition wellFormed (r : LogItem) : Prop :=
  List.length (hashes r) = 1%nat
  /\ Spec.nonEmptyOf Js.isWordChar (type r)
  /\ Js.truthy (message r) = true
  /\ match scope r with
     | Some s => Js.truthy s = true
     | None => True
     end.

(** An entry of a log blob, as [getLog] formats it. *)
Definition entry (hash shortHash title body committer : string) : string :=
  lineDelimiter ++ hash ++ logDelimiter ++ shortHash ++ logDelimiter
  ++ title ++ logDelimiter ++ body ++ logDelimiter ++ committer.

(** ** Auxiliary predicates of the proofs *)

(** What the committer of a matching entry does to [committers]. *)
Inductive committerStep (rest : list string) (cs : list string)
  : list string -> Prop :=
| committer_kept : committerStep rest cs cs
| committer_pushed (c : string) :
    nth_error rest 1 = Some c ->
    Js.truthy c = true ->
    ~ In c cs ->
    Spec.nonBotCommitter c = true ->
    committerStep rest cs (cs ++ [c]).

(** What one iteration does to the accumulators. *)
Inductive lineStep (line : string) (log : list LogItem) (cs : list string)
  : list LogItem -> list string -> Prop :=
| line_skipped : lineStep line log cs log cs
| line_pushed (hash shortHash title : string) (rest : list string)
              (m : TitleMatch) (cs' : list string) :
    map Js.trim (Js.split logDelimiter line)
    = hash :: shortHash :: title :: rest ->
    titleMatch title = Some m ->
    committerStep rest cs cs' ->
    lineStep line log cs (log ++ [recordOf hash shortHash rest m]) cs'.

(** The loop invariant of [convertStringToLog]. *)
Definition parserInv (all : list string) (log : list LogItem)
           (cs : list string) : Prop :=
  Forall (parsedFrom all) log
  /\ (List.length cs <= List.length log)%nat
  /\ NoDup cs
  /\ Forall (fun c => Js.truthy c = true /\ Spec.nonBotCommitter c = true) cs.

Definition hasHash (t : LogItem) : Prop := hashes t <> [].

Definition scopeOk (r : LogItem) : Prop :=
  match scope r with
  | Some s => Js.truthy s = true
  | None => True
  end.

(** ** The claims in the specification's wording

    The properties of the specification that the code is compared with,
    each read on the parsed records [log], the committers [cs], the footer
    records [u] and the returned text [out]. *)

Module Stated.

(** Marker law. *)
Definition markerLaw (log u : list LogItem) : Prop :=
  forall r,
    In r log -> Spec.userFacing (type r) = true ->
    (Spec.marked r = true ->
     In r u /\ forall ty, ~ In r (sectionItems ty log))
    /\ (Spec.marked r = false ->
        ~ In r u
        /\ exists ty, In r (sectionItems ty log)
                      /\ forall ty', In r (sectionItems ty' log) ->
                                     ty' = ty).

(** Threshold law: the header exactly when there are two or more
    distinct non-bot usernames or two or more distinct non-bot
    committers. *)
Definition thresholdLaw (log : list LogItem) (cs : list string)
           (out : string) : Prop :=
  prefix header out = true
  <-> (2 <= List.length (Spec.distinctContributors log))%nat
      \/ (2 <= List.length cs)%nat.

(** No record outside the recognized vocabulary. *)
Definition vocabularyInvariant (log : list LogItem) : Prop :=
  Forall (fun r => Spec.recognized (type r) = true) log.

(** The headings [### Features], [### Improvements], [### Fixes]. *)
Definition sectionTitle (k : TitleKey) : string :=
  match k with
  | k_feat => "Features"
  | k_impr => "Improvements"
  | k_fix => "Fixes"
  end.

Definition fixHeading (log : list LogItem) (out : string) : Prop :=
  (exists r, In r log /\ type r = "fix" /\ Spec.marked r = false) ->
  Js.includes ("### " ++ sectionTitle k_fix ++ Js.lf) out = true.

(** Per entry: trim; skip if empty or only a line terminator. *)
Definition skipped (line : string) : bool :=
  let t := Js.trim line in
  (t =? EmptyString) || (t =? Js.cr) || (t =? Js.lf).

End Stated.

(** ** Sample log blobs *)

Module Sample.

Definition owner : string := "iwmywn".
Definition repo : string := "release".

(** Two marked [feat] entries carrying the same full hash. *)
Definition twoMarked : string :=
  entry "1111111111" "1111111" "feat(ui): add button" "!nuf" "me" ++ Js.lf
  ++ entry "1111111111" "1111111" "feat(ui): move button" "!nuf" "me".

Definition moveButton : LogItem :=
  {| hashes := [ {| short := "1111111"; full := "1111111111" |} ];
     type := "feat"; scope := Some "ui"; message := "move button";
     usernames := []; prs := []; body := "!nuf" |}.

(** A [docs] and a [chore] entry carrying the same full hash, the
    [chore] one first in the log. *)
Definition docsAndChore : string :=
  entry "2222222222" "2222222" "chore: bump dep" EmptyString "me" ++ Js.lf
  ++ entry "2222222222" "2222222" "docs(readme): usage" EmptyString "me".

Definition docsRecord : LogItem :=
  {| hashes := [ {| short := "2222222"; full := "2222222222" |} ];
     type := "docs"; scope := Some "readme"; message := "usage";
     usernames := []; prs := []; body := EmptyString |}.

Definition choreRecord : LogItem :=
  {| hashes := [ {| short := "2222222"; full := "2222222222" |} ];
     type := "chore"; scope := None; message := "bump dep";
     usernames := []; prs := []; body := EmptyString |}.

(** One username annotated on two different commits of one committer. *)
Definition sameUserTwice : string :=
  entry "3333333333" "3333333" "feat: add button (@alice)" EmptyString "me" ++ Js.lf
  ++ entry "4444444444" "4444444" "fix: crash on null (@alice)" EmptyString "me".

(** A title whose type token is outside the vocabulary. *)
Definition unknownType : string :=
  entry "5555555555" "5555555" "foo: bar" EmptyString "me".

(** One unmarked [fix] entry. *)
Definition oneFix : string :=
  entry "6666666666" "6666666" "fix: crash on null (@bob)" EmptyString "me".

Definition fixRecord : LogItem :=
  {| hashes := [ {| short := "6666666"; full := "6666666666" |} ];
     type := "fix"; scope := None; message := "crash on null";
     usernames := ["@bob"]; prs := []; body := EmptyString |}.

(** The scenario of the specification. *)
Definition scenario : string :=
  entry "7777777777" "7777777" "feat(ui): add button (@alice) (#10)"
        EmptyString "me" ++ Js.lf
  ++ entry "8888888888" "8888888" "fix: crash on null (@bob)" EmptyString "me".

Definition aliceRecord : LogItem :=
  {| hashes := [ {| short := "7777777"; full := "7777777777" |} ];
     type := "feat"; scope := Some "ui"; message := "add button";
     usernames := ["@alice"]; prs := ["#10"]; body := EmptyString |}.

Definition bobRecord : LogItem :=
  {| hashes := [ {| short := "8888888"; full := "8888888888" |} ];
     type := "fix"; scope := None; message := "crash on null";
     usernames := ["@bob"]; prs := []; body := EmptyString |}.

(** An entry whose title does not follow the grammar. *)
Definition freeForm : string :=
  entry "9999999999" "9999999" "Merge pull request" EmptyString "me".

Definition freeFormEntry : string :=
  "9999999999" ++ logDelimiter ++ "9999999" ++ logDelimiter
  ++ "Merge pull request" ++ logDelimiter ++ logDelimiter ++ "me".

(** An entry with an empty title. *)
Definition untitled : string :=
  "9999999999" ++ logDelimiter ++ "9999999" ++ logDelimiter
  ++ logDelimiter ++ logDelimiter ++ "me".

(** Entries without a title: blank text between delimiters. *)
Definition blank : string := " ".
Definition crlf : string := Js.cr ++ Js.lf.

(** The records of the samples. *)
Definition addButton : LogItem :=
  {| hashes := [ {| short := "1111111"; full := "1111111111" |} ];
     type := "feat"; scope := Some "ui"; message := "add button";
     usernames := []; prs := []; body := "!nuf" |}.

Definition fooRecord : LogItem :=
  {| hashes := [ {| short := "5555555"; full := "5555555555" |} ];
     type := "foo"; scope := None; message := "bar";
     usernames := []; prs := []; body := EmptyString |}.

Definition aliceFeat : LogItem :=
  {| hashes := [ {| short := "3333333"; full := "3333333333" |} ];
     type := "feat"; scope := None; message := "add button";
     usernames := ["@alice"]; prs := []; body := EmptyString |}.

Definition aliceFix : LogItem :=
  {| hashes := [ {| short := "4444444"; full := "4444444444" |} ];
     type := "fix"; scope := None; message := "crash on null";
     usernames := ["@alice"]; prs := []; body := EmptyString |}.

Definition lines (blob : string) : list string :=
  Js.split lineDelimiter blob.

End Sample.

(** An entry that produces no record and no error: it is skipped by the
    guard of the loop, or it has a title that does not match. *)
Definition unmatched (line : string) : Prop :=
  line = EmptyString \/ line = Js.cr \/ line = Js.lf
  \/ exists hash shortHash title rest,
      map Js.trim (Js.split logDelimiter line)
      = hash :: shortHash :: title :: rest
      /\ titleMatch title = None.

(** ** Further definitions: delimiters and canonical input *)

(** [sep] has no border: no proper non-empty suffix of [sep] is a prefix
    of [sep], so that two occurrences of [sep] cannot overlap. *)
Fixpoint noBorderFrom (sep suffix : string) : bool :=
  match suffix with
  | EmptyString => true
  | String _ suffix' => negb (prefix suffix sep) && noBorderFrom sep suffix'
  end.

Definition borderless (sep : string) : bool :=
  match sep with
  | EmptyString => false
  | String _ sep' => noBorderFrom sep sep'
  end.

(** The first and the last character are not white space. *)
Definition firstNonSpace (s : string) : bool :=
  match s with
  | EmptyString => false
  | String c _ => negb (Js.isWhiteSpace c)
  end.

Fixpoint lastNonSpace (s : string) : bool :=
  match s with
  | EmptyString => false
  | String c s' =>
      match s' with
      | EmptyString => negb (Js.isWhiteSpace c)
      | String _ _ => lastNonSpace s'
      end
  end.

(** A title written out from its parts: [type(scope): message (@users) (#prs)]. *)
Definition canonicalTitle (m : TitleMatch) : string :=
  m_type m ++ Spec.scopeText (m_scope m) ++ ": " ++ m_message m
  ++ Spec.annotationText " " (m_username m)
  ++ Spec.annotationText " " (m_pr m).

Definition noParen (c : ascii) : bool := negb (c =? "(")%char.

(** The parts from which [canonicalTitle] can be read back: a message
    without an opening parenthesis that neither starts nor ends with
    white space. *)
Definition canonical (m : TitleMatch) : Prop :=
  Spec.nonEmptyOf Js.isWordChar (m_type m)
  /\ match m_scope m with
     | Some s => Spec.nonEmptyOf Js.notRParen s
     | None => True
     end
  /\ Spec.nonEmptyOf Js.isDot (m_message m)
  /\ Js.all noParen (m_message m) = true
  /\ firstNonSpace (m_message m) = true
  /\ lastNonSpace (m_message m) = true
  /\ Spec.annotation "@" (m_username m)
  /\ Spec.annotation "#" (m_pr m).

(** The records that one entry contributes, and the committer it offers. *)
Definition lineRecords (line : string) : list LogItem :=
  if (line =? EmptyString) || (line =? Js.cr) || (line =? Js.lf) then []
  else
    match map Js.trim (Js.split logDelimiter line) with
    | hash :: shortHash :: title :: rest =>
        match titleMatch title with
        | Some m => [recordOf hash shortHash rest m]
        | None => []
        end
    | _ => []
    end.

Definition lineCommitters (line : string) : list string :=
  if (line =? EmptyString) || (line =? Js.cr) || (line =? Js.lf) then []
  else
    match map Js.trim (Js.split logDelimiter line) with
    | hash :: shortHash :: title :: rest =>
        match titleMatch title, nth_error rest 1 with
        | Some _, Some c =>
            if Js.truthy c && Spec.nonBotCommitter c then [c] else []
        | _, _ => []
        end
    | _ => []
    end.

(** An entry that passes the guard of the loop and has no title field. *)
Definition titleless (line : string) : bool :=
  negb ((line =? EmptyString) || (line =? Js.cr) || (line =? Js.lf))
  && (List.length (Js.split logDelimiter line) <? 3)%nat.

(** The types that a section or the footer renders. *)
Definition renderedTypes : list string :=
  ["feat"; "impr"; "fix"; "style"; "docs"; "refactor"; "perf"; "ci";
   "test"; "build"; "chore"].

(** The run of a class stops at the start of [r]. *)
Definition stopsAt (p : ascii -> bool) (r : string) : bool :=
  match r with
  | EmptyString => true
  | String c _ => negb (p c)
  end.

(** After its leading white space, [s] opens a parenthesis. *)
Definition opensParen (s : string) : bool :=
  match Js.trimStart s with
  | EmptyString => false
  | String c _ => (c =? "(")%char
  end.

(** ** release.ts: the callers of the changelog builder *)

(** What a spinner is left showing. *)
Inductive Spinner : Type :=
| Warned (text : string)
| Succeeded (text : string)
| FailedWith (text : string).

(** [generateChangelog]: the changelog of [buildChangelog] and the final
    state of its spinner. *)
Definition generateChangelog (owner repo logString : string)
  : result (string * Spinner) :=
  changelog <- buildChangelog owner repo logString ;;
  Ok (changelog,
      if negb (Js.truthy (Js.trim changelog))
      then Warned "No new contributions found since the last release. Consider carefully whether a release is necessary."
      else Succeeded "Changelog generated.").

(** [process.exit(code)] ends the run; otherwise a value is returned. *)
Inductive Exit (A : Type) : Type :=
| Returned (a : A)
| Exited (code : nat).

Arguments Returned {A} a.
Arguments Exited {A} code.

(** *** getOwnerAndRepo

    [/[:/]([^/:]+)\/([^/]+?)(?:\.git)?$/], searched from every position
    of the trimmed output of [git remote get-url origin]. *)

Module Remote.

Section Searching.
Context {R : Type}.

(** one character of a class *)
Definition anyOf (p : ascii -> bool) (s : string) (k : string -> option R)
  : option R :=
  match s with
  | String c s' => if p c then k s' else None
  | EmptyString => None
  end.

(** an unanchored pattern: the first position, from the left, at which
    an attempt succeeds *)
Fixpoint search (attempt : string -> option R) (s : string) : option R :=
  Re.orElse (attempt s)
            match s with
            | EmptyString => None
            | String _ s' => search attempt s'
            end.

Definition gitSuffix (s : string) (k : unit -> string -> option R)
  : option R :=
  Re.lit "." s (fun s =>
  Re.lit "g" s (fun s =>
  Re.lit "i" s (fun s =>
  Re.lit "t" s (fun s => k tt s)))).

End Searching.

Definition isSeparator (c : ascii) : bool :=
  (c =? ":")%char || (c =? "/")%char.

(** [[^/:]] and [[^/]] *)
Definition notSeparator (c : ascii) : bool := negb (isSeparator c).
Definition notSlash (c : ascii) : bool := negb (c =? "/")%char.

Definition attempt (s : string) : option (string * string) :=
  anyOf isSeparator s (fun s =>
  Re.plusG notSeparator s (fun owner s =>
  Re.lit "/" s (fun s =>
  Re.plusL notSlash s (fun repo s =>
  Re.optional gitSuffix s (fun _ s =>
  Re.eos s (owner, repo)))))).

(** [remoteUrl.match(...)], as the pair of its two captures *)
Definition matchUrl (remoteUrl : string) : option (string * string) :=
  search attempt remoteUrl.

(** the text after the first [:] or [/] *)
Fixpoint afterFirstSeparator (s : string) : string :=
  match s with
  | EmptyString => EmptyString
  | String c s' => if isSeparator c then s' else afterFirstSeparator s'
  end.

End Remote.

(** [getOwnerAndRepo], on the output of [git remote get-url origin]: the
    owner and the repository, or [process.exit(1)]. *)
Definition getOwnerAndRepo (remoteOutput : string) : Exit (string * string) :=
  let remoteUrl := Js.trim remoteOutput in
  match Remote.matchUrl remoteUrl with
  | Some (owner, repo) => Returned (owner, repo)
  | None => Exited 1
  end.

(** *** createGithubRelease

    The replies of [octokit.repos.createRelease] are an input: [api n] is
    the reply to the call of the [n]-th attempt.  Of a thrown error only
    [error?.code] and [error?.status] are read. *)

Record ApiError : Type := mkApiError {
  err_code : option string;
  err_status : option Z
}.

Inductive ApiReply : Type :=
| Created
| Rejected (error : ApiError).

Definition isNetworkError (error : ApiError) : bool :=
  match err_code error with
  | Some c => c =? "ECONNABORTED"
  | None => false
  end
  || match err_status error with
     | Some n => (n =? 500)%Z || (n =? 502)%Z || (n =? 503)%Z || (n =? 504)%Z
     | None => false
     end.

Definition maxRetries : nat := 5.

(** What a run of [createGithubRelease] has done: the calls made, the
    milliseconds asked of [setTimeout], how it ended and what the spinner
    shows. *)
Record ReleaseRun : Type := mkReleaseRun {
  calls : nat;
  slept : nat;
  ending : Exit unit;
  shown : option Spinner
}.

(** The loop [for (let attempt = 1; attempt <= maxRetries; attempt++)],
    from [attempt] on; [remaining] is [maxRetries + 1 - attempt], the
    number of iterations that the loop condition leaves. *)
Fixpoint createReleaseFrom (api : nat -> ApiReply) (remaining attempt : nat)
         (calls slept : nat) : ReleaseRun :=
  match remaining with
  | O => mkReleaseRun calls slept (Returned tt) None
  | S remaining' =>
      match api attempt with
      | Created =>
          mkReleaseRun (S calls) slept (Returned tt)
                       (Some (Succeeded "GitHub release created."))
      | Rejected error =>
          if (attempt <? maxRetries)%nat && isNetworkError error
          then createReleaseFrom api remaining' (S attempt) (S calls)
                                 (slept + 1000 * attempt)
          else mkReleaseRun (S calls) slept (Exited 1)
                 (Some (FailedWith
                          "Failed to create release after 5 attempts. Please create the release manually."))
      end
  end.

Definition createGithubRelease (api : nat -> ApiReply) : ReleaseRun :=
  createReleaseFrom api maxRetries 1 0 0.

(** A reply after which the loop tries again, the attempts allowing. *)
Definition retryable (reply : ApiReply) : bool :=
  match reply with
  | Created => false
  | Rejected error => isNetworkError error
  end.

(** *** getLog

    The two [execSync] calls are inputs.  [tags] is the output of
    [git ls-remote --tags --refs] sorted by version, [None] when the
    command fails; [gitLog range] is the output of [git log] on [range]
    with the format of the two delimiters, [None] when it fails.
    [lastTag] is the exported module variable, before and after. *)

Record LogRun : Type := mkLogRun {
  fetched : Exit string;
  tagAfter : option string;
  spun : Spinner
}.

(** [l.at(-1)] *)
Fixpoint atLast (l : list string) : option string :=
  match l with
  | [] => None
  | x :: l' =>
      match l' with
      | [] => Some x
      | _ :: _ => atLast l'
      end
  end.

Definition tagsRef : string := "refs/tags/".

(** The [if (lastLine)] statement: the new [lastTag] and the range. *)
Definition rangeOf (remoteTagsRaw : list string) (lastTag : option string)
  : result (option string * string) :=
  match atLast remoteTagsRaw with
  | Some (String c l) =>
      match nth_error (Js.split tagsRef (String c l)) 1 with
      | Some t =>
          let lastTag' := Js.trim t in
          Ok (Some lastTag', lastTag' ++ "..HEAD")
      | None => Throw TypeError
      end
  | _ => Ok (lastTag, "--root")
  end.

(** The second [try]: the log of [range]. *)
Definition logOf (gitLog : string -> option string) (range : string)
           (lastTag : option string) : LogRun :=
  match gitLog range with
  | Some log => mkLogRun (Returned log) lastTag (Succeeded "Git log fetched.")
  | None => mkLogRun (Exited 1) lastTag (FailedWith "Failed to get Git log.")
  end.

Definition getLog (tags : option string) (gitLog : string -> option string)
           (lastTag : option string) : result LogRun :=
  match tags with
  | None =>
      Ok (mkLogRun (Exited 1) lastTag
                   (FailedWith "Failed to fetch remote tags."))
  | Some output =>
      let remoteTagsRaw := Js.split Js.lf (Js.trim output) in
      ' (lastTag', range) <- rangeOf remoteTagsRaw lastTag ;;
      Ok (logOf gitLog range lastTag')
  end.

(** The text has no line feed. *)
Definition oneLine (s : string) : bool := negb (Js.includes Js.lf s).

(** The text is empty or ends with a line feed: what precedes the last
    line of an output. *)
Definition wholeLines (s : string) : Prop :=
  s = EmptyString \/ exists p, s = p ++ Js.lf.

(** *** buildChangelog as the process runs it

    [buildChangelog] calls [getLog()], and [getPrLink] and
    [getCommitLink] call [getOwnerAndRepo()] at every link: a run returns
    its text, throws, or ends the process.  [remote] is the output of
    [git remote get-url origin], [None] when the command fails, the same
    at every call. *)

Definition Run (A : Type) : Type := result (Exit A).

Module Process.

Definition done {A : Type} (a : A) : Run A := Ok (Returned a).

Definition andThen {A B : Type} (m : Run A) (k : A -> Run B) : Run B :=
  match m with
  | Ok (Returned a) => k a
  | Ok (Exited code) => Ok (Exited code)
  | Throw e => Throw e
  end.

(** [l.map(f)], the calls made from left to right *)
Fixpoint mapRun {A B : Type} (f : A -> Run B) (l : list A) : Run (list B) :=
  match l with
  | [] => done []
  | x :: l' =>
      andThen (f x) (fun y =>
      andThen (mapRun f l') (fun ys => done (y :: ys)))
  end.

Section Remote.
Variable remote : option string.

Definition getOwnerAndRepo : Run (string * string) :=
  match remote with
  | Some remoteOutput => Ok (getOwnerAndRepo remoteOutput)
  | None => Ok (Exited 1)
  end.

Definition getPrLink (pr : string) : Run string :=
  andThen getOwnerAndRepo (fun '(owner, repo) =>
  let prNum := Js.replace "#" EmptyString pr in
  done ("[#" ++ prNum ++ "](https://github.com/" ++ owner ++ "/" ++ repo
        ++ "/pull/" ++ prNum ++ ")")).

Definition getCommitLink (hash longHash : string) : Run string :=
  andThen getOwnerAndRepo (fun '(owner, repo) =>
  done ("[" ++ hash ++ "](https://github.com/" ++ owner ++ "/" ++ repo
        ++ "/commit/" ++ longHash ++ ")")).

Definition buildItem (ret : string) (item : LogItem)
           (mergeTypeAndScope : bool) : Run string :=
  let scope_ :=
    match scope item with
    | Some s => if Js.truthy s then "**" ++ s ++ ":** " else EmptyString
    | None => EmptyString
    end in
  let scope_ :=
    if mergeTypeAndScope
    then "**" ++ type item ++
         match scope item with
         | Some s => if Js.truthy s then "(" ++ s ++ ")" else EmptyString
         | None => EmptyString
         end ++ ":** "
    else scope_ in
  let usernames_ :=
    if (0 <? List.length (usernames item))%nat
    then " (" ++ Js.join ", " (usernames item) ++ ")"
    else EmptyString in
  andThen
    (if (0 <? List.length (prs item))%nat
     then andThen (mapRun getPrLink (prs item)) (fun links =>
          done (" (" ++ Js.join ", " links ++ ")"))
     else done EmptyString) (fun pr =>
  andThen
    (mapRun (fun h => getCommitLink (short h) (full h)) (hashes item))
    (fun links =>
  let hash := " (" ++ Js.join ", " links ++ ")" in
  done (ret ++ "- " ++ scope_ ++ message item ++ usernames_ ++ pr ++ hash
        ++ Js.lf))).

Fixpoint buildItemsFrom (ret : string) (items : list LogItem)
         (mergeTypeAndScope : bool) : Run string :=
  match items with
  | [] => done ret
  | item :: items' =>
      andThen (buildItem ret item mergeTypeAndScope) (fun ret' =>
      buildItemsFrom ret' items' mergeTypeAndScope)
  end.

Definition buildItems (items : list LogItem) (mergeTypeAndScope : bool)
  : Run string :=
  buildItemsFrom EmptyString items mergeTypeAndScope.

Definition buildSection (ty : TitleKey) (allItems : list LogItem)
  : Run string :=
  let ret := "### " ++ titles ty ++ Js.lf ++ Js.lf in
  let items := sectionItems ty allItems in
  if (List.length items =? 0)%nat then done EmptyString
  else andThen (buildItems items false) (fun lines => done (ret ++ lines)).

Definition buildFooter (logs : list LogItem) : Run string :=
  match uniqueOtherLogs (allOtherLogs logs) with
  | Throw e => Throw e
  | Ok unique =>
      if (0 <? List.length unique)%nat
      then andThen (buildItems unique true) (fun lines =>
           done (nerdHeading ++ lines))
      else done EmptyString
  end.

(** The [sections] array of [buildChangelog]. *)
Definition buildSections (log : list LogItem) : Run (list string) :=
  fold_left
    (fun acc ty =>
       andThen acc (fun sections =>
       andThen (buildSection ty log) (fun section =>
       done (if Js.truthy section then (sections ++ [section])%list
             else sections))))
    titleKeys (done []).

(** [buildChangelog] from the text that [getLog()] returned. *)
Definition changelogOf (logString : string) : Run string :=
  let splitLog := Js.split lineDelimiter logString in
  match convertStringToLog splitLog with
  | Throw e => Throw e
  | Ok (log, committers) =>
      let final := EmptyString in
      let final :=
        if (1 <? contributorCount log)%nat
           || (1 <? List.length committers)%nat
        then final ++ header ++ Js.lf ++ Js.lf
        else final in
      andThen (buildSections log) (fun sections =>
      let final := final ++ Js.join Js.lf sections in
      andThen (buildFooter log) (fun footer =>
      done (if Js.truthy footer then final ++ Js.lf ++ footer else final)))
  end.

(** [buildChangelog()]; [tags], [gitLog] and [lastTag] are those of
    [getLog]. *)
Definition buildChangelog (tags : option string)
           (gitLog : string -> option string) (lastTag : option string)
  : Run string :=
  match getLog tags gitLog lastTag with
  | Throw e => Throw e
  | Ok run =>
      match fetched run with
      | Returned logString => changelogOf logString
      | Exited code => Ok (Exited code)
      end
  end.

End Remote.

End Process.

(** A record that a section or the footer renders. *)
Definition rendered (r : LogItem) : Prop := In (type r) renderedTypes.

(** A result without an exit, as the outcome of a run. *)
Definition returned {A : Type} (m : result A) : Run A :=
  match m with
  | Ok a => Process.done a
  | Throw e => Throw e
  end.

(** ** Sample inputs of the release script *)

Module Examples.

Definition TAB : ascii := "009"%char.

(** The captures of [feat(ui): add button (@alice) (#10)]. *)
Definition aliceTitle : TitleMatch :=
  {| m_type := "feat"; m_scope := Some "ui"; m_message := "add button";
     m_username := Some "@alice"; m_pr := Some "#10" |}.

(** A log of one revert. *)
Definition revertOnly : string :=
  entry "aaaaaaaaaa" "aaaaaaa" "revert: undo button" EmptyString "me".

Definition revertRecord : LogItem :=
  {| hashes := [ {| short := "aaaaaaa"; full := "aaaaaaaaaa" |} ];
     type := "revert"; scope := None; message := "undo button";
     usernames := []; prs := []; body := EmptyString |}.

(** The automation name annotated beside one contributor, on two commits
    of one committer. *)
Definition botAndAlice : string :=
  entry "bbbbbbbbbb" "bbbbbbb" "chore: bump dep (@dependabot)" EmptyString
        "me" ++ Js.lf
  ++ entry "cccccccccc" "ccccccc" "fix: crash on null (@alice)" EmptyString
           "me".

Definition botRecord : LogItem :=
  {| hashes := [ {| short := "bbbbbbb"; full := "bbbbbbbbbb" |} ];
     type := "chore"; scope := None; message := "bump dep";
     usernames := ["@dependabot"]; prs := []; body := EmptyString |}.

Definition aliceCrash : LogItem :=
  {| hashes := [ {| short := "ccccccc"; full := "cccccccccc" |} ];
     type := "fix"; scope := None; message := "crash on null";
     usernames := ["@alice"]; prs := []; body := EmptyString |}.

(** One commit with a free-form subject, whose body holds a blank
    between two entry delimiters. *)
Definition blankInBody : string :=
  entry "dddddddddd" "ddddddd" "Merge pull request"
        ("see" ++ lineDelimiter ++ " " ++ lineDelimiter ++ "above") "me".

(** The output of [git remote get-url origin]. *)
Definition sshRemote : string := "git@github.com:iwmywn/release.git" ++ Js.lf.
Definition noPath : string := "origin" ++ Js.lf.

(** Two answers 503, then the release is created. *)
Definition thirdTime (attempt : nat) : ApiReply :=
  if (attempt <? 3)%nat
  then Rejected {| err_code := None; err_status := Some 503%Z |}
  else Created.

(** The output of [git ls-remote --tags --refs] for two tags. *)
Definition firstTagLine : string :=
  "1111111111" ++ String TAB "refs/tags/v25.1.0".
Definition tagListing : string :=
  firstTagLine ++ Js.lf
  ++ "2222222222" ++ String TAB "refs/tags/v25.2.0" ++ Js.lf.
Definition noRef : string := "2222222222 v25.2.0" ++ Js.lf.

Definition gitLog (range : string) : option string :=
  if range =? "v25.2.0..HEAD" then Some Sample.oneFix else None.

(** A log with a blank inside the body of its commit. *)
Definition gitLogBlank (range : string) : option string :=
  Some blankInBody.

End Examples.

(* ================================================================== *)
(** * Part II.  Lemmas and theorems *)
(* ================================================================== *)

(** ** Strings *)

Lemma truthy_app_l (a b : string) :
  Js.truthy a = true -> Js.truthy (a ++ b) = true.
Proof. destruct a; simpl; [discriminate | reflexivity]. Qed.

Lemma append_empty_r (s : string) : s ++ EmptyString = s.
Proof. induction s as [|c s IH]; simpl; [reflexivity | now rewrite IH]. Qed.

Lemma append_assoc (a b c : string) : (a ++ b) ++ c = a ++ b ++ c.
Proof. induction a as [|x a IH]; simpl; [reflexivity | now rewrite IH]. Qed.

(** ** The matcher *)

Section MatcherInversion.
Context {R : Type}.

Lemma orElse_inv (a b : option R) (x : R) :
  Re.orElse a b = Some x -> a = Some x \/ (a = None /\ b = Some x).
Proof. destruct a; simpl; intro H; [left | right]; auto. Qed.

Lemma lit_inv (c : ascii) (s : string) (k : string -> option R) (x : R) :
  Re.lit c s k = Some x -> exists s', s = String c s' /\ k s' = Some x.
Proof.
  destruct s as [|c' s']; simpl; [discriminate |].
  destruct (Ascii.eqb_spec c c') as [->|]; [| discriminate].
  intro H. now exists s'.
Qed.

Lemma starG_inv (p : ascii -> bool) (s : string) :
  forall (k : string -> string -> option R) (x : R),
    Re.starG p s k = Some x ->
    exists m r, s = m ++ r /\ Js.all p m = true /\ k m r = Some x.
Proof.
  induction s as [|c s IH]; intros k x H; simpl in H.
  - exists EmptyString, EmptyString. auto.
  - destruct (p c) eqn:Hc.
    + apply orElse_inv in H as [H | [_ H]].
      * apply IH in H as (m & r & -> & Hm & Hk).
        exists (String c m), r. simpl. rewrite Hc, Hm. auto.
      * exists EmptyString, (String c s). auto.
    + exists EmptyString, (String c s). auto.
Qed.

Lemma plusG_inv (p : ascii -> bool) (s : string)
      (k : string -> string -> option R) (x : R) :
  Re.plusG p s k = Some x ->
  exists m r, s = m ++ r /\ Spec.nonEmptyOf p m /\ k m r = Some x.
Proof.
  destruct s as [|c s]; simpl; [discriminate |].
  destruct (p c) eqn:Hc; [| discriminate].
  intro H. apply starG_inv in H as (m & r & -> & Hm & Hk).
  exists (String c m), r. unfold Spec.nonEmptyOf. simpl.
  rewrite Hc, Hm. auto.
Qed.

Lemma starL_inv (p : ascii -> bool) (s : string) :
  forall (k : string -> string -> option R) (x : R),
    Re.starL p s k = Some x ->
    exists m r, s = m ++ r /\ Js.all p m = true /\ k m r = Some x.
Proof.
  induction s as [|c s IH]; intros k x H; simpl in H;
    apply orElse_inv in H as [H | [_ H]].
  - exists EmptyString, EmptyString. auto.
  - discriminate.
  - exists EmptyString, (String c s). auto.
  - destruct (p c) eqn:Hc; [| discriminate].
    apply IH in H as (m & r & -> & Hm & Hk).
    exists (String c m), r. simpl. rewrite Hc, Hm. auto.
Qed.

Lemma plusL_inv (p : ascii -> bool) (s : string)
      (k : string -> string -> option R) (x : R) :
  Re.plusL p s k = Some x ->
  exists m r, s = m ++ r /\ Spec.nonEmptyOf p m /\ k m r = Some x.
Proof.
  destruct s as [|c s]; simpl; [discriminate |].
  destruct (p c) eqn:Hc; [| discriminate].
  intro H. apply starL_inv in H as (m & r & -> & Hm & Hk).
  exists (String c m), r. unfold Spec.nonEmptyOf. simpl.
  rewrite Hc, Hm. auto.
Qed.

Lemma optional_inv {A : Type}
      (body : string -> (A -> string -> option R) -> option R)
      (s : string) (k : option A -> string -> option R) (x : R) :
  Re.optional body s k = Some x ->
  body s (fun a r => k (Some a) r) = Some x \/ k None s = Some x.
Proof.
  unfold Re.optional. intro H.
  apply orElse_inv in H as [H | [_ H]]; auto.
Qed.

Lemma eos_inv (s : string) (v x : R) :
  Re.eos s v = Some x -> s = EmptyString /\ x = v.
Proof. destruct s; simpl; [| discriminate]. intro H. now inversion H. Qed.

End MatcherInversion.

(** ** The title grammar *)

Lemma scopeGroup_inv {R : Type} (s : string)
      (k : string -> string -> option R) (x : R) :
  scopeGroup s k = Some x ->
  exists sc r, s = Spec.scopeText (Some sc) ++ r
               /\ Spec.nonEmptyOf Js.notRParen sc /\ k sc r = Some x.
Proof.
  unfold scopeGroup. intro H.
  apply lit_inv in H as (s1 & -> & H).
  apply plusG_inv in H as (sc & s2 & -> & Hsc & H).
  apply lit_inv in H as (s3 & -> & H).
  exists sc, s3. simpl. rewrite append_assoc. auto.
Qed.

Lemma usernameGroup_inv {R : Type} (s : string)
      (k : string -> string -> option R) (x : R) :
  usernameGroup s k = Some x ->
  exists ws u r, s = Spec.annotationText ws (Some u) ++ r
                 /\ Js.all Js.isWhiteSpace ws = true
                 /\ Spec.annotation "@" (Some u) /\ k u r = Some x.
Proof.
  unfold usernameGroup. intro H.
  apply starG_inv in H as (ws & s1 & -> & Hws & H).
  apply lit_inv in H as (s2 & -> & H).
  apply lit_inv in H as (s3 & -> & H).
  apply plusG_inv in H as (u & s4 & -> & Hu & H).
  apply lit_inv in H as (s5 & -> & H).
  exists ws, (String "@" u), s5. simpl.
  repeat split; auto.
  - rewrite !append_assoc. simpl. now rewrite append_assoc.
  - now exists u.
Qed.

Lemma prGroup_inv {R : Type} (s : string)
      (k : string -> string -> option R) (x : R) :
  prGroup s k = Some x ->
  exists ws p r, s = Spec.annotationText ws (Some p) ++ r
                 /\ Js.all Js.isWhiteSpace ws = true
                 /\ Spec.annotation "#" (Some p) /\ k p r = Some x.
Proof.
  unfold prGroup. intro H.
  apply plusG_inv in H as (ws & s1 & -> & [_ Hws] & H).
  apply lit_inv in H as (s2 & -> & H).
  apply lit_inv in H as (s3 & -> & H).
  apply plusG_inv in H as (p & s4 & -> & Hp & H).
  apply lit_inv in H as (s5 & -> & H).
  exists ws, (String "#" p), s5. simpl.
  repeat split; auto.
  - rewrite !append_assoc. simpl. now rewrite append_assoc.
  - now exists p.
Qed.

Lemma prTail_inv (ty : string) (sc : option string) (msg : string)
      (us : option string) (s : string) (m : TitleMatch) :
  Re.optional prGroup s
    (fun pr s => Re.eos s (mkTitleMatch ty sc msg us pr)) = Some m ->
  exists wsP pr,
    s = Spec.annotationText wsP pr
    /\ Js.all Js.isWhiteSpace wsP = true
    /\ Spec.annotation "#" pr
    /\ m = mkTitleMatch ty sc msg us pr.
Proof.
  intro H. apply optional_inv in H as [H | H].
  - apply prGroup_inv in H as (ws & p & r & -> & Hws & Hp & H).
    apply eos_inv in H as [-> ->].
    exists ws, (Some p). rewrite append_empty_r. auto.
  - apply eos_inv in H as [-> ->].
    exists EmptyString, None. simpl. auto.
Qed.

Lemma usernameTail_inv (ty : string) (sc : option string) (msg : string)
      (s : string) (m : TitleMatch) :
  Re.optional usernameGroup s
    (fun us s =>
       Re.optional prGroup s
         (fun pr s => Re.eos s (mkTitleMatch ty sc msg us pr))) = Some m ->
  exists wsU us wsP pr,
    s = Spec.annotationText wsU us ++ Spec.annotationText wsP pr
    /\ Js.all Js.isWhiteSpace wsU = true
    /\ Js.all Js.isWhiteSpace wsP = true
    /\ Spec.annotation "@" us
    /\ Spec.annotation "#" pr
    /\ m = mkTitleMatch ty sc msg us pr.
Proof.
  intro H. apply optional_inv in H as [H | H].
  - apply usernameGroup_inv in H as (ws & u & r & -> & Hws & Hu & H).
    apply prTail_inv in H as (wsP & pr & -> & HwsP & Hpr & ->).
    exists ws, (Some u), wsP, pr. auto 10.
  - apply prTail_inv in H as (wsP & pr & -> & HwsP & Hpr & ->).
    exists EmptyString, None, wsP, pr. simpl. auto 10.
Qed.

Lemma messageTail_inv (ty : string) (sc : option string) (s : string)
      (m : TitleMatch) :
  Re.lit ":" s (fun s =>
  Re.plusG Js.isWhiteSpace s (fun _ s =>
  Re.plusL Js.isDot s (fun msg s =>
  Re.optional usernameGroup s (fun us s =>
  Re.optional prGroup s (fun pr s =>
  Re.eos s (mkTitleMatch ty sc msg us pr)))))) = Some m ->
  exists ws msg wsU us wsP pr,
    s = ":" ++ ws ++ msg ++ Spec.annotationText wsU us
        ++ Spec.annotationText wsP pr
    /\ Spec.nonEmptyOf Js.isWhiteSpace ws
    /\ Spec.nonEmptyOf Js.isDot msg
    /\ Js.all Js.isWhiteSpace wsU = true
    /\ Js.all Js.isWhiteSpace wsP = true
    /\ Spec.annotation "@" us
    /\ Spec.annotation "#" pr
    /\ m = mkTitleMatch ty sc msg us pr.
Proof.
  intro H.
  apply lit_inv in H as (s1 & -> & H).
  apply plusG_inv in H as (ws & s2 & -> & Hws & H).
  apply plusL_inv in H as (msg & s3 & -> & Hmsg & H).
  apply usernameTail_inv in H
    as (wsU & us & wsP & pr & -> & HwsU & HwsP & Hus & Hpr & ->).
  exists ws, msg, wsU, us, wsP, pr. simpl. auto 12.
Qed.

(** A successful match of the title pattern decomposes the title along
    the grammar. *)
Lemma titleMatch_grammar (title : string) (m : TitleMatch) :
  titleMatch title = Some m -> Spec.grammar title m.
Proof.
  unfold titleMatch. intro H.
  apply plusG_inv in H as (ty & s1 & -> & Hty & H).
  apply optional_inv in H as [H | H].
  - apply scopeGroup_inv in H as (sc & s2 & -> & Hsc & H).
    apply messageTail_inv in H
      as (ws & msg & wsU & us & wsP & pr & -> & Hws & Hmsg & HwsU & HwsP
          & Hus & Hpr & ->).
    exists ws, wsU, wsP. cbn [m_type m_scope m_message m_username m_pr].
    repeat split; try apply Hty; try apply Hsc; try apply Hws;
      try apply Hmsg; auto.
  - apply messageTail_inv in H
      as (ws & msg & wsU & us & wsP & pr & -> & Hws & Hmsg & HwsU & HwsP
          & Hus & Hpr & ->).
    exists ws, wsU, wsP. cbn [m_type m_scope m_message m_username m_pr].
    repeat split; try apply Hty; try apply Hws; try apply Hmsg; auto.
Qed.

(** ** The parser *)

Lemma grammar_username_truthy (title : string) (m : TitleMatch) (u : string) :
  Spec.grammar title m -> m_username m = Some u -> Js.truthy u = true.
Proof.
  intros (ws & wsU & wsP & _ & _ & _ & _ & _ & Hu & _) E.
  rewrite E in Hu. destruct Hu as (rest & -> & _). reflexivity.
Qed.

Lemma grammar_pr_truthy (title : string) (m : TitleMatch) (p : string) :
  Spec.grammar title m -> m_pr m = Some p -> Js.truthy p = true.
Proof.
  intros (ws & wsU & wsP & _ & _ & _ & _ & _ & _ & Hp & _) E.
  rewrite E in Hp. destruct Hp as (rest & -> & _). reflexivity.
Qed.

Lemma grammar_type_message (title : string) (m : TitleMatch) :
  Spec.grammar title m ->
  Js.truthy (m_type m) = true /\ Js.truthy (m_message m) = true.
Proof.
  intros (ws & wsU & wsP & _ & [Ht _] & _ & _ & [Hm _] & _). auto.
Qed.

Lemma arrayIncludes_false (x : string) (l : list string) :
  Js.arrayIncludes x l = false -> ~ In x l.
Proof.
  unfold Js.arrayIncludes. intros H Hin.
  assert (existsb (String.eqb x) l = true) as E.
  { apply existsb_exists. exists x. split; [assumption |].
    apply String.eqb_refl. }
  congruence.
Qed.

Lemma convertLine_step (line : string) (log log' : list LogItem)
      (cs cs' : list string) :
  convertLine (log, cs) line = Ok (log', cs') ->
  lineStep line log cs log' cs'.
Proof.
  unfold convertLine.
  destruct ((line =? EmptyString) || (line =? Js.cr) || (line =? Js.lf)).
  { intro H. inversion H; subst. constructor. }
  destruct (map Js.trim (Js.split logDelimiter line))
    as [|hash [|shortHash [|title rest]]] eqn:Efields; try discriminate.
  destruct (titleMatch title) as [m|] eqn:Em.
  2:{ intro H. inversion H; subst. constructor. }
  pose proof (titleMatch_grammar _ _ Em) as G.
  destruct (grammar_type_message _ _ G) as [Ht Hm].
  rewrite Ht, Hm. change (true && true) with true. cbv iota.
  remember (nth_error rest 0) as ob eqn:Eb.
  remember (nth_error rest 1) as oc eqn:Ec.
  intro H. injection H as <- <-.
  match goal with
  | |- lineStep _ _ _ (_ ++ [?r])%list _ =>
      assert (r = recordOf hash shortHash rest m) as ->
  end.
  { unfold recordOf. rewrite <- Eb. f_equal.
    - destruct (m_username m) as [u|] eqn:Eu; [| reflexivity].
      now rewrite (grammar_username_truthy _ _ _ G Eu).
    - destruct (m_pr m) as [p|] eqn:Ep; [| reflexivity].
      now rewrite (grammar_pr_truthy _ _ _ G Ep). }
  eapply line_pushed; eauto.
  destruct oc as [c|]; [| constructor].
  destruct (Js.truthy c) eqn:Tc; cbn [andb]; [| constructor].
  destruct (Js.arrayIncludes c cs) eqn:Ic; cbn [andb negb]; [constructor |].
  destruct (Js.includes "github" (Js.toLowerCase c)) eqn:Gc;
    cbn [negb]; [constructor |].
  apply committer_pushed; auto.
  - now apply arrayIncludes_false.
  - unfold Spec.nonBotCommitter. now rewrite Gc.
Qed.

Lemma lineStep_inv (all : list string) (line : string)
      (log log' : list LogItem) (cs cs' : list string) :
  In line all ->
  lineStep line log cs log' cs' ->
  parserInv all log cs -> parserInv all log' cs'.
Proof.
  intros Hin Hstep (Hlog & Hlen & Hnd & Hcs).
  destruct Hstep as [| hash shortHash title rest m cs' Ef Em Hc];
    [repeat split; assumption |].
  assert (Forall (parsedFrom all) (log ++ [recordOf hash shortHash rest m]))
    as Hlog'.
  { apply Forall_app. split; [assumption |].
    constructor; [| constructor].
    exists line, hash, shortHash, title, rest, m. auto. }
  destruct Hc as [| c Ec Tc Nc Bc].
  - repeat split; auto. rewrite length_app. simpl. lia.
  - repeat split; auto.
    + rewrite !length_app. simpl. lia.
    + apply NoDup_app_remove_l with (l := []). simpl.
      apply NoDup_rev in Hnd.
      rewrite <- (rev_involutive (cs ++ [c])).
      apply NoDup_rev. rewrite rev_app_distr. simpl.
      constructor; [| assumption].
      now rewrite <- in_rev.
    + apply Forall_app. split; [assumption |].
      constructor; [auto | constructor].
Qed.

Lemma convertLine_unmatched (acc : list LogItem * list string)
      (line : string) :
  unmatched line -> convertLine acc line = Ok acc.
Proof.
  destruct acc as [log cs].
  intros [-> | [-> | [-> | (hash & shortHash & title & rest & Ef & Em)]]];
    try reflexivity.
  unfold convertLine. rewrite Ef, Em.
  now destruct ((line =? EmptyString) || (line =? Js.cr) || (line =? Js.lf)).
Qed.

Lemma convertLines_unmatched (lines : list string) :
  Forall unmatched lines ->
  forall acc, convertLines lines acc = Ok acc.
Proof.
  induction 1 as [|line lines Hline _ IH]; intro acc; [reflexivity |].
  cbn [convertLines]. rewrite (convertLine_unmatched acc line Hline).
  cbn [bind]. apply IH.
Qed.

Lemma convertLines_inv (all : list string) (lines : list string) :
  forall (log log' : list LogItem) (cs cs' : list string),
    incl lines all ->
    convertLines lines (log, cs) = Ok (log', cs') ->
    parserInv all log cs -> parserInv all log' cs'.
Proof.
  induction lines as [|line lines IH]; intros log log' cs cs' Hincl H Hinv.
  - simpl in H. inversion H; subst. assumption.
  - change (convertLines (line :: lines) (log, cs))
      with (bind (convertLine (log, cs) line)
                 (fun acc' => convertLines lines acc')) in H.
    destruct (convertLine (log, cs) line) as [[log1 cs1]|e] eqn:E;
      cbn [bind] in H; [| discriminate].
    apply convertLine_step in E.
    apply (IH log1 log' cs1 cs').
    + intros x Hx. apply Hincl. now right.
    + assumption.
    + eapply lineStep_inv; eauto. apply Hincl. now left.
Qed.

Lemma convertStringToLog_inv (lines : list string) (log : list LogItem)
      (cs : list string) :
  convertStringToLog lines = Ok (log, cs) -> parserInv lines log cs.
Proof.
  unfold convertStringToLog. intro H.
  eapply convertLines_inv; eauto.
  - apply incl_refl.
  - repeat split; auto; constructor.
Qed.

Lemma parsedFrom_wellFormed (lines : list string) (r : LogItem) :
  parsedFrom lines r -> wellFormed r.
Proof.
  intros (line & hash & shortHash & title & rest & m & _ & _ & Em & ->).
  apply titleMatch_grammar in Em
    as (ws & wsU & wsP & _ & Ht & Hs & _ & [Hm _] & _).
  unfold wellFormed, recordOf. cbn.
  repeat split; try apply Ht; auto.
  destruct (m_scope m); [apply Hs | exact I].
Qed.

Lemma parsed_all_wellFormed (lines : list string) (log : list LogItem)
      (cs : list string) :
  convertStringToLog lines = Ok (log, cs) -> Forall wellFormed log.
Proof.
  intro H. apply convertStringToLog_inv in H as [H _].
  eapply Forall_impl; [| exact H].
  intros r. apply parsedFrom_wellFormed.
Qed.

(** ** First-writer-wins deduplication *)

Section KeepFirst.
Context {A : Type}.
Variable key : A -> string.

Lemma keepFirstFrom_incl (l : list A) :
  forall pre x, In x (Spec.keepFirstFrom (Spec.sameKey key) pre l) -> In x l.
Proof.
  induction l as [|y l IH]; intros pre x H; simpl in H; [assumption |].
  destruct (existsb (fun t => (Spec.sameKey key) t y) pre).
  - right. eapply IH; eauto.
  - destruct H as [-> | H]; [now left | right; eapply IH; eauto].
Qed.

(** Among the kept elements, a key is carried by at most one element,
    the first of the scanned list that has it. *)
Lemma filter_keepFirstFrom (k : string) (l : list A) :
  forall pre,
    filter (fun t => key t =? k) (Spec.keepFirstFrom (Spec.sameKey key) pre l)
    = if existsb (fun t => key t =? k) pre then []
      else match find (fun t => key t =? k) l with
           | Some y => [y]
           | None => []
           end.
Proof.
  induction l as [|x l IH]; intro pre.
  - simpl. now destruct (existsb _ pre).
  - specialize (IH (pre ++ [x])%list).
    rewrite existsb_app in IH. cbn [existsb] in IH.
    rewrite orb_false_r in IH.
    cbn [Spec.keepFirstFrom find].
    destruct (key x =? k) eqn:Ek.
    + assert (existsb (fun t => (Spec.sameKey key) t x) pre
              = existsb (fun t => key t =? k) pre) as ->.
      { apply String.eqb_eq in Ek. unfold Spec.sameKey. now rewrite Ek. }
      rewrite orb_true_r in IH.
      destruct (existsb (fun t => key t =? k) pre); [exact IH |].
      cbn [filter]. now rewrite Ek, IH.
    + rewrite orb_false_r in IH.
      destruct (existsb (fun t => (Spec.sameKey key) t x) pre); [exact IH |].
      cbn [filter]. now rewrite Ek.
Qed.

Lemma filter_keepFirst (l : list A) (x : A) :
  In x l ->
  exists y, find (fun t => key t =? key x) l = Some y
            /\ filter (fun t => key t =? key x) (Spec.keepFirst (Spec.sameKey key) l)
               = [y].
Proof.
  intro Hin. unfold Spec.keepFirst.
  rewrite filter_keepFirstFrom. simpl.
  destruct (find (fun t => key t =? key x) l) as [y|] eqn:F.
  - now exists y.
  - exfalso. eapply find_none in F; eauto.
    now rewrite String.eqb_refl in F.
Qed.

End KeepFirst.

Lemma keepFirstFrom_ext {A : Type} (same1 same2 : A -> A -> bool)
      (l : list A) :
  forall pre,
    (forall t x, In t (pre ++ l) -> In x (pre ++ l) ->
                 same1 t x = same2 t x) ->
    Spec.keepFirstFrom same1 pre l = Spec.keepFirstFrom same2 pre l.
Proof.
  induction l as [|x l IH]; intros pre H; simpl; [reflexivity |].
  assert (existsb (fun t => same1 t x) pre
          = existsb (fun t => same2 t x) pre) as ->.
  { clear IH. induction pre as [|p pre IHp]; simpl; [reflexivity |].
    rewrite H by (simpl; auto using in_or_app, in_eq).
    f_equal. apply IHp. intros t y Ht Hy. apply H; now right. }
  rewrite (IH (pre ++ [x])%list).
  - reflexivity.
  - intros t y Ht Hy. rewrite <- app_assoc in Ht, Hy. now apply H.
Qed.

(** ** The indexed filter of [buildFooter] *)

Lemma sameFull_ok (t x : LogItem) :
  hasHash t -> hasHash x -> sameFull t x = Ok (Spec.sameFullHash t x).
Proof.
  unfold hasHash, sameFull, firstFull, Spec.sameFullHash, Spec.sameKey,
    Spec.fullHash.
  destruct (hashes t); [congruence |].
  destruct (hashes x); [congruence |]. reflexivity.
Qed.

Lemma sameFullHash_refl (x : LogItem) : Spec.sameFullHash x x = true.
Proof. apply String.eqb_refl. Qed.

Lemma findIndexFrom_first (x : LogItem) (post : list LogItem) :
  hasHash x ->
  forall (pre : list LogItem) (i : Z),
    Forall hasHash pre ->
    exists j,
      findIndexFrom (fun t => sameFull t x) (pre ++ x :: post) i = Ok j
      /\ if existsb (fun t => Spec.sameFullHash t x) pre
         then (j < i + Z.of_nat (List.length pre))%Z
         else j = (i + Z.of_nat (List.length pre))%Z.
Proof.
  intros Hx pre. induction pre as [|p pre IH]; intros i Hpre.
  - simpl. rewrite (sameFull_ok x x Hx Hx), sameFullHash_refl. simpl.
    exists i. split; [reflexivity | lia].
  - inversion Hpre as [|? ? Hp Hpre']; subst.
    cbn [app findIndexFrom existsb]. rewrite (sameFull_ok p x Hp Hx).
    cbn [bind].
    destruct (Spec.sameFullHash p x); cbn [orb].
    + exists i. split; [reflexivity |].
      cbn [List.length]. lia.
    + destruct (IH (i + 1)%Z Hpre') as (j & Hj & Hcmp).
      exists j. split; [assumption |].
      cbn [List.length].
      destruct (existsb (fun t => Spec.sameFullHash t x) pre); lia.
Qed.

Lemma filterFrom_keepFirst (self : list LogItem) :
  Forall hasHash self ->
  forall (l pre : list LogItem),
    self = (pre ++ l)%list ->
    filterFrom
      (fun item index =>
         i <- findIndex (fun t => sameFull t item) self ;;
         Ok (index =? i)%Z)
      l (Z.of_nat (List.length pre))
    = Ok (Spec.keepFirstFrom Spec.sameFullHash pre l).
Proof.
  intros Hself l. induction l as [|x l IH]; intros pre E.
  - reflexivity.
  - assert (Forall hasHash pre /\ hasHash x) as [Hpre Hx].
    { rewrite E in Hself. apply Forall_app in Hself as [Hp Hl].
      inversion Hl; subst. auto. }
    cbn [filterFrom Spec.keepFirstFrom]. unfold findIndex at 1.
    destruct (findIndexFrom_first x l Hx pre 0%Z Hpre) as (j & Hj & Hcmp).
    rewrite E at 1. rewrite Hj. cbn [bind].
    assert (Z.of_nat (List.length pre) + 1
            = Z.of_nat (List.length (pre ++ [x])%list))%Z as ->.
    { rewrite length_app. simpl. lia. }
    rewrite (IH (pre ++ [x])%list) by (now rewrite <- app_assoc).
    cbn [bind].
    destruct (existsb (fun t => Spec.sameFullHash t x) pre).
    + destruct (Z.eqb_spec (Z.of_nat (List.length pre)) j); [lia |].
      reflexivity.
    + destruct (Z.eqb_spec (Z.of_nat (List.length pre)) j); [| lia].
      reflexivity.
Qed.

(** On records that all have a hash, the indexed filter is the
    first-writer-wins scan by full hash, and does not throw. *)
Lemma uniqueOtherLogs_keepFirst (self : list LogItem) :
  Forall hasHash self ->
  uniqueOtherLogs self = Ok (Spec.keepFirst Spec.sameFullHash self).
Proof.
  intro H. unfold uniqueOtherLogs, filterIndexed, Spec.keepFirst.
  now apply (filterFrom_keepFirst self H self []).
Qed.

(** ** The footer concatenation *)

Lemma allOtherLogs_concatenated (log : list LogItem) :
  allOtherLogs log = Spec.concatenated log.
Proof.
  unfold allOtherLogs, Spec.concatenated, Spec.footerOrder.
  cbn [flat_map]. now rewrite app_nil_r.
Qed.

Lemma in_allOtherLogs (log : list LogItem) (r : LogItem) :
  In r (allOtherLogs log) <-> In r log /\ Spec.footerEligible r = true.
Proof.
  rewrite allOtherLogs_concatenated.
  unfold Spec.concatenated, Spec.footerEligible.
  rewrite in_flat_map, existsb_exists. split.
  - intros (cat & Hcat & Hin). apply filter_In in Hin as [Hin Hr].
    split; [assumption | now exists cat].
  - intros [Hin (cat & Hcat & Hr)]. exists cat. split; [assumption |].
    now apply filter_In.
Qed.

Lemma allOtherLogs_incl (log : list LogItem) (P : LogItem -> Prop) :
  Forall P log -> Forall P (allOtherLogs log).
Proof.
  intro H. apply Forall_forall. intros r Hr.
  apply in_allOtherLogs in Hr as [Hr _].
  now apply (proj1 (Forall_forall P log) H).
Qed.

Lemma wellFormed_hasHash (r : LogItem) : wellFormed r -> hasHash r.
Proof.
  intros [H _]. unfold hasHash. destruct (hashes r); [discriminate |].
  discriminate.
Qed.

(** ** Rendering *)

Lemma wellFormed_scopeOk (r : LogItem) : wellFormed r -> scopeOk r.
Proof. intros (_ & _ & _ & H). exact H. Qed.

Lemma concat_empty_cons (x : string) (xs : list string) :
  String.concat EmptyString (x :: xs) = x ++ String.concat EmptyString xs.
Proof.
  destruct xs as [|y xs]; simpl; [now rewrite append_empty_r | reflexivity].
Qed.

Lemma optionalGroup_length (l : list string) :
  (if (0 <? List.length l)%nat then Spec.group l else EmptyString)
  = Spec.optionalGroup l.
Proof. now destruct l. Qed.

Lemma prefix_mark (c : ascii) (s : string) :
  prefix "#" (String c s) = ("#" =? c)%char.
Proof.
  cbn [prefix]. destruct (ascii_dec "#" c) as [<- | N].
  - destruct s; reflexivity.
  - symmetry. now apply Ascii.eqb_neq.
Qed.

Section RenderLemmas.
Variables owner repo : string.

(** [pr.replace("#", "")] takes the mark out of the reference. *)
Lemma replace_mark (pr : string) :
  Js.replace "#" EmptyString pr = Spec.number pr.
Proof.
  induction pr as [|c pr IH]; [reflexivity |].
  cbn [Js.replace Spec.number]. rewrite prefix_mark.
  destruct (c =? "#")%char eqn:E.
  - rewrite Ascii.eqb_sym, E. reflexivity.
  - rewrite Ascii.eqb_sym, E. now rewrite IH.
Qed.

(** [getPrLink] gives the link [[#N](.../pull/N)]. *)
Lemma getPrLink_form (pr : string) :
  getPrLink owner repo pr = Spec.prLink owner repo pr.
Proof.
  unfold getPrLink, Spec.prLink, Spec.repository. cbv zeta.
  rewrite replace_mark. cbn [append]. now rewrite !append_assoc.
Qed.

(** [getCommitLink] gives the link [[shorthash](.../commit/fullhash)]. *)
Lemma getCommitLink_form (h : CommitHash) :
  getCommitLink owner repo (short h) (full h) = Spec.commitLink owner repo h.
Proof.
  unfold getCommitLink, Spec.commitLink, Spec.repository.
  cbn [append]. now rewrite !append_assoc.
Qed.

Lemma getPrLinks_form (prs : list string) :
  map (getPrLink owner repo) prs = map (Spec.prLink owner repo) prs.
Proof. apply map_ext. exact getPrLink_form. Qed.

Lemma getCommitLinks_form (hs : list CommitHash) :
  map (fun h => getCommitLink owner repo (short h) (full h)) hs
  = map (Spec.commitLink owner repo) hs.
Proof. apply map_ext. exact getCommitLink_form. Qed.

Lemma buildItem_line (ret : string) (item : LogItem) (merged : bool) :
  scopeOk item ->
  buildItem owner repo ret item merged
  = ret ++ Spec.line owner repo merged item.
Proof.
  unfold scopeOk, buildItem, Spec.line, Spec.prefixOf. intro Hs.
  rewrite <- getPrLinks_form, <- getCommitLinks_form.
  fold (Spec.group (usernames item)).
  fold (Spec.group (map (getPrLink owner repo) (prs item))).
  fold (Spec.group
          (map (fun h => getCommitLink owner repo (short h) (full h))
               (hashes item))).
  rewrite (optionalGroup_length (usernames item)).
  replace (List.length (prs item))
    with (List.length (map (getPrLink owner repo) (prs item)))
    by apply length_map.
  rewrite (optionalGroup_length (map (getPrLink owner repo) (prs item))).
  destruct (scope item) as [s|]; [rewrite Hs |]; destruct merged;
    cbn [append]; rewrite ?append_assoc; reflexivity.
Qed.

Lemma buildItemsFrom_lines (merged : bool) (items : list LogItem) :
  Forall scopeOk items ->
  forall ret,
    buildItemsFrom owner repo ret items merged
    = ret ++ Spec.lines owner repo merged items.
Proof.
  induction 1 as [|item items Hitem _ IH]; intro ret.
  - simpl. now rewrite append_empty_r.
  - cbn [buildItemsFrom]. rewrite IH, (buildItem_line _ _ _ Hitem).
    unfold Spec.lines. cbn [map]. rewrite concat_empty_cons.
    now rewrite append_assoc.
Qed.

Lemma buildItems_lines (merged : bool) (items : list LogItem) :
  Forall scopeOk items ->
  buildItems owner repo items merged = Spec.lines owner repo merged items.
Proof.
  intro H. unfold buildItems. now rewrite buildItemsFrom_lines.
Qed.

Lemma lines_app (merged : bool) (l1 l2 : list LogItem) :
  Spec.lines owner repo merged (l1 ++ l2)
  = Spec.lines owner repo merged l1 ++ Spec.lines owner repo merged l2.
Proof.
  unfold Spec.lines. induction l1 as [|x l1 IH]; [reflexivity |].
  cbn [app map]. rewrite !concat_empty_cons, IH.
  now rewrite append_assoc.
Qed.

(** A record of a rendered list contributes its line to the text. *)
Lemma lines_in (merged : bool) (items : list LogItem) (r : LogItem) :
  In r items ->
  exists before after,
    Spec.lines owner repo merged items
    = before ++ Spec.line owner repo merged r ++ after.
Proof.
  intro H. apply in_split in H as (l1 & l2 & ->).
  exists (Spec.lines owner repo merged l1),
         (Spec.lines owner repo merged l2).
  rewrite lines_app. f_equal.
  unfold Spec.lines. cbn [map]. now rewrite concat_empty_cons.
Qed.

Lemma sectionItems_incl (ty : TitleKey) (log : list LogItem)
      (P : LogItem -> Prop) :
  Forall P log -> Forall P (sectionItems ty log).
Proof.
  intro H. apply Forall_forall. intros r Hr.
  apply filter_In in Hr as [Hr _].
  now apply (proj1 (Forall_forall P log) H).
Qed.

Lemma buildSection_lines (ty : TitleKey) (log : list LogItem) :
  Forall scopeOk log ->
  buildSection owner repo ty log
  = match sectionItems ty log with
    | [] => EmptyString
    | _ :: _ => "### " ++ titles ty ++ Js.lf ++ Js.lf
                ++ Spec.lines owner repo false (sectionItems ty log)
    end.
Proof.
  intro H. unfold buildSection.
  rewrite (buildItems_lines false (sectionItems ty log))
    by now apply sectionItems_incl.
  destruct (sectionItems ty log); cbn [List.length Nat.eqb];
    [reflexivity |].
  now rewrite !append_assoc.
Qed.

Lemma keepFirst_forall (P : LogItem -> Prop) (l : list LogItem) :
  Forall P l -> Forall P (Spec.keepFirst Spec.sameFullHash l).
Proof.
  intro H. apply Forall_forall. intros r Hr.
  apply (keepFirstFrom_incl Spec.fullHash) in Hr.
  now apply (proj1 (Forall_forall P l) H).
Qed.

Lemma buildFooter_lines (log : list LogItem) :
  Forall wellFormed log ->
  buildFooter owner repo log
  = Ok match Spec.keepFirst Spec.sameFullHash (allOtherLogs log) with
       | [] => EmptyString
       | u => nerdHeading ++ Spec.lines owner repo true u
       end.
Proof.
  intro H. unfold buildFooter.
  rewrite uniqueOtherLogs_keepFirst.
  2:{ apply allOtherLogs_incl.
      eapply Forall_impl; [| exact H]. apply wellFormed_hasHash. }
  cbn [bind].
  rewrite buildItems_lines.
  2:{ apply keepFirst_forall, allOtherLogs_incl.
      eapply Forall_impl; [| exact H]. apply wellFormed_scopeOk. }
  now destruct (Spec.keepFirst Spec.sameFullHash (allOtherLogs log)).
Qed.

End RenderLemmas.

(** ** One hash pair per record *)

Lemma wellFormed_single (r : LogItem) :
  wellFormed r -> exists h, hashes r = [h].
Proof.
  intros [H _]. destruct (hashes r) as [|h [|h' l]]; try discriminate.
  now exists h.
Qed.

Lemma sameFullHashes_single (t x : LogItem) :
  wellFormed t -> wellFormed x ->
  Spec.sameFullHash t x = Spec.sameFullHashes t x.
Proof.
  intros Ht Hx.
  destruct (wellFormed_single t Ht) as [ht Et].
  destruct (wellFormed_single x Hx) as [hx Ex].
  unfold Spec.sameFullHash, Spec.sameKey, Spec.sameFullHashes,
    Spec.fullHash, Spec.fullHashes.
  rewrite Et, Ex. cbn [map].
  destruct (list_eq_dec string_dec [full ht] [full hx]) as [E | N].
  - injection E as ->. apply String.eqb_refl.
  - destruct (String.eqb_spec (full ht) (full hx)) as [E |]; [| reflexivity].
    exfalso. apply N. now rewrite E.
Qed.

Section Claims.
Variables owner repo : string.

(** C10: every record produced by the parser has exactly one hash pair,
    so the hash-link group of its rendered line is exactly one commit
    link, and the footer's deduplication on [hashes[0].full] does not
    throw and is the first-writer-wins deduplication on all the full
    hashes of a record. *)
Theorem C10_single_hash_per_record
        (lines : list string) (log : list LogItem) (cs : list string) :
  convertStringToLog lines = Ok (log, cs) ->
  Forall (fun r => List.length (hashes r) = 1%nat) log
  /\ uniqueOtherLogs (allOtherLogs log)
     = Ok (Spec.keepFirst Spec.sameFullHashes (allOtherLogs log))
  /\ forall r merged,
       In r log ->
       exists h,
         hashes r = [h]
         /\ buildItems owner repo [r] merged
            = "- " ++ Spec.prefixOf merged r ++ message r
              ++ Spec.optionalGroup (usernames r)
              ++ Spec.optionalGroup (map (getPrLink owner repo) (prs r))
              ++ " (" ++ getCommitLink owner repo (short h) (full h) ++ ")"
              ++ Js.lf.
Proof.
  intro H. pose proof (parsed_all_wellFormed _ _ _ H) as Hwf.
  split; [| split].
  - eapply Forall_impl; [| exact Hwf]. now intros r [Hr _].
  - rewrite uniqueOtherLogs_keepFirst.
    2:{ apply allOtherLogs_incl.
        eapply Forall_impl; [| exact Hwf]. apply wellFormed_hasHash. }
    f_equal. unfold Spec.keepFirst. apply keepFirstFrom_ext.
    intros t x Ht Hx. cbn [app] in Ht, Hx.
    pose proof (allOtherLogs_incl log wellFormed Hwf) as Hall.
    rewrite Forall_forall in Hall.
    apply sameFullHashes_single; auto.
  - intros r merged Hr.
    rewrite Forall_forall in Hwf.
    destruct (wellFormed_single r (Hwf r Hr)) as [h Eh].
    exists h. split; [assumption |].
    rewrite buildItems_lines
      by (constructor; [apply wellFormed_scopeOk; auto | constructor]).
    unfold Spec.lines. cbn [map String.concat].
    unfold Spec.line, Spec.group. rewrite Eh.
    rewrite <- getPrLinks_form, <- getCommitLinks_form.
    cbn [map Js.join String.concat].
    now rewrite !append_assoc.
Qed.

(** C9: each record is rendered as one list line
    [- [**scope:** ]message[ (@user1, @user2)][ (#123, #456)] (hash-links)],
    every reference [#N] of the PR group being the link
    [[#N](https://github.com/owner/repo/pull/N)] and every hash pair of
    the hash-link group the link
    [[shorthash](https://github.com/owner/repo/commit/fullhash)]; the
    sections use the [**scope:**] prefix and the footer the merged
    [**type(scope):**] prefix. *)
Theorem C9_record_line_format
        (lines : list string) (log : list LogItem) (cs : list string) :
  convertStringToLog lines = Ok (log, cs) ->
  (forall items merged,
      incl items log ->
      buildItems owner repo items merged
      = String.concat EmptyString (map (Spec.line owner repo merged) items))
  /\ (forall ty,
         buildSection owner repo ty log
         = match sectionItems ty log with
           | [] => EmptyString
           | _ :: _ =>
               "### " ++ titles ty ++ Js.lf ++ Js.lf
               ++ Spec.lines owner repo false (sectionItems ty log)
           end)
  /\ (exists u,
         uniqueOtherLogs (allOtherLogs log) = Ok u
         /\ buildFooter owner repo log
            = Ok match u with
                 | [] => EmptyString
                 | _ :: _ => nerdHeading ++ Spec.lines owner repo true u
                 end)
  /\ (forall n,
         getPrLink owner repo ("#" ++ n)
         = "[#" ++ n ++ "](https://github.com/" ++ owner ++ "/" ++ repo
           ++ "/pull/" ++ n ++ ")")
  /\ (forall h,
         getCommitLink owner repo (short h) (full h)
         = "[" ++ short h ++ "](https://github.com/" ++ owner ++ "/"
           ++ repo ++ "/commit/" ++ full h ++ ")").
Proof.
  intro H. pose proof (parsed_all_wellFormed _ _ _ H) as Hwf.
  assert (Forall scopeOk log) as Hsc.
  { eapply Forall_impl; [| exact Hwf]. apply wellFormed_scopeOk. }
  split; [| split; [| split; [| split; [| reflexivity]]]].
  4:{ intro n. rewrite getPrLink_form. unfold Spec.prLink, Spec.repository.
      cbn [append Spec.number]. change ("#" =? "#")%char with true.
      cbv iota. now rewrite !append_assoc. }
  - intros items merged Hincl.
    apply (buildItems_lines owner repo merged items).
    apply Forall_forall. intros r Hr.
    rewrite Forall_forall in Hsc. auto.
  - intro ty. now apply buildSection_lines.
  - exists (Spec.keepFirst Spec.sameFullHash (allOtherLogs log)).
    split.
    + apply uniqueOtherLogs_keepFirst, allOtherLogs_incl.
      eapply Forall_impl; [| exact Hwf]. apply wellFormed_hasHash.
    + rewrite (buildFooter_lines owner repo log Hwf).
      now destruct (Spec.keepFirst Spec.sameFullHash (allOtherLogs log)).
Qed.

End Claims.

(** ** Searching the footer concatenation *)

Lemma find_app {A : Type} (p : A -> bool) (l1 l2 : list A) :
  find p (l1 ++ l2)
  = match find p l1 with
    | Some y => Some y
    | None => find p l2
    end.
Proof.
  induction l1 as [|x l1 IH]; simpl; [reflexivity |].
  now destruct (p x).
Qed.

Lemma find_filter_none {A : Type} (p q : A -> bool) (l : list A) :
  (forall r, In r l -> q r = true -> p r = false) ->
  find p (filter q l) = None.
Proof.
  intro H. destruct (find p (filter q l)) as [y|] eqn:F; [| reflexivity].
  apply find_some in F as [Hin Hp]. apply filter_In in Hin as [Hin Hq].
  rewrite (H y Hin Hq) in Hp. discriminate.
Qed.

Lemma find_filter_only {A : Type} (p q : A -> bool) (l : list A) (d : A) :
  (forall r, In r l -> q r = true -> p r = true -> r = d) ->
  In d l -> q d = true -> p d = true ->
  find p (filter q l) = Some d.
Proof.
  intros H Hin Hq Hp.
  destruct (find p (filter q l)) as [y|] eqn:F.
  - apply find_some in F as [Hy Hpy]. apply filter_In in Hy as [Hy Hqy].
    now rewrite (H y Hy Hqy Hpy).
  - eapply find_none in F; [| apply filter_In; split; eassumption].
    congruence.
Qed.

Lemma isMarked_type (ty : string) (r : LogItem) :
  isMarked ty r = true -> type r = ty.
Proof.
  unfold isMarked. intro H. apply andb_true_iff in H as [H _].
  now apply String.eqb_eq.
Qed.

Lemma isType_type (ty : string) (r : LogItem) :
  isType ty r = true -> type r = ty.
Proof. apply String.eqb_eq. Qed.

(** A hash shared by one [docs] and one [chore] record only: the first
    record of the concatenation with that hash is the [docs] one. *)
Lemma find_docs_before_chore (log : list LogItem) (d c : LogItem) :
  In d log -> type d = "docs" -> type c = "chore" ->
  (forall r, In r log -> Spec.fullHash r = Spec.fullHash d ->
             r = d \/ r = c) ->
  find (fun t => Spec.fullHash t =? Spec.fullHash d) (allOtherLogs log)
  = Some d.
Proof.
  intros Hd Td Tc Honly.
  assert (forall ty q,
             (forall r, q r = true -> type r = ty) ->
             ty <> "docs" -> ty <> "chore" ->
             find (fun t => Spec.fullHash t =? Spec.fullHash d)
                  (filter q log) = None) as Hnone.
  { intros ty q Hq N1 N2. apply find_filter_none.
    intros r Hr Hqr.
    destruct (String.eqb_spec (Spec.fullHash r) (Spec.fullHash d)) as [E|];
      [| reflexivity].
    exfalso. apply Hq in Hqr.
    destruct (Honly r Hr E) as [-> | ->]; congruence. }
  unfold allOtherLogs. rewrite !find_app.
  rewrite (Hnone "feat" (isMarked "feat"));
    [| apply isMarked_type | discriminate | discriminate].
  rewrite (Hnone "impr" (isMarked "impr"));
    [| apply isMarked_type | discriminate | discriminate].
  rewrite (Hnone "fix" (isMarked "fix"));
    [| apply isMarked_type | discriminate | discriminate].
  rewrite (Hnone "style" (isType "style"));
    [| apply isType_type | discriminate | discriminate].
  rewrite (find_filter_only _ (isType "docs") log d); auto.
  - intros r Hr Hq Hp. apply String.eqb_eq in Hp. apply isType_type in Hq.
    destruct (Honly r Hr Hp) as [-> | ->]; [reflexivity | congruence].
  - unfold isType. rewrite Td. reflexivity.
  - apply String.eqb_refl.
Qed.

Section FooterClaims.
Variables owner repo : string.

(** C2: the footer-eligible records are concatenated in the order
    feat(marked), impr(marked), fix(marked), style, docs, refactor, perf,
    ci, test, build, chore and deduplicated by full hash, the first
    writer winning: for every hash of the concatenation the footer has
    exactly one record, the first of the concatenation with that hash,
    and one line per surviving record; a hash shared by one docs and one
    chore record yields the docs record, under the docs prefix. *)
Theorem C2_footer_order_first_writer_wins
        (lines : list string) (log : list LogItem) (cs : list string) :
  convertStringToLog lines = Ok (log, cs) ->
  allOtherLogs log = Spec.concatenated log
  /\ exists u,
      uniqueOtherLogs (allOtherLogs log) = Ok u
      /\ buildFooter owner repo log
         = Ok match u with
              | [] => EmptyString
              | _ :: _ =>
                  nerdHeading
                  ++ String.concat EmptyString
                       (map (Spec.line owner repo true) u)
              end
      /\ (forall x,
             In x (allOtherLogs log) ->
             exists y,
               find (fun t => Spec.fullHash t =? Spec.fullHash x)
                    (allOtherLogs log) = Some y
               /\ filter (fun t => Spec.fullHash t =? Spec.fullHash x) u
                  = [y])
      /\ (forall d c,
             In d log -> In c log ->
             type d = "docs" -> type c = "chore" ->
             Spec.fullHash d = Spec.fullHash c ->
             (forall r, In r log -> Spec.fullHash r = Spec.fullHash d ->
                        r = d \/ r = c) ->
             filter (fun t => Spec.fullHash t =? Spec.fullHash d) u = [d]
             /\ exists rest,
                 Spec.line owner repo true d = "- **docs" ++ rest).
Proof.
  intro H. pose proof (parsed_all_wellFormed _ _ _ H) as Hwf.
  split; [apply allOtherLogs_concatenated |].
  exists (Spec.keepFirst Spec.sameFullHash (allOtherLogs log)).
  split; [| split; [| split]].
  - apply uniqueOtherLogs_keepFirst, allOtherLogs_incl.
    eapply Forall_impl; [| exact Hwf]. apply wellFormed_hasHash.
  - rewrite (buildFooter_lines owner repo log Hwf).
    now destruct (Spec.keepFirst Spec.sameFullHash (allOtherLogs log)).
  - intros x Hx. now apply (filter_keepFirst Spec.fullHash).
  - intros d c Hd Hc Td Tc Ehash Honly. split.
    + assert (In d (allOtherLogs log)) as Hdin.
      { apply in_allOtherLogs. split; [assumption |].
        apply existsb_exists. exists (isType "docs"). split.
        - do 4 right. now left.
        - unfold isType. rewrite Td. reflexivity. }
      destruct (filter_keepFirst Spec.fullHash _ _ Hdin) as (y & Fy & Ey).
      rewrite (find_docs_before_chore log d c Hd Td Tc Honly) in Fy.
      injection Fy as <-. exact Ey.
    + unfold Spec.line, Spec.prefixOf. rewrite Td.
      destruct (scope d); eexists; cbn [append]; reflexivity.
Qed.

End FooterClaims.

(** ** Classification *)

Lemma userFacing_key (ty : string) :
  Spec.userFacing ty = true -> exists k, keyName k = ty.
Proof.
  unfold Spec.userFacing. intro H.
  apply orb_true_iff in H as [H | H];
    [apply orb_true_iff in H as [H | H] |];
    apply String.eqb_eq in H; subst;
    [exists k_feat | exists k_impr | exists k_fix]; reflexivity.
Qed.

Lemma keyName_inj (k k' : TitleKey) : keyName k = keyName k' -> k = k'.
Proof. destruct k, k'; simpl; intro H; try reflexivity; discriminate. Qed.

Lemma in_sectionItems (ty : TitleKey) (log : list LogItem) (r : LogItem) :
  In r (sectionItems ty log)
  <-> In r log /\ type r = keyName ty /\ Spec.marked r = false.
Proof.
  unfold sectionItems, Spec.marked, marker. rewrite filter_In, andb_true_iff.
  rewrite String.eqb_eq, negb_true_iff. tauto.
Qed.

(** What makes a record eligible for the footer. *)
Lemma footerEligible_cases (r : LogItem) :
  Spec.footerEligible r = true ->
  (Spec.userFacing (type r) = true /\ Spec.marked r = true)
  \/ (Spec.userFacing (type r) = false /\ Spec.recognized (type r) = true).
Proof.
  unfold Spec.footerEligible. rewrite existsb_exists.
  intros (cat & Hcat & Hr). simpl in Hcat.
  repeat (destruct Hcat as [<- | Hcat];
          [ first
              [ left; unfold isMarked, marker in Hr;
                apply andb_true_iff in Hr as [Ht Hm];
                apply String.eqb_eq in Ht; rewrite Ht; split;
                [reflexivity | exact Hm]
              | right; apply isType_type in Hr; rewrite Hr; split;
                reflexivity ]
          | ]).
  contradiction.
Qed.

Lemma marked_eligible (r : LogItem) :
  Spec.userFacing (type r) = true -> Spec.marked r = true ->
  Spec.footerEligible r = true.
Proof.
  intros Hu Hm. destruct (userFacing_key _ Hu) as [k Ek].
  unfold Spec.footerEligible. apply existsb_exists.
  exists (isMarked (keyName k)). split.
  - destruct k; simpl; auto.
  - unfold isMarked, marker. rewrite <- Ek, String.eqb_refl. exact Hm.
Qed.

Section MarkerClaims.
Variables owner repo : string.

(** C1 (amended): a parsed record of a user-facing type whose body has
    the marker is in no user-facing section and is footer-eligible; the
    footer renders one line for its full hash, that of the first
    footer-eligible record with the hash, which is the record's own
    line when the record is that first one.  A parsed record of a
    user-facing type without the marker is rendered in the section of
    its type only, and not in the footer. *)
Theorem C1_marker_law_up_to_deduplication
        (lines : list string) (log : list LogItem) (cs : list string)
        (r : LogItem) :
  convertStringToLog lines = Ok (log, cs) ->
  In r log ->
  Spec.userFacing (type r) = true ->
  exists u footer,
    uniqueOtherLogs (allOtherLogs log) = Ok u
    /\ buildFooter owner repo log = Ok footer
    /\ (Spec.marked r = true ->
        (forall ty, ~ In r (sectionItems ty log))
        /\ In r (allOtherLogs log)
        /\ (exists y,
               find (fun t => Spec.fullHash t =? Spec.fullHash r)
                    (allOtherLogs log) = Some y
               /\ filter (fun t => Spec.fullHash t =? Spec.fullHash r) u
                  = [y])
        /\ (find (fun t => Spec.fullHash t =? Spec.fullHash r)
                 (allOtherLogs log) = Some r ->
            In r u
            /\ exists before after,
                footer = before ++ Spec.line owner repo true r ++ after))
    /\ (Spec.marked r = false ->
        ~ In r u
        /\ ~ In r (allOtherLogs log)
        /\ exists ty,
            keyName ty = type r
            /\ In r (sectionItems ty log)
            /\ (forall ty', In r (sectionItems ty' log) -> ty' = ty)
            /\ exists before after,
                buildSection owner repo ty log
                = before ++ Spec.line owner repo false r ++ after).
Proof.
  intros H Hr Hu. pose proof (parsed_all_wellFormed _ _ _ H) as Hwf.
  assert (Forall scopeOk log) as Hsc.
  { eapply Forall_impl; [| exact Hwf]. apply wellFormed_scopeOk. }
  set (u := Spec.keepFirst Spec.sameFullHash (allOtherLogs log)).
  exists u, match u with
            | [] => EmptyString
            | _ :: _ => nerdHeading ++ Spec.lines owner repo true u
            end.
  split; [| split; [| split]].
  - apply uniqueOtherLogs_keepFirst, allOtherLogs_incl.
    eapply Forall_impl; [| exact Hwf]. apply wellFormed_hasHash.
  - rewrite (buildFooter_lines owner repo log Hwf). fold u.
    now destruct u.
  - intro Hm.
    assert (In r (allOtherLogs log)) as Hall.
    { apply in_allOtherLogs. split; [assumption |].
      now apply marked_eligible. }
    split; [| split; [assumption | split]].
    + intros ty Hin. apply in_sectionItems in Hin as (_ & _ & Hn).
      congruence.
    + now apply (filter_keepFirst Spec.fullHash).
    + intro Hfirst.
      destruct (filter_keepFirst Spec.fullHash _ _ Hall) as (y & Fy & Ey).
      rewrite Hfirst in Fy. injection Fy as <-.
      change (filter (fun t => Spec.fullHash t =? Spec.fullHash r) u = [r])
        in Ey.
      assert (In r u) as Hru.
      { assert (In r (filter (fun t => Spec.fullHash t =? Spec.fullHash r)
                             u)) as Hf
            by (rewrite Ey; now left).
        now apply filter_In in Hf as [Hf _]. }
      split; [assumption |].
      destruct (lines_in owner repo true u r Hru) as (b & a & E).
      destruct u as [|x u']; [contradiction |].
      exists (nerdHeading ++ b), a. rewrite E. now rewrite append_assoc.
  - intro Hm.
    assert (~ In r (allOtherLogs log)) as Hnot.
    { intro Hin. apply in_allOtherLogs in Hin as [_ He].
      apply footerEligible_cases in He as [[_ He] | [He _]]; congruence. }
    split; [| split; [assumption |]].
    + intro Hin. apply Hnot.
      now apply (keepFirstFrom_incl Spec.fullHash) in Hin.
    + destruct (userFacing_key _ Hu) as [ty Ety].
      assert (In r (sectionItems ty log)) as Hin
          by (apply in_sectionItems; auto).
      exists ty. split; [assumption | split; [assumption | split]].
      * intros ty' Hin'. apply in_sectionItems in Hin' as (_ & E & _).
        apply keyName_inj. congruence.
      * rewrite (buildSection_lines owner repo ty log Hsc).
        destruct (lines_in owner repo false _ r Hin) as (b & a & E).
        destruct (sectionItems ty log) as [|x l]; [contradiction |].
        exists ("### " ++ titles ty ++ Js.lf ++ Js.lf ++ b), a.
        rewrite E. now rewrite !append_assoc.
Qed.

(** C5: a record whose type is outside the recognized vocabulary is in
    no user-facing section and not in the footer concatenation; the
    sections and the footer are those of the log without such records. *)
Theorem C5_unrecognized_type_never_rendered (log : list LogItem) :
  (forall r,
      In r log -> Spec.recognized (type r) = false ->
      (forall ty, ~ In r (sectionItems ty log))
      /\ ~ In r (allOtherLogs log))
  /\ (forall ty,
         buildSection owner repo ty log
         = buildSection owner repo ty
             (filter (fun r => Spec.recognized (type r)) log))
  /\ buildFooter owner repo log
     = buildFooter owner repo
         (filter (fun r => Spec.recognized (type r)) log).
Proof.
  assert (forall q : LogItem -> bool,
             (forall r, q r = true -> Spec.recognized (type r) = true) ->
             filter q (filter (fun r => Spec.recognized (type r)) log)
             = filter q log) as Hff.
  { intros q Hq. induction log as [|x l IH]; [reflexivity |].
    cbn [filter]. destruct (q x) eqn:Qx.
    - rewrite (Hq x Qx). cbn [filter]. now rewrite Qx, IH.
    - destruct (Spec.recognized (type x)); cbn [filter];
        [rewrite Qx |]; exact IH. }
  assert (forall ty r, isMarked ty r = true ->
                       Spec.recognized ty = true ->
                       Spec.recognized (type r) = true) as Hmk.
  { intros ty r Hq Hty. apply isMarked_type in Hq. now rewrite Hq. }
  assert (forall ty r, isType ty r = true ->
                       Spec.recognized ty = true ->
                       Spec.recognized (type r) = true) as Htp.
  { intros ty r Hq Hty. apply isType_type in Hq. now rewrite Hq. }
  split; [| split].
  - intros r Hr Hrec. split.
    + intros ty Hin. apply in_sectionItems in Hin as (_ & E & _).
      rewrite E in Hrec. destruct ty; discriminate.
    + intro Hin. apply in_allOtherLogs in Hin as [_ He].
      apply footerEligible_cases in He as [[He _] | [_ He]];
        [| congruence].
      destruct (userFacing_key _ He) as [k Ek].
      rewrite <- Ek in Hrec. destruct k; discriminate.
  - intro ty. unfold buildSection, sectionItems. rewrite Hff; [reflexivity |].
    intros r Hq. apply andb_true_iff in Hq as [Hq _].
    apply String.eqb_eq in Hq. rewrite Hq. now destruct ty.
  - unfold buildFooter, allOtherLogs.
    rewrite !Hff; try reflexivity;
      intros r Hq;
      first [ eapply Hmk; [exact Hq | reflexivity]
            | eapply Htp; [exact Hq | reflexivity] ].
Qed.

End MarkerClaims.

(** ** Assembly *)

Lemma prefix_append (a b : string) : prefix a (a ++ b) = true.
Proof.
  induction a as [|c a IH]; simpl; [now destruct b |].
  destruct (ascii_dec c c); [assumption | contradiction].
Qed.

Section Assembly.
Variables owner repo : string.

Lemma buildSection_shape (ty : TitleKey) (log : list LogItem) :
  buildSection owner repo ty log = EmptyString
  \/ exists rest, buildSection owner repo ty log = String "#" rest.
Proof.
  unfold buildSection.
  destruct (List.length (sectionItems ty log) =? 0)%nat;
    [now left | right]. eexists. cbn [append]. reflexivity.
Qed.

Lemma buildSections_shape (log : list LogItem) :
  Js.join Js.lf (buildSections owner repo log) = EmptyString
  \/ exists rest,
      Js.join Js.lf (buildSections owner repo log) = String "#" rest.
Proof.
  unfold buildSections, titleKeys. cbn [fold_left].
  destruct (buildSection_shape k_feat log) as [-> | [r1 ->]];
    destruct (buildSection_shape k_impr log) as [-> | [r2 ->]];
    destruct (buildSection_shape k_fix log) as [-> | [r3 ->]];
    cbn; first [now left | right; eexists; reflexivity].
Qed.

(** The sections text ends with the last section. *)
Lemma buildSections_fix_last (log : list LogItem) :
  Js.truthy (buildSection owner repo k_fix log) = true ->
  exists before,
    Js.join Js.lf (buildSections owner repo log)
    = before ++ buildSection owner repo k_fix log.
Proof.
  intro H. unfold buildSections, titleKeys. cbn [fold_left]. rewrite H.
  destruct (Js.truthy (buildSection owner repo k_feat log));
    destruct (Js.truthy (buildSection owner repo k_impr log));
    cbn [app Js.join String.concat].
  - exists (buildSection owner repo k_feat log ++ Js.lf
            ++ buildSection owner repo k_impr log ++ Js.lf).
    now rewrite !append_assoc.
  - exists (buildSection owner repo k_feat log ++ Js.lf).
    now rewrite !append_assoc.
  - exists (buildSection owner repo k_impr log ++ Js.lf).
    now rewrite !append_assoc.
  - now exists EmptyString.
Qed.

(** The text that [buildChangelog] assembles from the parsed records. *)
Lemma buildChangelog_parsed (blob : string) (log : list LogItem)
      (cs : list string) :
  convertStringToLog (Js.split lineDelimiter blob) = Ok (log, cs) ->
  buildChangelog owner repo blob
  = Ok (((if (1 <? contributorCount log)%nat || (1 <? List.length cs)%nat
          then header ++ Js.lf ++ Js.lf else EmptyString)
         ++ Js.join Js.lf (buildSections owner repo log))
        ++ match Spec.keepFirst Spec.sameFullHash (allOtherLogs log) with
           | [] => EmptyString
           | u => Js.lf ++ nerdHeading ++ Spec.lines owner repo true u
           end).
Proof.
  intro H. pose proof (parsed_all_wellFormed _ _ _ H) as Hwf.
  unfold buildChangelog. rewrite H. cbn [bind].
  rewrite (buildFooter_lines owner repo log Hwf). cbn [bind].
  destruct (Spec.keepFirst Spec.sameFullHash (allOtherLogs log)).
  - cbn [Js.truthy]. now rewrite append_empty_r.
  - rewrite truthy_app_l by reflexivity. reflexivity.
Qed.

End Assembly.

Lemma concat_map_filter {A B : Type} (f : B -> bool) (g : A -> list B)
      (l : list A) :
  List.concat (map (fun x => filter f (g x)) l)
  = filter f (List.concat (map g l)).
Proof.
  induction l as [|x l IH]; [reflexivity |].
  cbn [map List.concat]. now rewrite filter_app, IH.
Qed.

(** ** What the entries contribute, and the entries without a title *)

Lemma convertLine_records (log : list LogItem) (cs : list string)
      (line : string) (log' : list LogItem) (cs' : list string) :
  convertLine (log, cs) line = Ok (log', cs') ->
  log' = (log ++ lineRecords line)%list.
Proof.
  unfold convertLine, lineRecords.
  destruct ((line =? EmptyString) || (line =? Js.cr) || (line =? Js.lf)).
  { intro H. injection H as <- <-. now rewrite app_nil_r. }
  destruct (map Js.trim (Js.split logDelimiter line))
    as [|hash [|shortHash [|title rest]]]; try discriminate.
  destruct (titleMatch title) as [m|] eqn:Em.
  2:{ intro H. injection H as <- <-. now rewrite app_nil_r. }
  pose proof (titleMatch_grammar _ _ Em) as G.
  destruct (grammar_type_message _ _ G) as [Ht Hm].
  rewrite Ht, Hm. change (true && true) with true. cbv iota.
  remember (nth_error rest 0) as ob eqn:Eb.
  remember (nth_error rest 1) as oc eqn:Ec.
  intro H. injection H as <- _. f_equal. f_equal.
  unfold recordOf. rewrite <- Eb. f_equal.
  - destruct (m_username m) as [u|] eqn:Eu; [| reflexivity].
    now rewrite (grammar_username_truthy _ _ _ G Eu).
  - destruct (m_pr m) as [p|] eqn:Ep; [| reflexivity].
    now rewrite (grammar_pr_truthy _ _ _ G Ep).
Qed.

Lemma convertLines_records (lines : list string) :
  forall log cs log' cs',
    convertLines lines (log, cs) = Ok (log', cs') ->
    log' = (log ++ flat_map lineRecords lines)%list.
Proof.
  induction lines as [|line lines IH]; intros log cs log' cs' H.
  - cbn in H. injection H as <- <-. now rewrite app_nil_r.
  - change (convertLines (line :: lines) (log, cs))
      with (bind (convertLine (log, cs) line)
                 (fun acc' => convertLines lines acc')) in H.
    destruct (convertLine (log, cs) line) as [[log1 cs1]|e] eqn:E;
      cbn [bind] in H; [| discriminate].
    apply convertLine_records in E as ->.
    apply IH in H as ->. cbn [flat_map]. now rewrite app_assoc.
Qed.

Lemma convertLine_titleless (acc : list LogItem * list string)
      (line : string) :
  titleless line = true -> convertLine acc line = Throw TypeError.
Proof.
  unfold titleless, convertLine. destruct acc as [log cs]. intro H.
  apply andb_true_iff in H as [Hg Hl]. apply negb_true_iff in Hg.
  rewrite Hg. apply Nat.ltb_lt in Hl.
  destruct (Js.split logDelimiter line) as [|f1 [|f2 [|f3 rest]]];
    cbn [map]; try reflexivity.
  cbn [List.length] in Hl. lia.
Qed.

Lemma convertLine_returns (acc : list LogItem * list string) (line : string) :
  titleless line = false -> exists acc', convertLine acc line = Ok acc'.
Proof.
  unfold titleless, convertLine. destruct acc as [log cs]. intro H.
  destruct ((line =? EmptyString) || (line =? Js.cr) || (line =? Js.lf));
    [now eexists |].
  cbn [negb andb] in H. apply Nat.ltb_ge in H.
  rewrite <- (length_map Js.trim) in H.
  destruct (map Js.trim (Js.split logDelimiter line))
    as [|hash [|shortHash [|title rest]]];
    try (cbn [List.length] in H; lia).
  destruct (titleMatch title); now eexists.
Qed.

Lemma convertLines_outcome (lines : list string) :
  forall acc,
    if existsb titleless lines
    then convertLines lines acc = Throw TypeError
    else exists res, convertLines lines acc = Ok res.
Proof.
  induction lines as [|line lines IH]; intro acc; [now eexists |].
  cbn [existsb convertLines].
  destruct (titleless line) eqn:T; cbn [orb].
  - now rewrite convertLine_titleless.
  - destruct (convertLine_returns acc line T) as [acc' ->]. cbn [bind].
    apply IH.
Qed.

Section AssemblyClaims.
Variables owner repo : string.

(** The header test of [buildChangelog] on the parsed records. *)
Lemma header_threshold (blob : string) (log : list LogItem)
      (cs : list string) :
  convertStringToLog (Js.split lineDelimiter blob) = Ok (log, cs) ->
  exists out,
    buildChangelog owner repo blob = Ok out
    /\ (prefix header out = true
        <-> (2 <= contributorCount log)%nat \/ (2 <= List.length cs)%nat).
Proof.
  intro H. eexists. split; [apply (buildChangelog_parsed _ _ _ _ _ H) |].
  destruct ((1 <? contributorCount log)%nat
            || (1 <? List.length cs)%nat) eqn:C.
  - split; intros _.
    + apply orb_true_iff in C as [C | C]; apply Nat.ltb_lt in C; lia.
    + rewrite !append_assoc. apply prefix_append.
  - apply orb_false_iff in C as [C1 C2].
    apply Nat.ltb_ge in C1, C2.
    split; [| lia]. intro P. exfalso. revert P.
    cbn [append].
    destruct (buildSections_shape owner repo log) as [-> | [r ->]].
    + cbn [append].
      destruct (Spec.keepFirst Spec.sameFullHash (allOtherLogs log));
        discriminate.
    + discriminate.
Qed.

(** A blob on which the header is emitted although the distinct non-bot
    usernames and the committers are fewer than two each. *)
Lemma header_against_threshold (blob : string) (log : list LogItem)
      (cs : list string) :
  convertStringToLog (Js.split lineDelimiter blob) = Ok (log, cs) ->
  (2 <= contributorCount log)%nat ->
  (List.length (Spec.distinctContributors log) < 2)%nat ->
  (List.length cs < 2)%nat ->
  exists out,
    buildChangelog owner repo blob = Ok out
    /\ prefix header out = true
    /\ ~ Stated.thresholdLaw log cs out.
Proof.
  intros H Hcount Hdistinct Hcs.
  destruct (header_threshold _ _ _ H) as (out & Eo & Hiff).
  assert (prefix header out = true) as P by (apply Hiff; now left).
  exists out. split; [exact Eo | split; [exact P |]].
  intros [T _]. specialize (T P). lia.
Qed.

(** C3: [buildChangelog] emits the header when the username annotations
    of the parsed records are two or more, each annotation counted and
    compared with [dependabot] as it stands, its [@] included, or the
    committers are two or more.  Hence one username annotated on two
    commits of one committer emits the header, and so does [@dependabot]
    beside one contributor, although either log has one distinct non-bot
    username and one committer. *)
Theorem C3_header_counts_every_annotation :
  (forall blob log cs,
      convertStringToLog (Js.split lineDelimiter blob) = Ok (log, cs) ->
      exists out,
        buildChangelog owner repo blob = Ok out
        /\ (prefix header out = true
            <-> (2 <= contributorCount log)%nat
                \/ (2 <= List.length cs)%nat))
  /\ (convertStringToLog (Js.split lineDelimiter Sample.sameUserTwice)
      = Ok ([Sample.aliceFeat; Sample.aliceFix], ["me"])
      /\ Spec.distinctContributors [Sample.aliceFeat; Sample.aliceFix]
         = ["@alice"]
      /\ exists out,
          buildChangelog owner repo Sample.sameUserTwice = Ok out
          /\ prefix header out = true
          /\ ~ Stated.thresholdLaw [Sample.aliceFeat; Sample.aliceFix]
                                   ["me"] out)
  /\ (convertStringToLog (Js.split lineDelimiter Examples.botAndAlice)
      = Ok ([Examples.botRecord; Examples.aliceCrash], ["me"])
      /\ Spec.distinctContributors [Examples.botRecord; Examples.aliceCrash]
         = ["@alice"]
      /\ exists out,
          buildChangelog owner repo Examples.botAndAlice = Ok out
          /\ prefix header out = true
          /\ ~ Stated.thresholdLaw [Examples.botRecord; Examples.aliceCrash]
                                   ["me"] out).
Proof.
  split; [exact header_threshold | split].
  - assert (convertStringToLog (Js.split lineDelimiter Sample.sameUserTwice)
            = Ok ([Sample.aliceFeat; Sample.aliceFix], ["me"])) as H
        by (vm_compute; reflexivity).
    split; [exact H | split; [vm_compute; reflexivity |]].
    apply (header_against_threshold _ _ _ H); vm_compute; lia.
  - assert (convertStringToLog (Js.split lineDelimiter Examples.botAndAlice)
            = Ok ([Examples.botRecord; Examples.aliceCrash], ["me"])) as H
        by (vm_compute; reflexivity).
    split; [exact H | split; [vm_compute; reflexivity |]].
    apply (header_against_threshold _ _ _ H); vm_compute; lia.
Qed.

(** Without a record and without an entry that lacks its title, the text
    is empty. *)
Lemma no_record_empty_text (blob : string) :
  flat_map lineRecords (Js.split lineDelimiter blob) = [] ->
  existsb titleless (Js.split lineDelimiter blob) = false ->
  buildChangelog owner repo blob = Ok EmptyString.
Proof.
  intros Hnone Hok.
  pose proof (convertLines_outcome (Js.split lineDelimiter blob) ([], []))
    as H.
  rewrite Hok in H. destruct H as [[log cs] H].
  fold (convertStringToLog (Js.split lineDelimiter blob)) in H.
  pose proof (convertLines_records _ _ _ _ _ H) as E.
  cbn [app] in E. rewrite Hnone in E. subst log.
  rewrite (buildChangelog_parsed _ _ _ _ _ H).
  apply convertStringToLog_inv in H as (_ & Hlen & _).
  destruct cs as [|c cs]; [reflexivity | simpl in Hlen; lia].
Qed.

(** An entry that lacks its title makes [buildChangelog] throw. *)
Lemma titleless_entry_throws (blob : string) :
  existsb titleless (Js.split lineDelimiter blob) = true ->
  buildChangelog owner repo blob = Throw TypeError.
Proof.
  intro Hbad.
  pose proof (convertLines_outcome (Js.split lineDelimiter blob) ([], []))
    as H.
  rewrite Hbad in H.
  fold (convertStringToLog (Js.split lineDelimiter blob)) in H.
  unfold buildChangelog. now rewrite H.
Qed.

(** C6: on a blob of which no entry parses into a record,
    [buildChangelog] returns the empty string when every entry is skipped
    by the guard or has its title, the empty blob included; an entry that
    passes the guard with fewer than three fields makes it throw a
    [TypeError] instead, as the blank entry and the blank inside the body
    of a free-form commit do. *)
Theorem C6_no_record_empty_or_error :
  buildChangelog owner repo EmptyString = Ok EmptyString
  /\ (forall blob,
         flat_map lineRecords (Js.split lineDelimiter blob) = [] ->
         existsb titleless (Js.split lineDelimiter blob) = false ->
         buildChangelog owner repo blob = Ok EmptyString)
  /\ (forall blob,
         flat_map lineRecords (Js.split lineDelimiter blob) = [] ->
         existsb titleless (Js.split lineDelimiter blob) = true ->
         buildChangelog owner repo blob = Throw TypeError)
  /\ (flat_map lineRecords (Js.split lineDelimiter Sample.blank) = []
      /\ buildChangelog owner repo Sample.blank = Throw TypeError)
  /\ (flat_map lineRecords (Js.split lineDelimiter Examples.blankInBody)
      = []
      /\ buildChangelog owner repo Examples.blankInBody = Throw TypeError).
Proof.
  split; [reflexivity |].
  split; [exact no_record_empty_text |].
  split; [intros blob _; apply titleless_entry_throws |].
  split; (split; [vm_compute; reflexivity |]);
    apply titleless_entry_throws; vm_compute; reflexivity.
Qed.

(** C7 (amended): the user-facing sections are titled [### Features],
    [### Improvements] and [### Bug Fixes]; with at least one unmarked
    fix record the returned text holds the heading [### Bug Fixes]
    followed by the lines of the unmarked fix records. *)
Theorem C7_section_titles_bug_fixes :
  (titles k_feat = "Features" /\ titles k_impr = "Improvements"
   /\ titles k_fix = "Bug Fixes")
  /\ forall blob log cs,
      convertStringToLog (Js.split lineDelimiter blob) = Ok (log, cs) ->
      (exists r, In r log /\ type r = "fix" /\ Spec.marked r = false) ->
      exists out before after,
        buildChangelog owner repo blob = Ok out
        /\ out = before ++ "### Bug Fixes" ++ Js.lf ++ Js.lf
                 ++ Spec.lines owner repo false (sectionItems k_fix log)
                 ++ after.
Proof.
  split; [repeat split |].
  intros blob log cs H (r & Hr & Tr & Mr).
  pose proof (parsed_all_wellFormed _ _ _ H) as Hwf.
  assert (Forall scopeOk log) as Hsc.
  { eapply Forall_impl; [| exact Hwf]. apply wellFormed_scopeOk. }
  assert (In r (sectionItems k_fix log)) as Hin
      by (apply in_sectionItems; auto).
  pose proof (buildSection_lines owner repo k_fix log Hsc) as Efix.
  destruct (sectionItems k_fix log) as [|x items] eqn:Eitems;
    [contradiction |].
  destruct (buildSections_fix_last owner repo log) as [before Eb].
  { rewrite Efix. reflexivity. }
  eexists.
  exists ((if (1 <? contributorCount log)%nat || (1 <? List.length cs)%nat
           then header ++ Js.lf ++ Js.lf else EmptyString) ++ before).
  eexists.
  split; [apply (buildChangelog_parsed _ _ _ _ _ H) |].
  rewrite Eb, Efix. cbn [titles].
  rewrite !append_assoc. reflexivity.
Qed.

End AssemblyClaims.

(** ** The parser's filter *)

(** C4 (amended): every record produced by the parser stems from an entry
    whose title follows the title grammar, its type being the non-empty
    word token of that title; an entry whose title does not follow the
    grammar leaves the accumulators unchanged.  The type is not compared
    with the vocabulary of change types. *)
Theorem C4_records_follow_title_grammar :
  (forall lines log cs,
      convertStringToLog lines = Ok (log, cs) ->
      Forall (fun r =>
                exists line hash shortHash title rest m,
                  In line lines
                  /\ map Js.trim (Js.split logDelimiter line)
                     = hash :: shortHash :: title :: rest
                  /\ Spec.grammar title m
                  /\ r = recordOf hash shortHash rest m
                  /\ type r = m_type m
                  /\ Spec.nonEmptyOf Js.isWordChar (type r))
             log)
  /\ (forall acc line hash shortHash title rest,
         map Js.trim (Js.split logDelimiter line)
         = hash :: shortHash :: title :: rest ->
         (forall m, ~ Spec.grammar title m) ->
         convertLine acc line = Ok acc).
Proof.
  split.
  - intros lines log cs H.
    apply convertStringToLog_inv in H as [H _].
    eapply Forall_impl; [| exact H].
    intros r (line & hash & shortHash & title & rest & m & Hin & Ef & Em & ->).
    pose proof (titleMatch_grammar _ _ Em) as G.
    exists line, hash, shortHash, title, rest, m.
    repeat split; auto;
      destruct G as (ws & wsU & wsP & _ & Ht & _); apply Ht.
  - intros [log cs] line hash shortHash title rest Ef Hno.
    unfold convertLine. rewrite Ef.
    destruct ((line =? EmptyString) || (line =? Js.cr) || (line =? Js.lf));
      [reflexivity |].
    destruct (titleMatch title) as [m|] eqn:Em; [| reflexivity].
    exfalso. apply (Hno m). now apply titleMatch_grammar.
Qed.

(** C8: the parser does not trim an entry before the emptiness test: only
    the entries that are exactly empty, a carriage return or a line feed
    are skipped; any other entry with fewer than three fields has no
    title, so that [title.match] throws.  A blank entry such as [" "] or
    a carriage return followed by a line feed is one of them. *)
Theorem C8_blank_entry_throws :
  convertStringToLog [EmptyString; Js.cr; Js.lf] = Ok ([], [])
  /\ (forall acc line,
         (line =? EmptyString) || (line =? Js.cr) || (line =? Js.lf) = false ->
         (List.length (Js.split logDelimiter line) < 3)%nat ->
         convertLine acc line = Throw TypeError)
  /\ Stated.skipped Sample.blank = true
  /\ Stated.skipped Sample.crlf = true
  /\ convertStringToLog [Sample.blank] = Throw TypeError
  /\ convertStringToLog [Sample.crlf] = Throw TypeError
  /\ buildChangelog Sample.owner Sample.repo Sample.blank = Throw TypeError
  /\ buildChangelog Sample.owner Sample.repo Sample.crlf = Throw TypeError.
Proof.
  split; [vm_compute; reflexivity |].
  split; [| repeat split; vm_compute; reflexivity].
  intros [log cs] line Hguard Hlen.
  unfold convertLine. rewrite Hguard.
  destruct (Js.split logDelimiter line) as [|f1 [|f2 [|f3 rest]]];
    cbn [map]; try reflexivity.
  cbn [List.length] in Hlen. lia.
Qed.

(** ** Inputs on which the stated claims fail *)

(** C1: of two marked [feat] entries with one full hash, the second is a
    parsed, marked record of a user-facing type that the footer does not
    render. *)
Lemma C1_counterexample :
  convertStringToLog (Sample.lines Sample.twoMarked)
  = Ok ([Sample.addButton; Sample.moveButton], ["me"])
  /\ uniqueOtherLogs (allOtherLogs [Sample.addButton; Sample.moveButton])
     = Ok [Sample.addButton]
  /\ (exists out,
         buildChangelog Sample.owner Sample.repo Sample.twoMarked = Ok out
         /\ Js.includes
              (Spec.line Sample.owner Sample.repo true Sample.moveButton) out
            = false)
  /\ ~ Stated.markerLaw [Sample.addButton; Sample.moveButton]
                        [Sample.addButton].
Proof.
  split; [vm_compute; reflexivity |].
  split; [vm_compute; reflexivity |].
  split.
  - eexists. split; vm_compute; reflexivity.
  - intro H.
    destruct (H Sample.moveButton) as [Hm _].
    + right. left. reflexivity.
    + reflexivity.
    + destruct (Hm eq_refl) as [[E | []] _]. discriminate E.
Qed.

(** C4: the entry titled [foo: bar] is stored as a record of type [foo]. *)
Lemma C4_counterexample :
  convertStringToLog (Sample.lines Sample.unknownType)
  = Ok ([Sample.fooRecord], ["me"])
  /\ type Sample.fooRecord = "foo"
  /\ Spec.recognized (type Sample.fooRecord) = false
  /\ ~ Stated.vocabularyInvariant [Sample.fooRecord].
Proof.
  split; [vm_compute; reflexivity |].
  split; [reflexivity |].
  split; [reflexivity |].
  intro H. inversion H as [|r l Hr _]; subst.
  vm_compute in Hr. discriminate Hr.
Qed.

(** C7: with one unmarked [fix] entry the text starts with the heading
    [### Bug Fixes] and holds no heading [### Fixes]. *)
Lemma C7_counterexample :
  convertStringToLog (Sample.lines Sample.oneFix)
  = Ok ([Sample.fixRecord], ["me"])
  /\ titles k_fix <> Stated.sectionTitle k_fix
  /\ exists out,
      buildChangelog Sample.owner Sample.repo Sample.oneFix = Ok out
      /\ prefix ("### Bug Fixes" ++ Js.lf) out = true
      /\ ~ Stated.fixHeading [Sample.fixRecord] out.
Proof.
  split; [vm_compute; reflexivity |].
  split; [discriminate |].
  exists ("### Bug Fixes" ++ Js.lf ++ Js.lf
          ++ Spec.lines Sample.owner Sample.repo false [Sample.fixRecord]).
  split; [vm_compute; reflexivity |].
  split; [vm_compute; reflexivity |].
  intro H.
  assert (Js.includes ("### " ++ Stated.sectionTitle k_fix ++ Js.lf)
            ("### Bug Fixes" ++ Js.lf ++ Js.lf
             ++ Spec.lines Sample.owner Sample.repo false [Sample.fixRecord])
          = true) as C.
  { apply H. exists Sample.fixRecord. repeat split. now left. }
  vm_compute in C. discriminate C.
Qed.

(** ** The theorems at the sample blobs *)

(** The marker law at the two marked entries with one hash. *)
Lemma C1_witness :
  convertStringToLog (Sample.lines Sample.twoMarked)
  = Ok ([Sample.addButton; Sample.moveButton], ["me"])
  /\ In Sample.addButton [Sample.addButton; Sample.moveButton]
  /\ Spec.userFacing (type Sample.addButton) = true
  /\ exists u footer,
      uniqueOtherLogs
        (allOtherLogs [Sample.addButton; Sample.moveButton]) = Ok u
      /\ buildFooter Sample.owner Sample.repo
           [Sample.addButton; Sample.moveButton] = Ok footer.
Proof.
  assert (convertStringToLog (Sample.lines Sample.twoMarked)
          = Ok ([Sample.addButton; Sample.moveButton], ["me"])) as H
      by (vm_compute; reflexivity).
  assert (In Sample.addButton [Sample.addButton; Sample.moveButton]) as Hin
      by (left; reflexivity).
  assert (Spec.userFacing (type Sample.addButton) = true) as Hu
      by reflexivity.
  repeat split; try assumption.
  destruct (C1_marker_law_up_to_deduplication
              Sample.owner Sample.repo _ _ _ _ H Hin Hu)
    as (u & footer & Eu & Ef & _).
  exists u, footer. split; [exact Eu | exact Ef].
Defined.

(** The footer of the [docs] and [chore] entries with one hash. *)
Lemma C2_witness :
  convertStringToLog (Sample.lines Sample.docsAndChore)
  = Ok ([Sample.choreRecord; Sample.docsRecord], ["me"])
  /\ allOtherLogs [Sample.choreRecord; Sample.docsRecord]
     = Spec.concatenated [Sample.choreRecord; Sample.docsRecord]
  /\ exists u,
      uniqueOtherLogs (allOtherLogs [Sample.choreRecord; Sample.docsRecord])
      = Ok u
      /\ filter (fun t => Spec.fullHash t =? Spec.fullHash Sample.docsRecord)
                u
         = [Sample.docsRecord].
Proof.
  assert (convertStringToLog (Sample.lines Sample.docsAndChore)
          = Ok ([Sample.choreRecord; Sample.docsRecord], ["me"])) as H
      by (vm_compute; reflexivity).
  split; [exact H |].
  destruct (C2_footer_order_first_writer_wins
              Sample.owner Sample.repo _ _ _ H)
    as (Ec & u & Eu & _ & _ & Hdocs).
  split; [exact Ec |].
  exists u. split; [exact Eu |].
  apply (Hdocs Sample.docsRecord Sample.choreRecord).
  - right. left. reflexivity.
  - left. reflexivity.
  - reflexivity.
  - reflexivity.
  - reflexivity.
  - intros r [<- | [<- | []]] _; [right | left]; reflexivity.
Defined.

(** The header test at one username annotated twice. *)
Lemma C3_witness :
  convertStringToLog (Js.split lineDelimiter Sample.sameUserTwice)
  = Ok ([Sample.aliceFeat; Sample.aliceFix], ["me"])
  /\ exists out,
      buildChangelog Sample.owner Sample.repo Sample.sameUserTwice = Ok out
      /\ (prefix header out = true
          <-> (2 <= contributorCount [Sample.aliceFeat; Sample.aliceFix])%nat
              \/ (2 <= List.length ["me"])%nat).
Proof.
  assert (convertStringToLog (Js.split lineDelimiter Sample.sameUserTwice)
          = Ok ([Sample.aliceFeat; Sample.aliceFix], ["me"])) as H
      by (vm_compute; reflexivity).
  split; [exact H |].
  exact (proj1 (C3_header_counts_every_annotation Sample.owner Sample.repo)
               _ _ _ H).
Defined.

(** The parser's filter at a title of unknown type and at an empty title. *)
Lemma C4_witness :
  convertStringToLog (Sample.lines Sample.unknownType)
  = Ok ([Sample.fooRecord], ["me"])
  /\ Forall (fun r => Spec.nonEmptyOf Js.isWordChar (type r))
            [Sample.fooRecord]
  /\ convertLine ([], []) Sample.untitled = Ok ([], []).
Proof.
  assert (convertStringToLog (Sample.lines Sample.unknownType)
          = Ok ([Sample.fooRecord], ["me"])) as H
      by (vm_compute; reflexivity).
  destruct C4_records_follow_title_grammar as [Hrec Hdrop].
  split; [exact H | split].
  - eapply Forall_impl; [| exact (Hrec _ _ _ H)].
    intros r (line & hash & shortHash & title & rest & m & Hr). apply Hr.
  - apply (Hdrop ([], []) Sample.untitled "9999999999" "9999999"
                 EmptyString [EmptyString; "me"]).
    + vm_compute. reflexivity.
    + intros m (ws & wsU & wsP & E & [Ht _] & _).
      destruct (m_type m); discriminate.
Defined.

(** A record of type [foo] is in no section and not in the footer. *)
Lemma C5_witness :
  In Sample.fooRecord [Sample.fooRecord]
  /\ Spec.recognized (type Sample.fooRecord) = false
  /\ (forall ty, ~ In Sample.fooRecord (sectionItems ty [Sample.fooRecord]))
  /\ ~ In Sample.fooRecord (allOtherLogs [Sample.fooRecord]).
Proof.
  assert (In Sample.fooRecord [Sample.fooRecord]) as Hin
      by (left; reflexivity).
  assert (Spec.recognized (type Sample.fooRecord) = false) as Hrec
      by reflexivity.
  split; [exact Hin | split; [exact Hrec |]].
  exact (proj1 (C5_unrecognized_type_never_rendered
                  Sample.owner Sample.repo [Sample.fooRecord])
               Sample.fooRecord Hin Hrec).
Defined.

(** A blob whose only entry is free-form yields the empty string; with a
    blank inside the body of that commit the build throws. *)
Lemma C6_witness :
  flat_map lineRecords (Js.split lineDelimiter Sample.freeForm) = []
  /\ existsb titleless (Js.split lineDelimiter Sample.freeForm) = false
  /\ buildChangelog Sample.owner Sample.repo Sample.freeForm
     = Ok EmptyString
  /\ flat_map lineRecords (Js.split lineDelimiter Examples.blankInBody) = []
  /\ existsb titleless (Js.split lineDelimiter Examples.blankInBody) = true
  /\ buildChangelog Sample.owner Sample.repo Examples.blankInBody
     = Throw TypeError.
Proof.
  assert (flat_map lineRecords (Js.split lineDelimiter Sample.freeForm) = [])
    as N1 by (vm_compute; reflexivity).
  assert (existsb titleless (Js.split lineDelimiter Sample.freeForm) = false)
    as T1 by (vm_compute; reflexivity).
  assert (flat_map lineRecords
                   (Js.split lineDelimiter Examples.blankInBody) = [])
    as N2 by (vm_compute; reflexivity).
  assert (existsb titleless
                  (Js.split lineDelimiter Examples.blankInBody) = true)
    as T2 by (vm_compute; reflexivity).
  destruct (C6_no_record_empty_or_error Sample.owner Sample.repo)
    as (_ & Hempty & Hthrow & _).
  split; [exact N1 | split; [exact T1 | split]].
  - exact (Hempty Sample.freeForm N1 T1).
  - split; [exact N2 | split; [exact T2 |]].
    exact (Hthrow Examples.blankInBody N2 T2).
Defined.

(** The fix heading at one unmarked [fix] entry. *)
Lemma C7_witness :
  convertStringToLog (Js.split lineDelimiter Sample.oneFix)
  = Ok ([Sample.fixRecord], ["me"])
  /\ exists out before after,
      buildChangelog Sample.owner Sample.repo Sample.oneFix = Ok out
      /\ out = before ++ "### Bug Fixes" ++ Js.lf ++ Js.lf
               ++ Spec.lines Sample.owner Sample.repo false
                    (sectionItems k_fix [Sample.fixRecord])
               ++ after.
Proof.
  assert (convertStringToLog (Js.split lineDelimiter Sample.oneFix)
          = Ok ([Sample.fixRecord], ["me"])) as H
      by (vm_compute; reflexivity).
  split; [exact H |].
  apply (proj2 (C7_section_titles_bug_fixes Sample.owner Sample.repo)
               Sample.oneFix [Sample.fixRecord] ["me"] H).
  exists Sample.fixRecord. repeat split. left. reflexivity.
Defined.

(** The blank entry passes the guard and has no title. *)
Lemma C8_witness :
  (Sample.blank =? EmptyString) || (Sample.blank =? Js.cr)
  || (Sample.blank =? Js.lf) = false
  /\ (List.length (Js.split logDelimiter Sample.blank) < 3)%nat
  /\ convertLine ([], []) Sample.blank = Throw TypeError.
Proof.
  assert ((Sample.blank =? EmptyString) || (Sample.blank =? Js.cr)
          || (Sample.blank =? Js.lf) = false) as Hguard by reflexivity.
  assert (List.length (Js.split logDelimiter Sample.blank) < 3)%nat as Hlen
      by (vm_compute; lia).
  split; [exact Hguard | split; [exact Hlen |]].
  exact (proj1 (proj2 C8_blank_entry_throws) ([], []) Sample.blank
               Hguard Hlen).
Defined.

(** The line of the first record of the scenario, in a section and in
    the footer. *)
Lemma C9_witness :
  convertStringToLog (Sample.lines Sample.scenario)
  = Ok ([Sample.aliceRecord; Sample.bobRecord], ["me"])
  /\ buildItems Sample.owner Sample.repo [Sample.aliceRecord] false
     = String.concat EmptyString
         (map (Spec.line Sample.owner Sample.repo false)
              [Sample.aliceRecord])
  /\ Spec.line Sample.owner Sample.repo false Sample.aliceRecord
     = "- **ui:** add button (@alice) ([#10](https://github.com/iwmywn/release/pull/10)) ([7777777](https://github.com/iwmywn/release/commit/7777777777))"
       ++ Js.lf
  /\ Spec.line Sample.owner Sample.repo true Sample.aliceRecord
     = "- **feat(ui):** add button (@alice) ([#10](https://github.com/iwmywn/release/pull/10)) ([7777777](https://github.com/iwmywn/release/commit/7777777777))"
       ++ Js.lf.
Proof.
  assert (convertStringToLog (Sample.lines Sample.scenario)
          = Ok ([Sample.aliceRecord; Sample.bobRecord], ["me"])) as H
      by (vm_compute; reflexivity).
  split; [exact H | split; [| split; vm_compute; reflexivity]].
  apply (proj1 (C9_record_line_format Sample.owner Sample.repo _ _ _ H)).
  intros r [<- | []]. left. reflexivity.
Defined.

(** The records of the scenario have one hash pair each. *)
Lemma C10_witness :
  convertStringToLog (Sample.lines Sample.scenario)
  = Ok ([Sample.aliceRecord; Sample.bobRecord], ["me"])
  /\ Forall (fun r => List.length (hashes r) = 1%nat)
            [Sample.aliceRecord; Sample.bobRecord].
Proof.
  assert (convertStringToLog (Sample.lines Sample.scenario)
          = Ok ([Sample.aliceRecord; Sample.bobRecord], ["me"])) as H
      by (vm_compute; reflexivity).
  split; [exact H |].
  exact (proj1 (C10_single_hash_per_record
                  Sample.owner Sample.repo _ _ _ H)).
Defined.

(* ================================================================== *)
(** * Part III.  Further properties of the code *)
(* ================================================================== *)

(** ** Strings, prefixes and trimming *)

Lemma all_app (p : ascii -> bool) (a b : string) :
  Js.all p (a ++ b) = Js.all p a && Js.all p b.
Proof.
  induction a as [|c a IH]; simpl; [reflexivity |].
  now rewrite IH, andb_assoc.
Qed.

Lemma length_append (a b : string) :
  String.length (a ++ b) = (String.length a + String.length b)%nat.
Proof. induction a as [|c a IH]; simpl; [reflexivity | now rewrite IH]. Qed.

Lemma append_cancel_l (a b c : string) : a ++ b = a ++ c -> b = c.
Proof.
  induction a as [|x a IH]; simpl; intro H; [assumption |].
  injection H as H. auto.
Qed.

Lemma append_eq_empty (a b : string) :
  a ++ b = EmptyString -> a = EmptyString /\ b = EmptyString.
Proof. destruct a; simpl; intro H; [auto | discriminate]. Qed.

Lemma prefix_cons (c d : ascii) (a s : string) :
  prefix (String c a) (String d s) = (c =? d)%char && prefix a s.
Proof.
  simpl. destruct (ascii_dec c d) as [-> | N].
  - now rewrite Ascii.eqb_refl.
  - apply Ascii.eqb_neq in N. now rewrite N.
Qed.

Lemma prefix_true (a s : string) :
  prefix a s = true <-> exists t, s = a ++ t.
Proof.
  revert s. induction a as [|c a IH]; intro s.
  - split; [intros _; now exists s | intros _; now destruct s].
  - destruct s as [|d s].
    + split; [discriminate | intros [t H]; discriminate].
    + rewrite prefix_cons, andb_true_iff, IH. split.
      * intros [E [t ->]]. apply Ascii.eqb_eq in E as ->. now exists t.
      * intros [t H]. injection H as -> ->.
        split; [apply Ascii.eqb_refl | now exists t].
Qed.

(** A prefix of [y ++ z] lies within [y] or runs over into [z]. *)
Lemma prefix_app_split (x : string) :
  forall y z,
    prefix x (y ++ z) = true ->
    prefix x y = true
    \/ exists x2, x = y ++ x2 /\ x2 <> EmptyString /\ prefix x2 z = true.
Proof.
  induction x as [|c x IH]; intros y z H.
  - left. now destruct y.
  - destruct y as [|d y].
    + right. exists (String c x). repeat split; [discriminate | exact H].
    + cbn [append] in H. rewrite prefix_cons in H |- *.
      apply andb_true_iff in H as [E H]. rewrite E. cbn [andb].
      destruct (IH y z H) as [Hy | (x2 & -> & N & P)]; [now left |].
      right. exists x2. apply Ascii.eqb_eq in E as ->. auto.
Qed.

Lemma includes_false_prefix (sep a b : string) :
  Js.includes sep (a ++ b) = false -> Js.includes sep b = false.
Proof.
  induction a as [|c a IH]; [auto |].
  cbn [append Js.includes]. intro H.
  apply orb_false_iff in H as [_ H]. auto.
Qed.

Lemma includes_false_head (sep s : string) :
  Js.includes sep s = false -> prefix sep s = false.
Proof.
  destruct s; cbn [Js.includes]; intro H;
    now apply orb_false_iff in H as [H _].
Qed.

Lemma trimEnd_fixed (s : string) : lastNonSpace s = true -> Js.trimEnd s = s.
Proof.
  induction s as [|c s IH]; [discriminate |].
  cbn [lastNonSpace Js.trimEnd]. destruct s as [|d s].
  - intro H. cbn [Js.trimEnd Js.truthy negb].
    apply negb_true_iff in H. now rewrite H.
  - intro H. rewrite (IH H). cbn [Js.truthy negb].
    now rewrite andb_false_r.
Qed.

(** A string that neither starts nor ends with white space is trimmed. *)
Lemma trim_fixed (s : string) :
  firstNonSpace s = true -> lastNonSpace s = true -> Js.trim s = s.
Proof.
  intros F L. unfold Js.trim.
  assert (Js.trimStart s = s) as ->.
  { destruct s as [|c s]; [reflexivity |]. cbn in F |- *.
    apply negb_true_iff in F. now rewrite F. }
  now apply trimEnd_fixed.
Qed.

Lemma lastNonSpace_app (a b : string) :
  b <> EmptyString -> lastNonSpace (a ++ b) = lastNonSpace b.
Proof.
  intro N. induction a as [|c a IH]; [reflexivity |].
  cbn [append lastNonSpace]. rewrite IH.
  destruct (a ++ b) eqn:E; [| reflexivity].
  apply append_eq_empty in E as [_ E]. contradiction.
Qed.

(** ** Splitting and joining *)

Lemma splitFrom_nonempty (sep s : string) :
  forall skip cur, Js.splitFrom sep s skip cur <> [].
Proof.
  induction s as [|c s IH]; intros skip cur; cbn [Js.splitFrom];
    [discriminate |].
  destruct skip; [| apply IH].
  destruct (prefix sep (String c s)); [discriminate | apply IH].
Qed.

Lemma join_cons (sep x : string) (l : list string) :
  l <> [] -> Js.join sep (x :: l) = x ++ sep ++ Js.join sep l.
Proof. destruct l; [contradiction | reflexivity]. Qed.

Lemma prefix_drop (a s : string) :
  prefix a s = true -> s = a ++ Js.drop (String.length a) s.
Proof.
  intro H. apply prefix_true in H as [t ->]. f_equal.
  induction a as [|c a IH]; [now destruct t | exact IH].
Qed.

Lemma drop_empty (n : nat) : Js.drop n EmptyString = EmptyString.
Proof. now destruct n. Qed.

Lemma join_splitFrom (sep : string) (s : string) :
  sep <> EmptyString ->
  forall skip cur,
    Js.join sep (Js.splitFrom sep s skip cur) = cur ++ Js.drop skip s.
Proof.
  intro N. induction s as [|c s IH]; intros skip cur.
  - cbn [Js.splitFrom Js.join String.concat].
    now rewrite drop_empty, append_empty_r.
  - cbn [Js.splitFrom]. destruct skip as [|n]; [| apply IH].
    destruct (prefix sep (String c s)) eqn:P.
    + rewrite join_cons by apply splitFrom_nonempty.
      rewrite IH. cbn [append Js.drop].
      transitivity (cur ++ sep ++ Js.drop (String.length sep) (String c s)).
      * destruct sep as [|d sep]; [contradiction |].
        cbn [String.length].
        replace (S (String.length sep) - 1)%nat with (String.length sep)
          by lia.
        reflexivity.
      * f_equal. symmetry. now apply prefix_drop.
    + rewrite IH. cbn [Js.drop]. now rewrite append_assoc.
Qed.

(** Joining the pieces of a split gives the string back. *)
Lemma join_split (sep s : string) :
  sep <> EmptyString -> Js.join sep (Js.split sep s) = s.
Proof. intro N. unfold Js.split. now rewrite join_splitFrom. Qed.

Lemma split_nonempty (sep s : string) : Js.split sep s <> [].
Proof. apply splitFrom_nonempty. Qed.

(** Without an occurrence of the separator there is one piece. *)
Lemma splitFrom_no_occurrence (sep s : string) :
  Js.includes sep s = false ->
  forall cur, Js.splitFrom sep s 0 cur = [cur ++ s].
Proof.
  induction s as [|c s IH]; intros H cur.
  - cbn. now rewrite append_empty_r.
  - cbn [Js.splitFrom]. rewrite (includes_false_head _ _ H).
    rewrite IH by (apply (includes_false_prefix sep (String c EmptyString)), H).
    now rewrite append_assoc.
Qed.

Lemma splitFrom_skip (sep x s cur : string) :
  Js.splitFrom sep (x ++ s) (String.length x) cur = Js.splitFrom sep s 0 cur.
Proof. induction x as [|c x IH]; [reflexivity | exact IH]. Qed.

(** An occurrence of a borderless separator in [a ++ sep ++ rest] that
    starts inside [a] lies inside [a]. *)
Lemma noBorderFrom_suffix (sep : string) (x1 x2 : string) :
  noBorderFrom sep (x1 ++ x2) = true ->
  x2 <> EmptyString -> prefix x2 sep = false.
Proof.
  induction x1 as [|c x1 IH]; cbn [append].
  - destruct x2 as [|d x2]; [contradiction |].
    cbn [noBorderFrom]. intros H _.
    apply andb_true_iff in H as [H _]. now apply negb_true_iff in H.
  - cbn [noBorderFrom]. intros H N.
    apply andb_true_iff in H as [_ H]. auto.
Qed.

Lemma borderless_no_early (sep a rest : string) :
  borderless sep = true ->
  a <> EmptyString ->
  prefix sep a = false ->
  prefix sep (a ++ sep ++ rest) = false.
Proof.
  intros B N P.
  destruct (prefix sep (a ++ sep ++ rest)) eqn:E; [| reflexivity].
  exfalso.
  apply prefix_app_split in E as [E | (x2 & Ex & Nx & Px)]; [congruence |].
  apply prefix_app_split in Px as [Px | (x3 & Ex3 & _ & _)].
  - destruct sep as [|d sep]; [discriminate |].
    destruct a as [|c a]; [contradiction |].
    cbn [borderless] in B. cbn [append] in Ex. injection Ex as -> ->.
    now rewrite (noBorderFrom_suffix _ a x2 B Nx) in Px.
  - apply (f_equal String.length) in Ex, Ex3.
    rewrite length_append in Ex, Ex3.
    destruct a; [contradiction |]. cbn [String.length] in Ex. lia.
Qed.

Lemma split_field (sep : string) (a : string) :
  borderless sep = true ->
  forall rest cur,
    Js.includes sep a = false ->
    Js.splitFrom sep (a ++ sep ++ rest) 0 cur
    = (cur ++ a) :: Js.splitFrom sep rest 0 EmptyString.
Proof.
  intro B. induction a as [|c a IH]; intros rest cur H.
  - cbn [append]. rewrite append_empty_r.
    destruct sep as [|d sep]; [discriminate |].
    cbn [append Js.splitFrom].
    assert (prefix (String d sep) (String d (sep ++ rest)) = true) as ->
        by (apply (prefix_append (String d sep) rest)).
    cbn [String.length].
    replace (S (String.length sep) - 1)%nat with (String.length sep) by lia.
    now rewrite splitFrom_skip.
  - cbn [append Js.splitFrom].
    assert (prefix sep (String c (a ++ sep ++ rest)) = false) as ->.
    { apply (borderless_no_early sep (String c a) rest B);
        [discriminate | now apply includes_false_head]. }
    rewrite IH by (apply (includes_false_prefix sep (String c EmptyString)), H).
    now rewrite append_assoc.
Qed.

(** Fields free of a borderless separator survive joining and splitting. *)
Lemma split_join (sep : string) (fields : list string) :
  borderless sep = true ->
  fields <> [] ->
  Forall (fun f => Js.includes sep f = false) fields ->
  Js.split sep (Js.join sep fields) = fields.
Proof.
  intros B N H. unfold Js.split.
  induction H as [|f fields Hf H IH]; [contradiction |].
  destruct fields as [|g fields].
  - cbn [Js.join String.concat]. now rewrite splitFrom_no_occurrence.
  - rewrite join_cons by discriminate.
    rewrite split_field by assumption. cbn [append].
    f_equal. apply IH. discriminate.
Qed.

(** ** Where the matcher succeeds and where it fails *)

Section MatcherCompleteness.
Context {R : Type}.

Lemma lit_cons (c : ascii) (s : string) (k : string -> option R) :
  Re.lit c (String c s) k = k s.
Proof. cbn [Re.lit]. now rewrite Ascii.eqb_refl. Qed.

Lemma lit_other (c d : ascii) (s : string) (k : string -> option R) :
  c <> d -> Re.lit c (String d s) k = None.
Proof. intro N. cbn [Re.lit]. apply Ascii.eqb_neq in N. now rewrite N. Qed.

(** The greedy run first offers the whole run to the continuation. *)
Lemma starG_longest (p : ascii -> bool) (m r : string) :
  forall (k : string -> string -> option R) (x : R),
    Js.all p m = true -> stopsAt p r = true ->
    k m r = Some x -> Re.starG p (m ++ r) k = Some x.
Proof.
  induction m as [|c m IH]; intros k x Hm Hr Hk.
  - cbn [append]. destruct r as [|d r]; [exact Hk |].
    cbn [Re.starG]. cbn in Hr. apply negb_true_iff in Hr. now rewrite Hr.
  - cbn in Hm. apply andb_true_iff in Hm as [Hc Hm].
    cbn [append Re.starG]. rewrite Hc.
    now rewrite (IH (fun m r => k (String c m) r) x Hm Hr Hk).
Qed.

Lemma plusG_longest (p : ascii -> bool) (m r : string)
      (k : string -> string -> option R) (x : R) :
  Spec.nonEmptyOf p m -> stopsAt p r = true ->
  k m r = Some x -> Re.plusG p (m ++ r) k = Some x.
Proof.
  intros [Hn Hm] Hr Hk. destruct m as [|c m]; [discriminate |].
  cbn in Hm. apply andb_true_iff in Hm as [Hc Hm].
  cbn [append Re.plusG]. rewrite Hc.
  now apply (starG_longest p m r (fun m r => k (String c m) r)).
Qed.

(** The greedy run fails when the continuation fails after every run. *)
Lemma starG_none (p : ascii -> bool) (s : string) :
  forall k : string -> string -> option R,
    (forall m r, s = m ++ r -> Js.all p m = true -> k m r = None) ->
    Re.starG p s k = None.
Proof.
  induction s as [|c s IH]; intros k H.
  - apply (H EmptyString EmptyString); reflexivity.
  - cbn [Re.starG].
    assert (k EmptyString (String c s) = None) as E
        by (apply H; reflexivity).
    destruct (p c) eqn:Hc; [| exact E].
    rewrite (IH (fun m r => k (String c m) r)); [exact E |].
    intros m r -> Hm. apply H; [reflexivity |]. cbn. now rewrite Hc.
Qed.

Lemma plusG_none (p : ascii -> bool) (s : string)
      (k : string -> string -> option R) :
  (forall m r, s = m ++ r -> Spec.nonEmptyOf p m -> k m r = None) ->
  Re.plusG p s k = None.
Proof.
  intro H. destruct s as [|c s]; [reflexivity |].
  cbn [Re.plusG]. destruct (p c) eqn:Hc; [| reflexivity].
  apply starG_none. intros m r -> Hm. apply H; [reflexivity |].
  split; [reflexivity |]. cbn. now rewrite Hc.
Qed.

(** The lazy run stops at the first run the continuation accepts. *)
Lemma starL_first (p : ascii -> bool) (m r : string) :
  forall (k : string -> string -> option R) (x : R),
    Js.all p m = true ->
    (forall m1 m2, m = m1 ++ m2 -> m2 <> EmptyString ->
                   k m1 (m2 ++ r) = None) ->
    k m r = Some x -> Re.starL p (m ++ r) k = Some x.
Proof.
  induction m as [|c m IH]; intros k x Hm Hnone Hk.
  - cbn [append]. destruct r; cbn [Re.starL]; now rewrite Hk.
  - cbn in Hm. apply andb_true_iff in Hm as [Hc Hm].
    cbn [append Re.starL].
    assert (k EmptyString (String c (m ++ r)) = None) as ->
        by (apply (Hnone EmptyString (String c m)); [reflexivity | discriminate]).
    cbn [Re.orElse]. rewrite Hc.
    apply (IH (fun m r => k (String c m) r) x Hm); [| exact Hk].
    intros m1 m2 -> N. now apply (Hnone (String c m1) m2).
Qed.

Lemma plusL_first (p : ascii -> bool) (m r : string)
      (k : string -> string -> option R) (x : R) :
  Spec.nonEmptyOf p m ->
  (forall m1 m2, m = m1 ++ m2 -> m1 <> EmptyString -> m2 <> EmptyString ->
                 k m1 (m2 ++ r) = None) ->
  k m r = Some x -> Re.plusL p (m ++ r) k = Some x.
Proof.
  intros [Hn Hm] Hnone Hk. destruct m as [|c m]; [discriminate |].
  cbn in Hm. apply andb_true_iff in Hm as [Hc Hm].
  cbn [append Re.plusL]. rewrite Hc.
  apply (starL_first p m r (fun m r => k (String c m) r) x Hm);
    [| exact Hk].
  intros m1 m2 -> N. apply (Hnone (String c m1) m2);
    [reflexivity | discriminate | exact N].
Qed.

Lemma starL_none (p : ascii -> bool) (s : string) :
  forall k : string -> string -> option R,
    (forall m r, s = m ++ r -> Js.all p m = true -> k m r = None) ->
    Re.starL p s k = None.
Proof.
  induction s as [|c s IH]; intros k H.
  - cbn [Re.starL]. now rewrite (H EmptyString EmptyString).
  - cbn [Re.starL].
    rewrite (H EmptyString (String c s)) by reflexivity. cbn [Re.orElse].
    destruct (p c) eqn:Hc; [| reflexivity].
    apply IH. intros m r -> Hm. apply H; [reflexivity |].
    cbn. now rewrite Hc.
Qed.

Lemma plusL_none (p : ascii -> bool) (s : string)
      (k : string -> string -> option R) :
  (forall m r, s = m ++ r -> Spec.nonEmptyOf p m -> k m r = None) ->
  Re.plusL p s k = None.
Proof.
  intro H. destruct s as [|c s]; [reflexivity |].
  cbn [Re.plusL]. destruct (p c) eqn:Hc; [| reflexivity].
  apply starL_none. intros m r -> Hm. apply H; [reflexivity |].
  split; [reflexivity |]. cbn. now rewrite Hc.
Qed.

Lemma optional_first {A : Type}
      (body : string -> (A -> string -> option R) -> option R)
      (s : string) (k : option A -> string -> option R) (x : R) :
  body s (fun a r => k (Some a) r) = Some x ->
  Re.optional body s k = Some x.
Proof. unfold Re.optional. now intros ->. Qed.

Lemma optional_skip {A : Type}
      (body : string -> (A -> string -> option R) -> option R)
      (s : string) (k : option A -> string -> option R) :
  body s (fun a r => k (Some a) r) = None ->
  Re.optional body s k = k None s.
Proof. unfold Re.optional. now intros ->. Qed.

(** Where no parenthesis opens, neither annotation group matches. *)
Lemma whitespace_then_paren (s : string) :
  opensParen s = false ->
  forall k : string -> string -> option R,
    Re.starG Js.isWhiteSpace s (fun m r => Re.lit "(" r (k m)) = None.
Proof.
  unfold opensParen. induction s as [|c s IH]; intros H k; [reflexivity |].
  cbn [Re.starG]. cbn [Js.trimStart] in H.
  destruct (Js.isWhiteSpace c) eqn:Hc.
  - rewrite (IH H (fun m => k (String c m))). cbn [Re.orElse].
    apply lit_other. intros <-. discriminate Hc.
  - apply lit_other. intros <-. now rewrite Ascii.eqb_refl in H.
Qed.

Lemma usernameGroup_none (s : string) (k : string -> string -> option R) :
  opensParen s = false -> usernameGroup s k = None.
Proof.
  intro H. unfold usernameGroup.
  apply (whitespace_then_paren s H
           (fun _ s => Re.lit "@" s (fun s =>
            Re.plusG Js.notRParen s (fun u s =>
            Re.lit ")" s (fun s => k (String "@" u) s))))).
Qed.

Lemma prGroup_none (s : string) (k : string -> string -> option R) :
  opensParen s = false -> prGroup s k = None.
Proof.
  intro H. unfold prGroup, Re.plusG. destruct s as [|c s]; [reflexivity |].
  destruct (Js.isWhiteSpace c) eqn:Hc; [| reflexivity].
  apply (whitespace_then_paren s) with
    (k := fun (_ : string) s => Re.lit "#" s (fun s =>
          Re.plusG Js.notRParen s (fun p s =>
          Re.lit ")" s (fun s => k (String "#" p) s)))).
  unfold opensParen in *. cbn [Js.trimStart] in H. now rewrite Hc in H.
Qed.

End MatcherCompleteness.

(** ** Reading a canonical title back *)

Lemma opensParen_suffix (m2 tail : string) :
  Js.all noParen m2 = true -> lastNonSpace m2 = true ->
  opensParen (m2 ++ tail) = false.
Proof.
  unfold opensParen. induction m2 as [|c m2 IH]; [discriminate |].
  cbn [Js.all append Js.trimStart lastNonSpace]. intros Hp Hl.
  apply andb_true_iff in Hp as [Hc Hp].
  destruct (Js.isWhiteSpace c) eqn:Hw.
  - destruct m2 as [|d m2]; [discriminate | now apply IH].
  - unfold noParen in Hc. now apply negb_true_iff in Hc.
Qed.

Lemma stopsAt_first (s tail : string) :
  firstNonSpace s = true -> stopsAt Js.isWhiteSpace (s ++ tail) = true.
Proof. destruct s; [discriminate | auto]. Qed.

Lemma annotations_fail (v : option string -> option string -> TitleMatch)
      (s : string) :
  opensParen s = false -> s <> EmptyString ->
  Re.optional usernameGroup s (fun us s =>
  Re.optional prGroup s (fun pr s => Re.eos s (v us pr))) = None.
Proof.
  intros H N. unfold Re.optional.
  rewrite usernameGroup_none, prGroup_none by assumption.
  destruct s; [contradiction | reflexivity].
Qed.

Lemma prTail_complete (ty : string) (sc : option string) (msg : string)
      (us pr : option string) :
  Spec.annotation "#" pr ->
  Re.optional prGroup (Spec.annotationText " " pr)
    (fun pr s => Re.eos s (mkTitleMatch ty sc msg us pr))
  = Some (mkTitleMatch ty sc msg us pr).
Proof.
  destruct pr as [a|]; [| reflexivity].
  intros (rest & -> & Hrest). apply optional_first.
  unfold prGroup. cbn [Spec.annotationText append].
  apply (plusG_longest Js.isWhiteSpace " ");
    [split; reflexivity | reflexivity |].
  rewrite !lit_cons.
  apply (plusG_longest Js.notRParen rest ")"); [exact Hrest | reflexivity |].
  now rewrite lit_cons.
Qed.

Lemma usernameTail_complete (ty : string) (sc : option string) (msg : string)
      (us pr : option string) :
  Spec.annotation "@" us -> Spec.annotation "#" pr ->
  Re.optional usernameGroup
    (Spec.annotationText " " us ++ Spec.annotationText " " pr)
    (fun us s =>
       Re.optional prGroup s
         (fun pr s => Re.eos s (mkTitleMatch ty sc msg us pr)))
  = Some (mkTitleMatch ty sc msg us pr).
Proof.
  intros Hus Hpr. destruct us as [a|].
  - destruct Hus as (rest & -> & Hrest). apply optional_first.
    unfold usernameGroup. cbn [Spec.annotationText append].
    apply (starG_longest Js.isWhiteSpace " "); [reflexivity | reflexivity |].
    rewrite !lit_cons. rewrite append_assoc.
    apply (plusG_longest Js.notRParen rest); [exact Hrest | reflexivity |].
    cbn [append]. rewrite lit_cons.
    now apply prTail_complete.
  - cbn [Spec.annotationText append].
    rewrite optional_skip; [now apply prTail_complete |].
    destruct pr as [a|]; [| reflexivity].
    destruct Hpr as (rest & -> & _). reflexivity.
Qed.

Lemma messageTail_complete (m : TitleMatch) :
  canonical m ->
  Re.lit ":" (": " ++ m_message m
              ++ Spec.annotationText " " (m_username m)
              ++ Spec.annotationText " " (m_pr m)) (fun s =>
  Re.plusG Js.isWhiteSpace s (fun _ s =>
  Re.plusL Js.isDot s (fun msg s =>
  Re.optional usernameGroup s (fun us s =>
  Re.optional prGroup s (fun pr s =>
  Re.eos s (mkTitleMatch (m_type m) (m_scope m) msg us pr))))))
  = Some m.
Proof.
  destruct m as [ty sc msg us pr].
  intros (_ & _ & Hmsg & Hparen & Hfirst & Hlast & Hus & Hpr).
  cbn [m_type m_scope m_message m_username m_pr] in *.
  cbn [append]. rewrite lit_cons.
  apply (plusG_longest Js.isWhiteSpace " ");
    [split; reflexivity | now apply stopsAt_first |].
  apply plusL_first; [exact Hmsg | | now apply usernameTail_complete].
  intros m1 m2 -> N1 N2.
  apply annotations_fail.
  - rewrite all_app in Hparen. apply andb_true_iff in Hparen as [_ Hp].
    apply opensParen_suffix; [exact Hp |].
    now rewrite lastNonSpace_app in Hlast.
  - intro E. apply append_eq_empty in E as [E _]. contradiction.
Qed.

(** ** The parser, entry by entry *)

Lemma titleMatch_canonical (m : TitleMatch) :
  canonical m -> titleMatch (canonicalTitle m) = Some m.
Proof.
  intro Hc. pose proof Hc as (Hty & Hsc & _).
  pose proof (messageTail_complete m Hc) as Htail.
  destruct m as [ty sc msg us pr].
  cbn [m_type m_scope m_message m_username m_pr] in *.
  unfold canonicalTitle, titleMatch.
  cbn [m_type m_scope m_message m_username m_pr].
  apply plusG_longest; [exact Hty | destruct sc; reflexivity |].
  destruct sc as [s|].
  - apply optional_first. unfold scopeGroup.
    cbn [Spec.scopeText append]. rewrite lit_cons, append_assoc.
    apply plusG_longest; [exact Hsc | reflexivity |].
    cbn [append]. rewrite lit_cons. exact Htail.
  - rewrite optional_skip by reflexivity. exact Htail.
Qed.

(** X1: a title written out from canonical parts, [type(scope): message
    (@users) (#prs)] with a message that has no opening parenthesis and no
    white space at its ends, is matched by the title pattern with exactly
    these parts as captures. *)
Theorem X1_canonical_title_reads_back (m : TitleMatch) :
  canonical m -> titleMatch (canonicalTitle m) = Some m.
Proof. apply titleMatch_canonical. Qed.

(** X2: the records are those of the entries, entry by entry and in the
    order of the entries: an entry contributes at most one record, which
    does not depend on the other entries. *)
Theorem X2_records_in_entry_order
        (lines : list string) (log : list LogItem) (cs : list string) :
  convertStringToLog lines = Ok (log, cs) ->
  log = flat_map lineRecords lines
  /\ (List.length log <= List.length lines)%nat
  /\ forall line, (List.length (lineRecords line) <= 1)%nat.
Proof.
  intro H. apply convertLines_records in H. cbn [app] in H.
  assert (forall line, (List.length (lineRecords line) <= 1)%nat) as Hone.
  { intro line. unfold lineRecords.
    destruct ((line =? EmptyString) || (line =? Js.cr) || (line =? Js.lf));
      [cbn; lia |].
    destruct (map Js.trim (Js.split logDelimiter line))
      as [|hash [|shortHash [|title rest]]]; try (cbn; lia).
    destruct (titleMatch title); cbn; lia. }
  split; [exact H | split; [| exact Hone]].
  subst log. clear - Hone. induction lines as [|line lines IH]; [cbn; lia |].
  cbn [flat_map List.length]. rewrite length_app.
  specialize (Hone line). lia.
Qed.

Lemma arrayIncludes_true (x : string) (l : list string) :
  Js.arrayIncludes x l = true -> In x l.
Proof.
  unfold Js.arrayIncludes. intro H.
  apply existsb_exists in H as (y & Hy & E).
  apply String.eqb_eq in E. now subst.
Qed.

Lemma convertLine_committers (log : list LogItem) (cs : list string)
      (line : string) (log' : list LogItem) (cs' : list string) :
  convertLine (log, cs) line = Ok (log', cs') ->
  forall c, In c cs' <-> In c cs \/ In c (lineCommitters line).
Proof.
  unfold convertLine, lineCommitters.
  destruct ((line =? EmptyString) || (line =? Js.cr) || (line =? Js.lf)).
  { intro H. injection H as <- <-. cbn. tauto. }
  destruct (map Js.trim (Js.split logDelimiter line))
    as [|hash [|shortHash [|title rest]]]; try discriminate.
  destruct (titleMatch title) as [m|].
  2:{ intro H. injection H as <- <-. cbn. tauto. }
  remember (nth_error rest 0) as ob eqn:Eb.
  remember (nth_error rest 1) as oc eqn:Ec.
  intro H. injection H as _ <-. intro c.
  destruct oc as [d|]; [| cbn; tauto].
  unfold Spec.nonBotCommitter.
  destruct (Js.truthy d); cbn [andb]; [| cbn; tauto].
  destruct (Js.includes "github" (Js.toLowerCase d));
    cbn [andb negb]; [rewrite andb_false_r; cbn; tauto |].
  destruct (Js.arrayIncludes d cs) eqn:I; cbn [andb negb].
  - apply arrayIncludes_true in I. cbn. split; [tauto |].
    intros [H | [<- | []]]; assumption.
  - rewrite in_app_iff. cbn. tauto.
Qed.

Lemma convertLines_committers (lines : list string) :
  forall log cs log' cs',
    convertLines lines (log, cs) = Ok (log', cs') ->
    forall c, In c cs' <-> In c cs \/ In c (flat_map lineCommitters lines).
Proof.
  induction lines as [|line lines IH]; intros log cs log' cs' H c.
  - cbn in H. injection H as <- <-. cbn. tauto.
  - change (convertLines (line :: lines) (log, cs))
      with (bind (convertLine (log, cs) line)
                 (fun acc' => convertLines lines acc')) in H.
    destruct (convertLine (log, cs) line) as [[log1 cs1]|e] eqn:E;
      cbn [bind] in H; [| discriminate].
    rewrite (IH _ _ _ _ H c), (convertLine_committers _ _ _ _ _ E c).
    cbn [flat_map]. rewrite in_app_iff. tauto.
Qed.

(** X4: the committers returned by the parser are exactly the committer
    fields (the fifth field, trimmed) of the entries whose title matches
    that are non-empty and do not contain [github] in any letter case,
    each listed once. *)
Theorem X4_committers_of_matching_entries
        (lines : list string) (log : list LogItem) (cs : list string) :
  convertStringToLog lines = Ok (log, cs) ->
  NoDup cs
  /\ forall c, In c cs <-> In c (flat_map lineCommitters lines).
Proof.
  intro H. split.
  - now apply convertStringToLog_inv in H as (_ & _ & Hnd & _).
  - intro c. rewrite (convertLines_committers _ _ _ _ _ H c). cbn. tauto.
Qed.

Lemma usernames_verbatim (hash shortHash title : string)
      (rest : list string) (m : TitleMatch) :
  titleMatch title = Some m ->
  Spec.optionalGroup (usernames (recordOf hash shortHash rest m))
  = Spec.annotationText " " (m_username m).
Proof.
  intro Em. unfold recordOf. cbn [usernames].
  destruct (m_username m) as [u|] eqn:Eu; [| reflexivity].
  pose proof (split_nonempty ", " u) as N.
  pose proof (join_split ", " u) as J.
  destruct (Js.split ", " u) as [|x l] eqn:Es; [contradiction |].
  cbn [Spec.optionalGroup]. unfold Spec.group.
  rewrite J by discriminate. reflexivity.
Qed.

(** X5: the username annotation of a title is rendered verbatim: every
    parsed record is the record of an entry whose title matches, and the
    username group of its line (the usernames split on [", "] and joined
    again) is the annotation as it stands in the title of that entry,
    absent when the title has none. *)
Theorem X5_username_annotation_verbatim
        (lines : list string) (log : list LogItem) (cs : list string)
        (r : LogItem) :
  convertStringToLog lines = Ok (log, cs) ->
  In r log ->
  exists line hash shortHash title rest m,
    In line lines
    /\ map Js.trim (Js.split logDelimiter line)
       = hash :: shortHash :: title :: rest
    /\ titleMatch title = Some m
    /\ r = recordOf hash shortHash rest m
    /\ lineRecords line = [r]
    /\ Spec.optionalGroup (usernames r)
       = match m_username m with
         | Some u => " (" ++ u ++ ")"
         | None => EmptyString
         end.
Proof.
  intros H Hr. apply convertStringToLog_inv in H as [H _].
  rewrite Forall_forall in H.
  destruct (H r Hr)
    as (line & hash & shortHash & title & rest & m & Hl & Ef & Em & ->).
  exists line, hash, shortHash, title, rest, m.
  split; [exact Hl | split; [exact Ef | split; [exact Em |]]].
  split; [reflexivity | split].
  - unfold lineRecords. rewrite Ef, Em.
    destruct ((line =? EmptyString) || (line =? Js.cr) || (line =? Js.lf))
             eqn:G; [| reflexivity].
    exfalso. revert Ef. clear - G.
    apply orb_true_iff in G as [G | G];
      [apply orb_true_iff in G as [G | G] |];
      apply String.eqb_eq in G; subst line; vm_compute; discriminate.
  - rewrite (usernames_verbatim _ _ _ _ _ Em).
    now destruct (m_username m).
Qed.

(** ** The delimiters *)

(** X7: neither delimiter overlaps itself, so that fields free of the
    field delimiter survive the field format of an entry, and entries free
    of the entry delimiter survive the format of the blob, which starts
    with an empty piece. *)
Theorem X7_delimiters_separate :
  (forall fields,
      fields <> [] ->
      Forall (fun f => Js.includes logDelimiter f = false) fields ->
      Js.split logDelimiter (Js.join logDelimiter fields) = fields)
  /\ (forall entries,
         Forall (fun e => Js.includes lineDelimiter e = false) entries ->
         Js.split lineDelimiter
                  (Js.join lineDelimiter (EmptyString :: entries))
         = EmptyString :: entries).
Proof.
  split.
  - intros fields N H. apply split_join; [vm_compute; reflexivity | | ];
      assumption.
  - intros entries H. apply split_join;
      [vm_compute; reflexivity | discriminate |].
    constructor; [vm_compute; reflexivity | exact H].
Qed.

(** ** A formatted entry *)

Lemma wordChar_not_space (c : ascii) :
  Js.isWordChar c = true -> Js.isWhiteSpace c = false.
Proof.
  destruct c as [[] [] [] [] [] [] [] []]; intro H;
    first [reflexivity | discriminate H].
Qed.

Lemma canonicalTitle_trimmed (m : TitleMatch) :
  canonical m -> Js.trim (canonicalTitle m) = canonicalTitle m.
Proof.
  destruct m as [ty sc msg us pr].
  intros ([Hn Hty] & _ & [Hmn _] & _ & _ & Hlast & Hus & Hpr).
  cbn [m_type m_scope m_message m_username m_pr] in *.
  unfold canonicalTitle. cbn [m_type m_scope m_message m_username m_pr].
  apply trim_fixed.
  - destruct ty as [|c ty]; [discriminate |]. cbn in Hty |- *.
    apply andb_true_iff in Hty as [Hc _].
    now rewrite (wordChar_not_space c Hc).
  - assert (msg <> EmptyString) as Nm by (destruct msg; discriminate).
    assert (lastNonSpace
              (msg ++ Spec.annotationText " " us
               ++ Spec.annotationText " " pr) = true) as Hl.
    { destruct pr as [p|]; cbn [Spec.annotationText].
      - replace (msg ++ Spec.annotationText " " us ++ " " ++ "(" ++ p ++ ")")
          with ((msg ++ Spec.annotationText " " us ++ " " ++ "(" ++ p)
                ++ ")") by (now rewrite !append_assoc).
        now rewrite lastNonSpace_app by discriminate.
      - rewrite append_empty_r.
        destruct us as [u|]; cbn [Spec.annotationText].
        + replace (msg ++ " " ++ "(" ++ u ++ ")")
            with ((msg ++ " " ++ "(" ++ u) ++ ")")
            by (now rewrite !append_assoc).
          now rewrite lastNonSpace_app by discriminate.
        + now rewrite append_empty_r. }
    rewrite lastNonSpace_app.
    + rewrite lastNonSpace_app.
      * rewrite lastNonSpace_app; [exact Hl |].
        intro E. apply append_eq_empty in E as [E _]. contradiction.
      * discriminate.
    + destruct (Spec.scopeText sc); discriminate.
Qed.

Lemma eqb_length (a b : string) :
  String.length a <> String.length b -> (a =? b) = false.
Proof.
  intro N. destruct (String.eqb_spec a b) as [-> |]; [contradiction |].
  reflexivity.
Qed.

Lemma formatted_not_blank (hash rest : string) :
  let line := hash ++ logDelimiter ++ rest in
  (line =? EmptyString) || (line =? Js.cr) || (line =? Js.lf) = false.
Proof.
  intro line.
  assert (2 <= String.length line)%nat as L.
  { unfold line. rewrite !length_append.
    change (String.length logDelimiter) with 71%nat. lia. }
  rewrite !eqb_length; [reflexivity | | |]; cbn [String.length Js.lf Js.cr];
    lia.
Qed.

(** X6: an entry formatted as [getLog] formats it, from fields free of
    the delimiters and a canonical title, is parsed back into the record
    of these fields, trimmed, and offers its committer unless it is empty
    or contains [github]. *)
Theorem X6_formatted_entry_reads_back
        (hash shortHash body committer : string) (m : TitleMatch) :
  canonical m ->
  Forall (fun f => Js.includes logDelimiter f = false)
         [hash; shortHash; canonicalTitle m; body; committer] ->
  Js.includes lineDelimiter
    (Js.join logDelimiter
       [hash; shortHash; canonicalTitle m; body; committer]) = false ->
  convertStringToLog
    (Js.split lineDelimiter
              (entry hash shortHash (canonicalTitle m) body committer))
  = Ok ([recordOf (Js.trim hash) (Js.trim shortHash)
                  [Js.trim body; Js.trim committer] m],
        if Js.truthy (Js.trim committer)
           && Spec.nonBotCommitter (Js.trim committer)
        then [Js.trim committer] else []).
Proof.
  intros Hc Hfields Hline.
  set (fields := [hash; shortHash; canonicalTitle m; body; committer]) in *.
  change (entry hash shortHash (canonicalTitle m) body committer)
    with (Js.join lineDelimiter
            [EmptyString; Js.join logDelimiter fields]).
  rewrite split_join;
    [| vm_compute; reflexivity | discriminate
     | constructor; [vm_compute; reflexivity | constructor; [exact Hline |
                                                             constructor]]].
  unfold convertStringToLog. cbn [convertLines].
  change (convertLine ([], []) EmptyString) with (Ok (@nil LogItem, @nil string)).
  cbn [bind].
  unfold convertLine.
  assert ((Js.join logDelimiter fields =? EmptyString)
          || (Js.join logDelimiter fields =? Js.cr)
          || (Js.join logDelimiter fields =? Js.lf) = false) as ->.
  { apply (formatted_not_blank hash
             (shortHash ++ logDelimiter ++ canonicalTitle m ++ logDelimiter
              ++ body ++ logDelimiter ++ committer)). }
  rewrite split_join; [| vm_compute; reflexivity | discriminate | exact Hfields].
  unfold fields. cbn [map].
  rewrite (canonicalTitle_trimmed m Hc), (titleMatch_canonical m Hc).
  destruct Hc as ([Hty _] & _ & [Hmsg _] & _ & _ & _ & Hus & Hpr).
  rewrite Hty, Hmsg. cbn [andb nth_error bind app Js.arrayIncludes existsb negb].
  rewrite andb_true_r.
  f_equal. f_equal. f_equal.
  unfold recordOf. cbn [nth_error]. f_equal.
  - destruct (m_username m) as [u|]; [| reflexivity].
    now destruct Hus as (rest & -> & _).
  - destruct (m_pr m) as [p|]; [| reflexivity].
    now destruct Hpr as (rest & -> & _).
Qed.

(** ** What is rendered and what is dropped *)

Lemma footerEligible_rendered (r : LogItem) :
  Spec.footerEligible r = true -> In (type r) renderedTypes.
Proof.
  unfold Spec.footerEligible. rewrite existsb_exists.
  intros (cat & Hcat & Hr). simpl in Hcat.
  repeat (destruct Hcat as [<- | Hcat];
          [ first [ apply isMarked_type in Hr | apply isType_type in Hr ];
            rewrite Hr; simpl; tauto
          | ]).
  contradiction.
Qed.

Lemma rendered_somewhere (log : list LogItem) (r : LogItem) :
  In r log -> In (type r) renderedTypes ->
  (exists ty, In r (sectionItems ty log)) \/ In r (allOtherLogs log).
Proof.
  intros Hr Ht.
  assert (forall ty, type r = ty -> In (isType ty) Spec.footerOrder ->
                     In r (allOtherLogs log)) as Hint.
  { intros ty E Hin. apply in_allOtherLogs. split; [assumption |].
    apply existsb_exists. exists (isType ty). split; [assumption |].
    unfold isType. rewrite E. apply String.eqb_refl. }
  assert (forall k, type r = keyName k ->
                    (exists ty, In r (sectionItems ty log))
                    \/ In r (allOtherLogs log)) as Huser.
  { intros k E. destruct (Spec.marked r) eqn:M.
    - right. apply in_allOtherLogs. split; [assumption |].
      apply marked_eligible; [| assumption]. rewrite E. now destruct k.
    - left. exists k. apply in_sectionItems. auto. }
  simpl in Ht.
  destruct Ht as [E | [E | [E | Ht]]];
    [apply (Huser k_feat); now rewrite <- E
    |apply (Huser k_impr); now rewrite <- E
    |apply (Huser k_fix); now rewrite <- E |].
  right.
  repeat (destruct Ht as [E | Ht];
          [apply (Hint _ (eq_sym E)); simpl; tauto |]).
  contradiction.
Qed.

(** X8: the user-facing sections and the footer concatenation divide the
    records of the eleven rendered types between them: a record is in one
    of them exactly when its type is feat, impr, fix, style, docs,
    refactor, perf, ci, test, build or chore, and never in both; a record
    of type revert, like one of an unknown type, is in neither. *)
Theorem X8_sections_and_footer_divide_the_records
        (log : list LogItem) (r : LogItem) :
  (((exists ty, In r (sectionItems ty log)) \/ In r (allOtherLogs log))
   <-> In r log /\ In (type r) renderedTypes)
  /\ ~ ((exists ty, In r (sectionItems ty log)) /\ In r (allOtherLogs log))
  /\ (type r = "revert" ->
      (forall ty, ~ In r (sectionItems ty log))
      /\ ~ In r (allOtherLogs log)).
Proof.
  assert (forall ty, In r (sectionItems ty log) ->
                     In r log /\ In (type r) renderedTypes) as Hs.
  { intros ty H. apply in_sectionItems in H as (Hr & E & _).
    split; [assumption |]. rewrite E. destruct ty; simpl; tauto. }
  assert (In r (allOtherLogs log) ->
          In r log /\ In (type r) renderedTypes) as Hf.
  { intro H. apply in_allOtherLogs in H as [Hr He].
    split; [assumption | now apply footerEligible_rendered]. }
  split; [| split].
  - split.
    + intros [[ty H] | H]; [now apply (Hs ty) | now apply Hf].
    + intros [Hr Ht]. now apply rendered_somewhere.
  - intros [[ty H] Hall].
    apply in_sectionItems in H as (_ & E & M).
    apply in_allOtherLogs in Hall as [_ He].
    apply footerEligible_cases in He as [[_ He] | [He _]]; [congruence |].
    rewrite E in He. destruct ty; discriminate.
  - intro E. split.
    + intros ty H. apply Hs in H as [_ H]. rewrite E in H. simpl in H.
      repeat (destruct H as [H | H]; [discriminate H |]). contradiction.
    + intro H. apply Hf in H as [_ H]. rewrite E in H. simpl in H.
      repeat (destruct H as [H | H]; [discriminate H |]). contradiction.
Qed.

(** ** The warning of [generateChangelog] *)

Lemma trimStart_head (s : string) (c : ascii) (t : string) :
  Js.trimStart s = String c t -> Js.isWhiteSpace c = false.
Proof.
  induction s as [|d s IH]; [discriminate |]. cbn [Js.trimStart].
  destruct (Js.isWhiteSpace d) eqn:Hd; [exact IH |].
  intro H. injection H as <- _. exact Hd.
Qed.

Lemma truthy_trim (s : string) :
  Js.truthy (Js.trim s) = Js.truthy (Js.trimStart s).
Proof.
  unfold Js.trim. destruct (Js.trimStart s) as [|c t] eqn:E; [reflexivity |].
  apply trimStart_head in E. cbn [Js.trimEnd]. rewrite E. reflexivity.
Qed.

Lemma keepFirst_nil {A : Type} (same : A -> A -> bool) (l : list A) :
  Spec.keepFirst same l = [] <-> l = [].
Proof.
  split; [| now intros ->]. destruct l; [reflexivity | discriminate].
Qed.

Section Warning.
Variables owner repo : string.

Lemma buildSection_empty (ty : TitleKey) (log : list LogItem) :
  buildSection owner repo ty log = EmptyString <-> sectionItems ty log = [].
Proof.
  unfold buildSection. destruct (sectionItems ty log) as [|x l].
  - split; reflexivity.
  - cbn [List.length Nat.eqb]. split; discriminate.
Qed.

Lemma buildSections_empty (log : list LogItem) :
  Js.join Js.lf (buildSections owner repo log) = EmptyString
  <-> forall ty, sectionItems ty log = [].
Proof.
  split.
  - intros H ty. apply buildSection_empty. revert H.
    unfold buildSections, titleKeys. cbn [fold_left].
    destruct (buildSection_shape owner repo k_feat log) as [E1 | [r1 E1]];
      destruct (buildSection_shape owner repo k_impr log) as [E2 | [r2 E2]];
      destruct (buildSection_shape owner repo k_fix log) as [E3 | [r3 E3]];
      rewrite E1, E2, E3; cbn; intro H; try discriminate H;
      destruct ty; assumption.
  - intro H. unfold buildSections, titleKeys. cbn [fold_left].
    rewrite !(proj2 (buildSection_empty _ log) (H _)). reflexivity.
Qed.

(** The assembled text is blank only when it is empty. *)
Lemma assembled_blank (b : bool) (sections footer : string) :
  (sections = EmptyString \/ exists rest, sections = String "#" rest) ->
  (footer = EmptyString
   \/ exists rest, footer = Js.lf ++ String "#" rest) ->
  let out := ((if b then header ++ Js.lf ++ Js.lf else EmptyString)
              ++ sections) ++ footer in
  (Js.truthy (Js.trim out) = false <-> out = EmptyString)
  /\ (out = EmptyString
      <-> b = false /\ sections = EmptyString /\ footer = EmptyString).
Proof.
  intros Hs Hf out. unfold out. rewrite truthy_trim.
  destruct b.
  - unfold header. cbn [append Js.trimStart].
    change (Js.isWhiteSpace "T") with false. cbv iota. cbn [Js.truthy].
    repeat split; try discriminate. now intros [H _].
  - cbn [append].
    destruct Hs as [-> | [r ->]].
    + cbn [append]. destruct Hf as [-> | [r ->]].
      * repeat split; reflexivity.
      * cbn [append Js.lf Js.trimStart].
        change (Js.isWhiteSpace Js.LF) with true.
        change (Js.isWhiteSpace "#") with false. cbv iota. cbn [Js.truthy].
        repeat split; try discriminate. now intros (_ & _ & H).
    + cbn [append Js.trimStart].
      change (Js.isWhiteSpace "#") with false. cbv iota. cbn [Js.truthy].
      repeat split; try discriminate. now intros (_ & H & _).
Qed.

(** X9: [generateChangelog] warns that there are no new contributions
    exactly when [buildChangelog] returns the empty text, which is when
    the header threshold is not met and no parsed record has one of the
    eleven rendered types; a log of reverts alone is announced as holding
    no new contribution. *)
Theorem X9_warning_when_nothing_is_rendered
        (blob : string) (log : list LogItem) (cs : list string) :
  convertStringToLog (Js.split lineDelimiter blob) = Ok (log, cs) ->
  exists out sp,
    generateChangelog owner repo blob = Ok (out, sp)
    /\ ((exists text, sp = Warned text) <-> out = EmptyString)
    /\ (out = EmptyString
        <-> (contributorCount log < 2)%nat
            /\ (List.length cs < 2)%nat
            /\ forall r, In r log -> ~ In (type r) renderedTypes).
Proof.
  intro H. unfold generateChangelog.
  rewrite (buildChangelog_parsed owner repo blob log cs H). cbn [bind].
  set (b := ((1 <? contributorCount log)%nat || (1 <? List.length cs)%nat)).
  set (sections := Js.join Js.lf (buildSections owner repo log)).
  set (u := Spec.keepFirst Spec.sameFullHash (allOtherLogs log)).
  match goal with
  | |- context [ (_ ++ sections) ++ ?f ] => set (footer := f)
  end.
  destruct (assembled_blank b sections footer) as [Hblank Hempty].
  { apply buildSections_shape. }
  { unfold footer. destruct u; [now left | right].
    eexists. unfold nerdHeading. cbn [append]. reflexivity. }
  eexists. eexists. split; [reflexivity |]. split.
  - rewrite <- Hblank.
    destruct (Js.truthy (Js.trim ((_ ++ sections) ++ footer)));
      cbn [negb]; split; try discriminate; try reflexivity.
    + intros [text E]. discriminate E.
    + intros _. now eexists.
  - rewrite Hempty. unfold b, sections.
    rewrite orb_false_iff, !Nat.ltb_ge, buildSections_empty.
    assert (footer = EmptyString <-> allOtherLogs log = []) as ->.
    { rewrite <- (keepFirst_nil Spec.sameFullHash). fold u.
      unfold footer. destruct u; [tauto | split; discriminate]. }
    split.
    + intros [[C1 C2] [Hsec Hall]]. repeat split; try lia.
      intros r Hr Ht.
      destruct (rendered_somewhere log r Hr Ht) as [[ty Hin] | Hin].
      * now rewrite (Hsec ty) in Hin.
      * now rewrite Hall in Hin.
    + intros (C1 & C2 & Hnone). repeat split; try lia.
      * intro ty. destruct (sectionItems ty log) as [|x l] eqn:E;
          [reflexivity | exfalso].
        assert (In x (sectionItems ty log)) as Hx by (rewrite E; now left).
        apply in_sectionItems in Hx as (Hx & Et & _).
        apply (Hnone x Hx). rewrite Et. destruct ty; simpl; tauto.
      * destruct (allOtherLogs log) as [|x l] eqn:E; [reflexivity | exfalso].
        assert (In x (allOtherLogs log)) as Hx by (rewrite E; now left).
        apply in_allOtherLogs in Hx as [Hx He].
        apply (Hnone x Hx). now apply footerEligible_rendered.
Qed.

End Warning.

(** ** getOwnerAndRepo *)

Lemma anyOf_inv {R : Type} (p : ascii -> bool) (s : string)
      (k : string -> option R) (x : R) :
  Remote.anyOf p s k = Some x ->
  exists c s', s = String c s' /\ p c = true /\ k s' = Some x.
Proof.
  destruct s as [|c s']; cbn; [discriminate |].
  destruct (p c) eqn:Hc; [| discriminate]. intro H. now exists c, s'.
Qed.

Lemma search_inv {R : Type} (attempt : string -> option R) (s : string)
      (x : R) :
  Remote.search attempt s = Some x ->
  exists pre t, s = pre ++ t /\ attempt t = Some x.
Proof.
  induction s as [|c s IH]; cbn [Remote.search]; intro H;
    apply orElse_inv in H as [H | [_ H]].
  - now exists EmptyString, EmptyString.
  - discriminate.
  - now exists EmptyString, (String c s).
  - apply IH in H as (pre & t & -> & H). now exists (String c pre), t.
Qed.

Lemma gitSuffix_inv {R : Type} (s : string)
      (k : unit -> string -> option R) (x : R) :
  Remote.gitSuffix s k = Some x ->
  exists s', s = ".git" ++ s' /\ k tt s' = Some x.
Proof.
  unfold Remote.gitSuffix. intro H.
  apply lit_inv in H as (s1 & -> & H).
  apply lit_inv in H as (s2 & -> & H).
  apply lit_inv in H as (s3 & -> & H).
  apply lit_inv in H as (s4 & -> & H).
  now exists s4.
Qed.

(** What a successful attempt has read. *)
Lemma attempt_inv (s owner repo : string) :
  Remote.attempt s = Some (owner, repo) ->
  exists c suffix,
    s = String c (owner ++ "/" ++ repo ++ suffix)
    /\ Remote.isSeparator c = true
    /\ Spec.nonEmptyOf Remote.notSeparator owner
    /\ Spec.nonEmptyOf Remote.notSlash repo
    /\ (suffix = EmptyString \/ suffix = ".git").
Proof.
  unfold Remote.attempt. intro H.
  apply anyOf_inv in H as (c & s1 & -> & Hc & H).
  apply plusG_inv in H as (o & s2 & -> & Ho & H).
  apply lit_inv in H as (s3 & -> & H).
  apply plusL_inv in H as (r & s4 & -> & Hr & H).
  apply optional_inv in H as [H | H].
  - apply gitSuffix_inv in H as (s5 & -> & H).
    apply eos_inv in H as [-> E]. injection E as <- <-.
    exists c, ".git". auto 10.
  - apply eos_inv in H as [-> E]. injection E as <- <-.
    exists c, EmptyString. auto 10.
Qed.

Lemma optional_git_none {R : Type} (s : string) (v : R) :
  s <> EmptyString -> s <> ".git" ->
  Re.optional Remote.gitSuffix s (fun _ s => Re.eos s v) = None.
Proof.
  intros N1 N2. unfold Re.optional.
  destruct (Remote.gitSuffix s (fun _ r => Re.eos r v)) as [x|] eqn:E.
  - apply gitSuffix_inv in E as (s' & -> & E).
    apply eos_inv in E as [-> _]. now contradiction N2.
  - destruct s; [contradiction | reflexivity].
Qed.

Lemma afterFirstSeparator_run (o : string) (d : ascii) (t : string) :
  Js.all Remote.notSeparator o = true -> Remote.isSeparator d = true ->
  Remote.afterFirstSeparator (o ++ String d t) = t.
Proof.
  intros Ho Hd. induction o as [|c o IH]; cbn [append Remote.afterFirstSeparator].
  - now rewrite Hd.
  - cbn in Ho. apply andb_true_iff in Ho as [Hc Ho].
    unfold Remote.notSeparator in Hc. apply negb_true_iff in Hc.
    rewrite Hc. auto.
Qed.

Lemma afterFirstSeparator_slash (pre : string) (c : ascii) (o t : string) :
  Remote.isSeparator c = true ->
  Js.all Remote.notSlash
         (Remote.afterFirstSeparator (pre ++ String c (o ++ "/" ++ t)))
  = false.
Proof.
  intro Hc.
  assert (forall a, Js.all Remote.notSlash (a ++ String "/" t) = false) as Hs.
  { intro a. rewrite all_app. cbn. now rewrite andb_false_r. }
  induction pre as [|d pre IH]; cbn [append Remote.afterFirstSeparator].
  - rewrite Hc. apply Hs.
  - destruct (Remote.isSeparator d); [| exact IH].
    replace (pre ++ String c (o ++ String "/" t))
      with ((pre ++ String c o) ++ String "/" t).
    + apply Hs.
    + rewrite append_assoc. reflexivity.
Qed.

(** No attempt succeeds before the separator that precedes the owner. *)
Lemma attempt_before_owner (d : ascii) (pre : string) (c : ascii)
      (o t : string) :
  Remote.isSeparator c = true ->
  Remote.attempt (String d (pre ++ String c (o ++ "/" ++ t))) = None.
Proof.
  intro Hc.
  destruct (Remote.attempt (String d (pre ++ String c (o ++ "/" ++ t))))
    as [[o' r']|] eqn:E; [exfalso | reflexivity].
  apply attempt_inv in E as (c' & sfx & E & _ & [_ Ho'] & [_ Hr'] & Hsfx).
  injection E as _ E.
  pose proof (afterFirstSeparator_slash pre c o t Hc) as F.
  cbn [append] in E, F. rewrite E in F.
  rewrite afterFirstSeparator_run in F; [| exact Ho' | reflexivity].
  rewrite all_app, Hr' in F.
  destruct Hsfx as [-> | ->]; discriminate F.
Qed.

Lemma search_to_owner (pre : string) (c : ascii) (o t : string) :
  Remote.isSeparator c = true ->
  Remote.search Remote.attempt (pre ++ String c (o ++ "/" ++ t))
  = Remote.search Remote.attempt (String c (o ++ "/" ++ t)).
Proof.
  intro Hc. induction pre as [|d pre IH]; [reflexivity |].
  pose proof (attempt_before_owner d pre c o t Hc) as A.
  cbn [append] in A, IH |- *. cbn [Remote.search].
  rewrite A. exact IH.
Qed.

Lemma separator_not (c : ascii) :
  Remote.notSeparator c = true -> Remote.notSlash c = true.
Proof.
  unfold Remote.notSeparator, Remote.isSeparator, Remote.notSlash.
  intro H. apply negb_true_iff in H. apply orb_false_iff in H as [_ H].
  now rewrite H.
Qed.

Lemma attempt_owner_repo (c : ascii) (o r suffix : string) :
  Remote.isSeparator c = true ->
  Spec.nonEmptyOf Remote.notSeparator o ->
  Spec.nonEmptyOf Remote.notSlash r ->
  suffix = ".git"
  \/ (suffix = EmptyString
      /\ forall x, x <> EmptyString -> r <> x ++ ".git") ->
  Remote.attempt (String c (o ++ "/" ++ r ++ suffix)) = Some (o, r).
Proof.
  intros Hc Ho Hr Hsfx. unfold Remote.attempt. cbn [Remote.anyOf].
  rewrite Hc.
  apply plusG_longest; [exact Ho | reflexivity |].
  cbn [append]. rewrite lit_cons.
  apply plusL_first; [exact Hr | |].
  - intros r1 r2 -> N1 N2. apply optional_git_none.
    + intro E. apply append_eq_empty in E as [E _]. contradiction.
    + destruct Hsfx as [-> | [-> Hx]].
      * intro E. apply (f_equal String.length) in E.
        rewrite length_append in E. cbn [String.length] in E.
        destruct r2; [contradiction | cbn [String.length] in E; lia].
      * rewrite append_empty_r. intros ->. now apply (Hx r1).
  - destruct Hsfx as [-> | [-> _]]; reflexivity.
Qed.

(** X10: when [getOwnerAndRepo] returns, the trimmed remote URL ends with
    a [:] or [/], the owner, a [/], the repository and, possibly, [.git];
    the owner is non-empty and free of [:] and [/], the repository
    non-empty and free of [/].  A remote URL without any [/] makes it
    exit with code 1. *)
Theorem X10_owner_and_repo_end_the_url :
  (forall remoteOutput owner repo,
      getOwnerAndRepo remoteOutput = Returned (owner, repo) ->
      exists pre c suffix,
        Js.trim remoteOutput
        = pre ++ String c (owner ++ "/" ++ repo ++ suffix)
        /\ (c = ":" \/ c = "/")%char
        /\ Spec.nonEmptyOf Remote.notSeparator owner
        /\ Spec.nonEmptyOf Remote.notSlash repo
        /\ (suffix = EmptyString \/ suffix = ".git"))
  /\ (forall remoteOutput,
         Js.all Remote.notSlash (Js.trim remoteOutput) = true ->
         getOwnerAndRepo remoteOutput = Exited 1).
Proof.
  assert (forall url o r,
             Remote.matchUrl url = Some (o, r) ->
             exists pre c suffix,
               url = pre ++ String c (o ++ "/" ++ r ++ suffix)
               /\ (c = ":" \/ c = "/")%char
               /\ Spec.nonEmptyOf Remote.notSeparator o
               /\ Spec.nonEmptyOf Remote.notSlash r
               /\ (suffix = EmptyString \/ suffix = ".git")) as Hsound.
  { intros url o r H. apply search_inv in H as (pre & t & -> & H).
    apply attempt_inv in H as (c & sfx & -> & Hc & Ho & Hr & Hs).
    exists pre, c, sfx. repeat split; try apply Ho; try apply Hr; auto.
    unfold Remote.isSeparator in Hc. apply orb_true_iff in Hc as [Hc | Hc];
      apply Ascii.eqb_eq in Hc; auto. }
  split.
  - intros out o r. unfold getOwnerAndRepo.
    destruct (Remote.matchUrl (Js.trim out)) as [[o' r']|] eqn:E;
      [| discriminate].
    intro H. injection H as <- <-. now apply Hsound.
  - intros out Hall. unfold getOwnerAndRepo.
    destruct (Remote.matchUrl (Js.trim out)) as [[o r]|] eqn:E;
      [exfalso | reflexivity].
    apply Hsound in E as (pre & c & sfx & E & _).
    rewrite E in Hall. rewrite all_app in Hall.
    apply andb_true_iff in Hall as [_ Hall]. cbn [Js.all] in Hall.
    apply andb_true_iff in Hall as [_ Hall].
    rewrite all_app in Hall. apply andb_true_iff in Hall as [_ Hall].
    discriminate Hall.
Qed.

(** X11: a remote URL that ends with a [:] or [/], an owner free of [:]
    and [/], a [/] and a repository free of [/] followed by [.git] yields
    this owner and this repository, whatever precedes them (scheme, user,
    host, port or further path segments); so does the URL without [.git]
    when the repository does not itself end with [.git]. *)
Theorem X11_owner_and_repo_of_a_remote_url
        (remoteOutput pre : string) (c : ascii) (owner repo suffix : string) :
  Js.trim remoteOutput = pre ++ String c (owner ++ "/" ++ repo ++ suffix) ->
  Remote.isSeparator c = true ->
  Spec.nonEmptyOf Remote.notSeparator owner ->
  Spec.nonEmptyOf Remote.notSlash repo ->
  suffix = ".git"
  \/ (suffix = EmptyString
      /\ forall x, x <> EmptyString -> repo <> x ++ ".git") ->
  getOwnerAndRepo remoteOutput = Returned (owner, repo).
Proof.
  intros E Hc Ho Hr Hs. unfold getOwnerAndRepo, Remote.matchUrl.
  rewrite E, (search_to_owner pre c owner (repo ++ suffix) Hc).
  cbn [Remote.search].
  now rewrite (attempt_owner_repo c owner repo suffix Hc Ho Hr Hs).
Qed.

(** ** createGithubRelease *)

Lemma retry_step (api : nat -> ApiReply) (remaining attempt calls0 slept0 : nat) :
  retryable (api attempt) = true -> (attempt < maxRetries)%nat ->
  createReleaseFrom api (S remaining) attempt calls0 slept0
  = createReleaseFrom api remaining (S attempt) (S calls0)
                      (slept0 + 1000 * attempt).
Proof.
  intros R L. cbn [createReleaseFrom].
  destruct (api attempt) as [|error]; [discriminate R |].
  cbn [retryable] in R. rewrite R.
  apply Nat.ltb_lt in L. now rewrite L.
Qed.

Lemma stop_step (api : nat -> ApiReply) (remaining attempt calls0 slept0 : nat) :
  retryable (api attempt) = false \/ (maxRetries <= attempt)%nat ->
  createReleaseFrom api (S remaining) attempt calls0 slept0
  = match api attempt with
    | Created =>
        mkReleaseRun (S calls0) slept0 (Returned tt)
                     (Some (Succeeded "GitHub release created."))
    | Rejected _ =>
        mkReleaseRun (S calls0) slept0 (Exited 1)
          (Some (FailedWith
                   "Failed to create release after 5 attempts. Please create the release manually."))
    end.
Proof.
  intro H. cbn [createReleaseFrom].
  destruct (api attempt) as [|error]; [reflexivity |].
  cbn [retryable] in H.
  destruct H as [-> | L]; [now rewrite andb_false_r |].
  apply Nat.ltb_ge in L. now rewrite L.
Qed.

Lemma run_calls (api : nat -> ApiReply) (remaining : nat) :
  forall attempt calls0 slept0,
    (1 <= remaining)%nat ->
    (calls0 < calls (createReleaseFrom api remaining attempt calls0 slept0)
     <= calls0 + remaining)%nat.
Proof.
  induction remaining as [|remaining IH]; intros attempt calls0 slept0 L;
    [lia |].
  destruct (retryable (api attempt) && (attempt <? maxRetries)%nat) eqn:C.
  - apply andb_true_iff in C as [R C]. apply Nat.ltb_lt in C.
    rewrite retry_step by assumption.
    destruct remaining as [|remaining].
    + cbn [createReleaseFrom calls]. lia.
    + specialize (IH (S attempt) (S calls0) (slept0 + 1000 * attempt)%nat).
      lia.
  - rewrite stop_step.
    + destruct (api attempt); cbn [calls]; lia.
    + apply andb_false_iff in C as [C | C]; [now left | right].
      now apply Nat.ltb_ge in C.
Qed.

Lemma run_ending (api : nat -> ApiReply) (remaining : nat) :
  forall attempt calls0 slept0,
    (attempt + remaining = maxRetries + 1)%nat ->
    (1 <= remaining)%nat ->
    let run := createReleaseFrom api remaining attempt calls0 slept0 in
    (ending run = Returned tt
     <-> exists k,
         (attempt <= k <= maxRetries)%nat
         /\ api k = Created
         /\ forall j, (attempt <= j < k)%nat -> retryable (api j) = true)
    /\ (ending run = Returned tt
        <-> exists text, shown run = Some (Succeeded text)).
Proof.
  induction remaining as [|remaining IH]; intros attempt calls0 slept0 E L;
    [lia |].
  cbv zeta.
  destruct (retryable (api attempt) && (attempt <? maxRetries)%nat) eqn:C.
  - apply andb_true_iff in C as [R C]. apply Nat.ltb_lt in C.
    rewrite retry_step by assumption.
    destruct (IH (S attempt) (S calls0) (slept0 + 1000 * attempt)%nat)
      as [Hend Hshown]; [lia | unfold maxRetries in *; lia |].
    cbv zeta in Hend, Hshown. split; [| exact Hshown].
    rewrite Hend. split.
    + intros (k & Hk1 & Hk2 & Hk3). exists k.
      split; [lia | split; [exact Hk2 |]].
      intros j Hj. destruct (Nat.eq_dec j attempt) as [-> | N];
        [exact R | apply Hk3; lia].
    + intros (k & Hk1 & Hk2 & Hk3).
      assert (k <> attempt) as N
          by (intros ->; rewrite Hk2 in R; discriminate R).
      exists k. split; [lia | split; [exact Hk2 |]].
      intros j Hj. apply Hk3. lia.
  - assert (retryable (api attempt) = false \/ (maxRetries <= attempt)%nat)
      as Hstop.
    { apply andb_false_iff in C as [C | C]; [now left | right].
      now apply Nat.ltb_ge in C. }
    rewrite stop_step by exact Hstop.
    destruct (api attempt) as [|error] eqn:Ea; cbn [ending shown].
    + split; split; try reflexivity.
      * intros _. exists attempt.
        split; [unfold maxRetries in *; lia | split; [exact Ea |]].
        intros j Hj. lia.
      * intros _. now eexists.
    + split; split; try discriminate.
      * intros (k & Hk1 & Hk2 & Hk3). exfalso.
        assert (k <> attempt) as N by (intros ->; congruence).
        assert (retryable (api attempt) = true) as R by (apply Hk3; lia).
        destruct Hstop as [S | S]; [congruence | lia].
      * intros [text H]. discriminate H.
Qed.

Lemma run_success (api : nat -> ApiReply) (remaining : nat) :
  forall attempt calls0 slept0 k,
    (attempt + remaining = maxRetries + 1)%nat ->
    (attempt <= k <= maxRetries)%nat ->
    api k = Created ->
    (forall j, (attempt <= j < k)%nat -> retryable (api j) = true) ->
    let run := createReleaseFrom api remaining attempt calls0 slept0 in
    (calls run + attempt = calls0 + k + 1)%nat
    /\ (slept run + 500 * (attempt * (attempt - 1))
        = slept0 + 500 * (k * (k - 1)))%nat.
Proof.
  induction remaining as [|remaining IH];
    intros attempt calls0 slept0 k E Hk Ek Hretry; cbv zeta;
    [unfold maxRetries in *; lia |].
  destruct (Nat.eq_dec k attempt) as [-> | N].
  - rewrite stop_step by (left; now rewrite Ek).
    rewrite Ek. cbn [calls slept]. lia.
  - rewrite retry_step; [| apply Hretry; lia | lia].
    destruct (IH (S attempt) (S calls0) (slept0 + 1000 * attempt)%nat k)
      as [Hc Hs]; [lia | lia | exact Ek | intros j Hj; apply Hretry; lia |].
    cbv zeta in Hc, Hs. split; [lia |].
    replace (S attempt - 1)%nat with attempt in Hs by lia.
    destruct attempt as [|a]; [lia |].
    replace (S a - 1)%nat with a by lia. nia.
Qed.

Lemma run_stop (api : nat -> ApiReply) (remaining : nat) :
  forall attempt calls0 k,
    (attempt + remaining = maxRetries + 1)%nat ->
    (attempt <= k <= maxRetries)%nat ->
    retryable (api k) = false ->
    (forall j, (attempt <= j < k)%nat -> retryable (api j) = true) ->
    forall slept0,
      (calls (createReleaseFrom api remaining attempt calls0 slept0)
       + attempt = calls0 + k + 1)%nat.
Proof.
  induction remaining as [|remaining IH];
    intros attempt calls0 k E Hk Ek Hretry slept0;
    [unfold maxRetries in *; lia |].
  destruct (Nat.eq_dec k attempt) as [-> | N].
  - rewrite stop_step by now left.
    destruct (api attempt); cbn [calls]; lia.
  - rewrite retry_step; [| apply Hretry; lia | lia].
    assert (forall j, (S attempt <= j < k)%nat -> retryable (api j) = true)
      as Hretry' by (intros j Hj; apply Hretry; lia).
    pose proof (IH (S attempt) (S calls0) k ltac:(lia) ltac:(lia) Ek Hretry'
                   (slept0 + 1000 * attempt)%nat).
    lia.
Qed.

Lemma run_slept (api : nat -> ApiReply) (remaining : nat) :
  forall attempt calls0 slept0,
    (attempt + remaining = maxRetries + 1)%nat ->
    (1 <= remaining)%nat ->
    (slept (createReleaseFrom api remaining attempt calls0 slept0)
     + 500 * (attempt * (attempt - 1))
     <= slept0 + 10 * 1000)%nat.
Proof.
  unfold maxRetries.
  induction remaining as [|remaining IH]; intros attempt calls0 slept0 E P;
    [lia |].
  destruct (retryable (api attempt) && (attempt <? maxRetries)%nat) eqn:C.
  - apply andb_true_iff in C as [R C]. apply Nat.ltb_lt in C.
    unfold maxRetries in C.
    rewrite retry_step by assumption.
    pose proof (IH (S attempt) (S calls0) (slept0 + 1000 * attempt)%nat
                   ltac:(lia) ltac:(lia)) as H.
    replace (S attempt - 1)%nat with attempt in H by lia.
    destruct attempt as [|a]; [lia |].
    replace (S a - 1)%nat with a by lia.
    nia.
  - rewrite stop_step.
    + assert (attempt <= 5)%nat as L by lia.
      assert (attempt * (attempt - 1) <= 20)%nat by
          (do 6 (destruct attempt as [|attempt]; [cbn; lia |]); lia).
      destruct (api attempt); cbn [slept]; lia.
    + apply andb_false_iff in C as [C | C]; [now left | right].
      now apply Nat.ltb_ge in C.
Qed.

(** X12: whatever the replies, [createGithubRelease] makes at least one
    and at most five calls and asks for at most ten seconds of waiting;
    it returns exactly when the spinner shows the release as created, and
    exits with code 1 otherwise. *)
Theorem X12_release_attempts_are_bounded (api : nat -> ApiReply) :
  let run := createGithubRelease api in
  (1 <= calls run <= 5)%nat
  /\ (slept run <= 10 * 1000)%nat
  /\ (ending run = Returned tt
      <-> exists text, shown run = Some (Succeeded text))
  /\ (ending run = Returned tt \/ ending run = Exited 1).
Proof.
  cbv zeta. unfold createGithubRelease.
  pose proof (run_calls api maxRetries 1 0 0) as Hc.
  pose proof (run_slept api maxRetries 1 0 0) as Hs.
  destruct (run_ending api maxRetries 1 0 0) as [_ Hshown];
    [reflexivity | unfold maxRetries; lia |].
  cbv zeta in Hshown. unfold maxRetries in *.
  split; [lia | split; [specialize (Hs eq_refl ltac:(lia)); lia |]].
  split; [exact Hshown |].
  destruct (ending (createReleaseFrom api 5 1 0 0)) as [[]|code] eqn:E;
    [now left | right].
  revert E. clear.
  cbn [createReleaseFrom].
  repeat (match goal with
          | |- context [ api ?n ] => destruct (api n) as [|?error]
          end;
          cbn [ending];
          try discriminate;
          try (intro E; injection E as <-; reflexivity);
          try match goal with
              | |- context [ if ?b then _ else _ ] => destruct b
              end;
          cbn [ending createReleaseFrom];
          try discriminate;
          try (intro E; injection E as <-; reflexivity)).
Qed.

(** X13: [createGithubRelease] creates the release exactly when some
    attempt [k] of the five is accepted and every attempt before it was
    rejected with a network error ([ECONNABORTED] or status 500, 502, 503
    or 504); it has then made [k] calls and asked for [1000 * (1 + ... +
    (k - 1))] milliseconds of waiting.  Any other rejection ends the run
    at once. *)
Theorem X13_release_succeeds_after_network_errors
        (api : nat -> ApiReply) :
  let run := createGithubRelease api in
  (ending run = Returned tt
   <-> exists k,
       (1 <= k <= 5)%nat
       /\ api k = Created
       /\ forall j, (1 <= j < k)%nat -> retryable (api j) = true)
  /\ (forall k,
         (1 <= k <= 5)%nat ->
         api k = Created ->
         (forall j, (1 <= j < k)%nat -> retryable (api j) = true) ->
         calls run = k /\ slept run = (500 * (k * (k - 1)))%nat)
  /\ (forall k,
         (1 <= k <= 5)%nat ->
         retryable (api k) = false ->
         (forall j, (1 <= j < k)%nat -> retryable (api j) = true) ->
         calls run = k).
Proof.
  cbv zeta. unfold createGithubRelease. split; [| split].
  - destruct (run_ending api maxRetries 1 0 0) as [Hend _];
      [reflexivity | unfold maxRetries; lia |].
    exact Hend.
  - intros k Hk Ek Hretry.
    destruct (run_success api maxRetries 1 0 0 k) as [Hc Hs];
      try assumption; [reflexivity |].
    cbv zeta in Hc, Hs. split; lia.
  - intros k Hk Ek Hretry.
    pose proof (run_stop api maxRetries 1 0 k eq_refl Hk Ek Hretry 0%nat).
    lia.
Qed.

(** ** getLog *)

Lemma trimEnd_last (s : string) :
  Js.trimEnd s <> EmptyString -> lastNonSpace (Js.trimEnd s) = true.
Proof.
  induction s as [|c s IH]; [now intros [] |].
  cbn [Js.trimEnd].
  destruct (Js.trimEnd s) as [|d t] eqn:E.
  - cbn [Js.truthy negb]. rewrite andb_true_r.
    destruct (Js.isWhiteSpace c) eqn:W; [now intros [] |].
    intros _. cbn [lastNonSpace]. now rewrite W.
  - cbn [Js.truthy negb]. rewrite andb_false_r. intros _.
    cbn [lastNonSpace]. apply IH. discriminate.
Qed.

Lemma trim_ends (s : string) :
  Js.trim s <> EmptyString ->
  firstNonSpace (Js.trim s) = true /\ lastNonSpace (Js.trim s) = true.
Proof.
  intro N. split; [| now apply trimEnd_last].
  unfold Js.trim in *.
  destruct (Js.trimStart s) as [|c t] eqn:E; [now destruct N |].
  apply trimStart_head in E. cbn [Js.trimEnd]. rewrite E.
  cbn [andb firstNonSpace]. now rewrite E.
Qed.

Lemma trim_idem (s : string) : Js.trim (Js.trim s) = Js.trim s.
Proof.
  destruct (string_dec (Js.trim s) EmptyString) as [E | N].
  - rewrite E. reflexivity.
  - destruct (trim_ends s N). now apply trim_fixed.
Qed.

Lemma atLast_cons (x : string) (l : list string) :
  l <> [] -> atLast (x :: l) = atLast l.
Proof. destruct l; [now intros [] | reflexivity]. Qed.

Lemma prefix_lf (c : ascii) (s : string) :
  prefix Js.lf (String c s) = (Js.LF =? c)%char.
Proof.
  unfold Js.lf. rewrite prefix_cons.
  destruct s; cbn [prefix]; apply andb_true_r.
Qed.

Lemma atLast_trimmed (s : string) :
  forall cur,
    (s = EmptyString /\ cur <> EmptyString) \/ lastNonSpace s = true ->
    exists c l, atLast (Js.splitFrom Js.lf s 0 cur) = Some (String c l).
Proof.
  induction s as [|c s IH]; intros cur [[E N] | L]; try discriminate.
  - destruct cur as [|d cur]; [now destruct N |]. now exists d, cur.
  - cbn [Js.splitFrom]. rewrite prefix_lf.
    assert (s = EmptyString \/ (s <> EmptyString /\ lastNonSpace s = true))
      as Hs.
    { destruct s as [|d s]; [now left | right].
      split; [discriminate | exact L]. }
    destruct (Js.LF =? c)%char eqn:E.
    + apply Ascii.eqb_eq in E. subst c.
      destruct Hs as [-> | [N L']]; [discriminate L |].
      rewrite atLast_cons by apply splitFrom_nonempty.
      apply IH. now right.
    + apply IH. destruct Hs as [-> | [N L']]; [left | now right].
      split; [reflexivity |]. intro H.
      apply append_eq_empty in H as [_ H]. discriminate H.
Qed.

Lemma atLast_lastLine (line : string) :
  oneLine line = true ->
  forall p cur,
    atLast (Js.splitFrom Js.lf (p ++ Js.lf ++ line) 0 cur) = Some line.
Proof.
  intro H. apply negb_true_iff in H.
  induction p as [|c p IH]; intro cur.
  - change (EmptyString ++ Js.lf ++ line) with (String Js.LF line).
    cbn [Js.splitFrom]. rewrite prefix_lf, Ascii.eqb_refl.
    rewrite atLast_cons by apply splitFrom_nonempty.
    change (String.length Js.lf - 1)%nat with 0%nat.
    now rewrite (splitFrom_no_occurrence _ _ H).
  - cbn [append Js.splitFrom]. rewrite prefix_lf.
    destruct (Js.LF =? c)%char.
    + rewrite atLast_cons by apply splitFrom_nonempty. apply IH.
    + apply IH.
Qed.

Lemma lastLine_of (pre line : string) :
  wholeLines pre -> oneLine line = true ->
  atLast (Js.split Js.lf (pre ++ line)) = Some line.
Proof.
  intros [-> | [p ->]] H.
  - apply negb_true_iff in H. unfold Js.split.
    now rewrite (splitFrom_no_occurrence _ _ H).
  - rewrite append_assoc. now apply atLast_lastLine.
Qed.

Lemma split_second (sep s : string) :
  sep <> EmptyString ->
  Js.includes sep s = true ->
  forall cur, exists a b l, Js.splitFrom sep s 0 cur = a :: b :: l.
Proof.
  intro N. induction s as [|c s IH]; intros H cur.
  - cbn in H. destruct sep; [now destruct N | discriminate].
  - cbn [Js.includes] in H. cbn [Js.splitFrom].
    destruct (prefix sep (String c s)) eqn:P.
    + destruct (Js.splitFrom sep s (String.length sep - 1) EmptyString)
        as [|b l] eqn:E; [now apply splitFrom_nonempty in E |].
      now exists cur, b, l.
    + apply IH. exact H.
Qed.

Lemma borderless_tagsRef : borderless tagsRef = true.
Proof. reflexivity. Qed.

Lemma rangeOf_line (pre line : string) (lastTag : option string) :
  wholeLines pre -> oneLine line = true -> line <> EmptyString ->
  rangeOf (Js.split Js.lf (pre ++ line)) lastTag
  = match nth_error (Js.split tagsRef line) 1 with
    | Some t => Ok (Some (Js.trim t), Js.trim t ++ "..HEAD")
    | None => Throw TypeError
    end.
Proof.
  intros W O N. unfold rangeOf. rewrite (lastLine_of _ _ W O).
  destruct line as [|c l]; [now destruct N | reflexivity].
Qed.

(** X14: [getLog] asks for the whole history ([--root]) exactly when the
    tag listing is empty or white space, and then leaves [lastTag] as it
    was.  On any other listing it either throws a [TypeError] or sets
    [lastTag] to a trimmed text and asks for the range [lastTag..HEAD]. *)
Theorem X14_whole_history_only_without_tags
        (output : string) (gitLog : string -> option string)
        (lastTag : option string) :
  (Js.trim output = EmptyString ->
   getLog (Some output) gitLog lastTag
   = Ok (logOf gitLog "--root" lastTag))
  /\ (Js.trim output <> EmptyString ->
      getLog (Some output) gitLog lastTag = Throw TypeError
      \/ exists tag,
          Js.trim tag = tag
          /\ getLog (Some output) gitLog lastTag
             = Ok (logOf gitLog (tag ++ "..HEAD") (Some tag))).
Proof.
  split; intro H; cbn [getLog]; cbv zeta.
  - rewrite H. reflexivity.
  - destruct (trim_ends output H) as [_ L].
    destruct (atLast_trimmed (Js.trim output) EmptyString (or_intror L))
      as (c & l & E).
    unfold rangeOf, Js.split. rewrite E.
    destruct (nth_error (Js.splitFrom tagsRef (String c l) 0 EmptyString) 1)
      as [t|]; [right | now left].
    exists (Js.trim t). split; [apply trim_idem | reflexivity].
Qed.

(** X15: when the last line of the trimmed tag listing is
    [sha refs/tags/tag], with [refs/tags/] occurring only there,
    [getLog] sets [lastTag] to the trimmed [tag] and fetches the log of
    the range [tag..HEAD], whatever the lines before. *)
Theorem X15_last_tag_of_the_last_line
        (output pre sha tag : string) (gitLog : string -> option string)
        (lastTag : option string) :
  Js.trim output = pre ++ sha ++ tagsRef ++ tag ->
  wholeLines pre ->
  oneLine (sha ++ tagsRef ++ tag) = true ->
  Js.includes tagsRef sha = false ->
  Js.includes tagsRef tag = false ->
  getLog (Some output) gitLog lastTag
  = Ok (logOf gitLog (Js.trim tag ++ "..HEAD") (Some (Js.trim tag))).
Proof.
  intros E W O Hsha Htag. cbn [getLog]; cbv zeta. rewrite E.
  rewrite (rangeOf_line _ _ lastTag W O).
  - unfold Js.split.
    rewrite (split_field tagsRef sha borderless_tagsRef tag EmptyString Hsha).
    rewrite (splitFrom_no_occurrence _ _ Htag). reflexivity.
  - intro H. apply append_eq_empty in H as [_ H]. discriminate H.
Qed.

(** X16: on a tag listing whose last line is not empty, [getLog] throws
    a [TypeError] exactly when that line does not contain [refs/tags/];
    no log is then fetched. *)
Theorem X16_last_line_without_ref_throws
        (output pre line : string) (gitLog : string -> option string)
        (lastTag : option string) :
  Js.trim output = pre ++ line ->
  wholeLines pre ->
  oneLine line = true ->
  line <> EmptyString ->
  (getLog (Some output) gitLog lastTag = Throw TypeError
   <-> Js.includes tagsRef line = false).
Proof.
  intros E W O N. cbn [getLog]; cbv zeta. rewrite E.
  rewrite (rangeOf_line _ _ lastTag W O N). unfold Js.split.
  destruct (Js.includes tagsRef line) eqn:I.
  - destruct (split_second tagsRef line ltac:(discriminate) I EmptyString)
      as (a & b & l & ->).
    cbn [nth_error bind]. split; discriminate.
  - rewrite (splitFrom_no_occurrence _ _ I). cbn [nth_error bind].
    split; reflexivity.
Qed.

(** ** The outcome of buildChangelog *)

Lemma mapRun_done {A B : Type} (f : A -> Run B) (g : A -> B) (l : list A) :
  (forall x, f x = Process.done (g x)) ->
  Process.mapRun f l = Process.done (map g l).
Proof.
  intro H. induction l as [|x l IH]; [reflexivity |].
  cbn [Process.mapRun map]. now rewrite H, IH.
Qed.

Lemma mapRun_exited {A B : Type} (f : A -> Run B) (code : nat)
      (l : list A) :
  (forall x, f x = Ok (Exited code)) ->
  l <> [] ->
  Process.mapRun f l = Ok (Exited code).
Proof.
  intros H N. destruct l as [|x l]; [now destruct N |].
  cbn [Process.mapRun]. now rewrite H.
Qed.

Section Resolved.
Variable remote : option string.
Variables owner repo : string.
Hypothesis resolved :
  Process.getOwnerAndRepo remote = Ok (Returned (owner, repo)).

Lemma getPrLink_resolved (pr : string) :
  Process.getPrLink remote pr = Process.done (getPrLink owner repo pr).
Proof. unfold Process.getPrLink. now rewrite resolved. Qed.

Lemma getCommitLink_resolved (hash longHash : string) :
  Process.getCommitLink remote hash longHash
  = Process.done (getCommitLink owner repo hash longHash).
Proof. unfold Process.getCommitLink. now rewrite resolved. Qed.

Lemma buildItem_resolved (ret : string) (item : LogItem) (merged : bool) :
  Process.buildItem remote ret item merged
  = Process.done (buildItem owner repo ret item merged).
Proof.
  unfold Process.buildItem, buildItem. cbv zeta.
  rewrite (mapRun_done _ (getPrLink owner repo))
    by apply getPrLink_resolved.
  rewrite (mapRun_done _ (fun h => getCommitLink owner repo (short h)
                                                 (full h)))
    by (intro h; apply getCommitLink_resolved).
  destruct (0 <? List.length (prs item))%nat; reflexivity.
Qed.

Lemma buildItemsFrom_resolved (merged : bool) (items : list LogItem) :
  forall ret,
    Process.buildItemsFrom remote ret items merged
    = Process.done (buildItemsFrom owner repo ret items merged).
Proof.
  induction items as [|item items IH]; intro ret; [reflexivity |].
  cbn [Process.buildItemsFrom buildItemsFrom].
  rewrite buildItem_resolved. cbn [Process.andThen Process.done].
  apply IH.
Qed.

Lemma buildSection_resolved (ty : TitleKey) (log : list LogItem) :
  Process.buildSection remote ty log
  = Process.done (buildSection owner repo ty log).
Proof.
  unfold Process.buildSection, buildSection, Process.buildItems, buildItems.
  cbv zeta. rewrite buildItemsFrom_resolved.
  destruct (List.length (sectionItems ty log) =? 0)%nat; reflexivity.
Qed.

Lemma buildSections_resolved (log : list LogItem) :
  Process.buildSections remote log
  = Process.done (buildSections owner repo log).
Proof.
  unfold Process.buildSections, buildSections, titleKeys.
  cbn [fold_left]. rewrite !buildSection_resolved. reflexivity.
Qed.

Lemma buildFooter_resolved (log : list LogItem) :
  Process.buildFooter remote log = returned (buildFooter owner repo log).
Proof.
  unfold Process.buildFooter, buildFooter, Process.buildItems, buildItems.
  destruct (uniqueOtherLogs (allOtherLogs log)) as [u|e]; [| reflexivity].
  cbn [bind returned]. rewrite buildItemsFrom_resolved.
  destruct (0 <? List.length u)%nat; reflexivity.
Qed.

Lemma changelogOf_resolved (blob : string) :
  Process.changelogOf remote blob = returned (buildChangelog owner repo blob).
Proof.
  unfold Process.changelogOf, buildChangelog. cbv zeta.
  destruct (convertStringToLog (Js.split lineDelimiter blob))
    as [[log cs]|e]; [| reflexivity].
  cbn [bind]. rewrite buildSections_resolved, buildFooter_resolved.
  cbn [Process.andThen Process.done].
  destruct (buildFooter owner repo log) as [footer|e]; reflexivity.
Qed.

End Resolved.

Section Unresolved.
Variable remote : option string.
Variable code : nat.
Hypothesis unresolved : Process.getOwnerAndRepo remote = Ok (Exited code).

Lemma buildItem_unresolved (ret : string) (item : LogItem) (merged : bool) :
  hasHash item ->
  Process.buildItem remote ret item merged = Ok (Exited code).
Proof.
  intro Hh. unfold Process.buildItem. cbv zeta.
  assert (forall pr, Process.getPrLink remote pr = Ok (Exited code)) as Hpr
      by (intro pr; unfold Process.getPrLink; now rewrite unresolved).
  assert (forall h, Process.getCommitLink remote (short h) (full h)
                    = Ok (Exited code)) as Hc
      by (intro h; unfold Process.getCommitLink; now rewrite unresolved).
  rewrite (mapRun_exited _ code (hashes item) Hc Hh).
  destruct (prs item) as [|p l] eqn:Ep; [reflexivity |].
  cbn [List.length Nat.ltb Nat.leb].
  rewrite (mapRun_exited _ code (p :: l) Hpr) by discriminate.
  reflexivity.
Qed.

Lemma buildItems_unresolved (items : list LogItem) (merged : bool) :
  Forall hasHash items ->
  Process.buildItems remote items merged
  = match items with
    | [] => Process.done EmptyString
    | _ :: _ => Ok (Exited code)
    end.
Proof.
  intro H. unfold Process.buildItems.
  destruct H as [|item items Hi _]; [reflexivity |].
  cbn [Process.buildItemsFrom]. now rewrite buildItem_unresolved.
Qed.

Lemma buildSection_unresolved (ty : TitleKey) (log : list LogItem) :
  Forall hasHash log ->
  Process.buildSection remote ty log
  = match sectionItems ty log with
    | [] => Process.done EmptyString
    | _ :: _ => Ok (Exited code)
    end.
Proof.
  intro H. unfold Process.buildSection. cbv zeta.
  rewrite buildItems_unresolved by now apply sectionItems_incl.
  now destruct (sectionItems ty log).
Qed.

Lemma buildSections_unresolved (log : list LogItem) :
  Forall hasHash log ->
  Process.buildSections remote log
  = if forallb (fun ty => (List.length (sectionItems ty log) =? 0)%nat)
               titleKeys
    then Process.done []
    else Ok (Exited code).
Proof.
  intro H. unfold Process.buildSections, titleKeys.
  cbn [fold_left forallb]. rewrite !buildSection_unresolved by assumption.
  destruct (sectionItems k_feat log), (sectionItems k_impr log),
    (sectionItems k_fix log); reflexivity.
Qed.

Lemma buildFooter_unresolved (log : list LogItem) :
  Forall hasHash log ->
  Process.buildFooter remote log
  = match allOtherLogs log with
    | [] => Process.done EmptyString
    | _ :: _ => Ok (Exited code)
    end.
Proof.
  intro H. unfold Process.buildFooter.
  pose proof (allOtherLogs_incl log hasHash H) as Hall.
  rewrite (uniqueOtherLogs_keepFirst _ Hall).
  pose proof (keepFirst_forall hasHash _ Hall) as Hu.
  rewrite (buildItems_unresolved _ true Hu).
  pose proof (keepFirst_nil Spec.sameFullHash (allOtherLogs log)) as N.
  destruct (Spec.keepFirst Spec.sameFullHash (allOtherLogs log)) as [|x u];
    destruct (allOtherLogs log) as [|y l]; try reflexivity.
  - destruct N as [N _]. discriminate (N eq_refl).
  - destruct N as [_ N]. discriminate (N eq_refl).
Qed.

End Unresolved.

Lemma rendered_section_key (ty : TitleKey) : In (keyName ty) renderedTypes.
Proof. destruct ty; simpl; tauto. Qed.

Lemma nothing_rendered (log : list LogItem) :
  Forall (fun r => ~ rendered r) log ->
  (forall ty, sectionItems ty log = []) /\ allOtherLogs log = [].
Proof.
  intro H. rewrite Forall_forall in H. split.
  - intro ty. destruct (sectionItems ty log) as [|r l] eqn:E; [reflexivity |].
    assert (In r (sectionItems ty log)) as Hr by (rewrite E; now left).
    apply in_sectionItems in Hr as (Hin & Ht & _).
    exfalso. apply (H r Hin). unfold rendered. rewrite Ht.
    apply rendered_section_key.
  - destruct (allOtherLogs log) as [|r l] eqn:E; [reflexivity |].
    assert (In r (allOtherLogs log)) as Hr by (rewrite E; now left).
    apply in_allOtherLogs in Hr as (Hin & Hf).
    exfalso. apply (H r Hin). now apply footerEligible_rendered.
Qed.

Lemma something_rendered (log : list LogItem) :
  Exists rendered log ->
  forallb (fun ty => (List.length (sectionItems ty log) =? 0)%nat) titleKeys
  = false
  \/ allOtherLogs log <> [].
Proof.
  intro H. apply Exists_exists in H as (r & Hin & Hr).
  destruct (rendered_somewhere log r Hin Hr) as [[ty Hs] | Ho].
  - left. apply not_true_is_false. intro F.
    rewrite forallb_forall in F.
    assert (In ty titleKeys) as Hty by (destruct ty; simpl; tauto).
    specialize (F ty Hty). apply Nat.eqb_eq in F.
    destruct (sectionItems ty log); [contradiction | discriminate].
  - right. intro E. rewrite E in Ho. contradiction.
Qed.

(** The text when no record is rendered. *)
Lemma changelog_without_lines (owner repo blob : string)
      (log : list LogItem) (cs : list string) :
  convertStringToLog (Js.split lineDelimiter blob) = Ok (log, cs) ->
  (forall ty, sectionItems ty log = []) -> allOtherLogs log = [] ->
  buildChangelog owner repo blob
  = Ok (if (1 <? contributorCount log)%nat || (1 <? List.length cs)%nat
        then header ++ Js.lf ++ Js.lf else EmptyString).
Proof.
  intros H Hs Ho. rewrite (buildChangelog_parsed _ _ _ _ _ H).
  rewrite (proj2 (buildSections_empty owner repo log) Hs), Ho.
  cbn [Spec.keepFirst Spec.keepFirstFrom]. now rewrite !append_empty_r.
Qed.

Section Outcome.
Variable remote : option string.

Lemma getOwnerAndRepo_cases :
  (exists owner repo,
      Process.getOwnerAndRepo remote = Ok (Returned (owner, repo)))
  \/ Process.getOwnerAndRepo remote = Ok (Exited 1).
Proof.
  unfold Process.getOwnerAndRepo. destruct remote as [output|]; [| now right].
  unfold getOwnerAndRepo.
  destruct (Remote.matchUrl (Js.trim output)) as [[owner repo]|];
    [left; now exists owner, repo | now right].
Qed.

Lemma changelogOf_outcome (blob : string) :
  let lines := Js.split lineDelimiter blob in
  let out := Process.changelogOf remote blob in
  (existsb titleless lines = true -> out = Throw TypeError)
  /\ (existsb titleless lines = false ->
      (forall owner repo,
          Process.getOwnerAndRepo remote = Ok (Returned (owner, repo)) ->
          exists text,
            buildChangelog owner repo blob = Ok text
            /\ out = Ok (Returned text))
      /\ (forall code,
             Process.getOwnerAndRepo remote = Ok (Exited code) ->
             (Exists rendered (flat_map lineRecords lines) ->
              out = Ok (Exited code))
             /\ (Forall (fun r => ~ rendered r)
                        (flat_map lineRecords lines) ->
                 exists text,
                   out = Ok (Returned text)
                   /\ forall owner repo,
                       buildChangelog owner repo blob = Ok text))).
Proof.
  cbv zeta.
  pose proof (convertLines_outcome (Js.split lineDelimiter blob) ([], []))
    as H.
  fold (convertStringToLog (Js.split lineDelimiter blob)) in H.
  destruct (existsb titleless (Js.split lineDelimiter blob)); split;
    try discriminate; intros _.
  - unfold Process.changelogOf. cbv zeta. now rewrite H.
  - destruct H as [[log cs] H].
    pose proof (convertLines_records _ _ _ _ _ H) as E. cbn [app] in E.
    rewrite <- E. clear E.
    assert (Forall hasHash log) as Hh.
    { eapply Forall_impl; [| exact (parsed_all_wellFormed _ _ _ H)].
      apply wellFormed_hasHash. }
    split.
    + intros owner repo R.
      rewrite (changelogOf_resolved remote owner repo R).
      rewrite (buildChangelog_parsed owner repo _ _ _ H).
      eexists. split; reflexivity.
    + intros code U.
      unfold Process.changelogOf. cbv zeta. rewrite H.
      rewrite (buildSections_unresolved remote code U log Hh).
      rewrite (buildFooter_unresolved remote code U log Hh).
      split.
      * intro Hr. destruct (something_rendered log Hr) as [-> | N];
          [reflexivity |].
        destruct (forallb _ titleKeys); [| reflexivity].
        cbn [Process.andThen Process.done].
        destruct (allOtherLogs log); [now destruct N | reflexivity].
      * intro Hn. destruct (nothing_rendered log Hn) as [Hs Ho].
        assert (forallb
                  (fun ty => (List.length (sectionItems ty log) =? 0)%nat)
                  titleKeys = true) as ->.
        { apply forallb_forall. intros ty _. now rewrite Hs. }
        rewrite Ho. cbn [Process.andThen Process.done Js.join String.concat
                         Js.truthy].
        eexists. split; [reflexivity |].
        intros owner repo.
        rewrite (changelog_without_lines owner repo blob log cs H Hs Ho).
        now rewrite !append_empty_r.
Qed.

End Outcome.

(** X3: once [getLog] has returned the blob, a run of [buildChangelog]
    throws a [TypeError] exactly when some entry passes the guard of the
    loop with fewer than three fields.  Otherwise, when [getOwnerAndRepo]
    resolves the remote it returns the assembled text; when it does not,
    the process exits at the first link, which is when some record has a
    rendered type, and the header alone or the empty text is returned
    when none has. *)
Theorem X3_outcome_of_buildChangelog
        (remote tags : option string) (gitLog : string -> option string)
        (lastTag : option string) (run : LogRun) (blob : string) :
  getLog tags gitLog lastTag = Ok run ->
  fetched run = Returned blob ->
  let lines := Js.split lineDelimiter blob in
  let out := Process.buildChangelog remote tags gitLog lastTag in
  (existsb titleless lines = true -> out = Throw TypeError)
  /\ (existsb titleless lines = false ->
      (forall owner repo,
          Process.getOwnerAndRepo remote = Ok (Returned (owner, repo)) ->
          exists text,
            buildChangelog owner repo blob = Ok text
            /\ out = Ok (Returned text))
      /\ (forall code,
             Process.getOwnerAndRepo remote = Ok (Exited code) ->
             (Exists rendered (flat_map lineRecords lines) ->
              out = Ok (Exited code))
             /\ (Forall (fun r => ~ rendered r)
                        (flat_map lineRecords lines) ->
                 exists text,
                   out = Ok (Returned text)
                   /\ forall owner repo,
                       buildChangelog owner repo blob = Ok text)))
  /\ ((exists owner repo,
          Process.getOwnerAndRepo remote = Ok (Returned (owner, repo)))
      \/ Process.getOwnerAndRepo remote = Ok (Exited 1)).
Proof.
  intros Hlog Hblob. cbv zeta.
  assert (Process.buildChangelog remote tags gitLog lastTag
          = Process.changelogOf remote blob) as ->
      by (unfold Process.buildChangelog; now rewrite Hlog, Hblob).
  destruct (changelogOf_outcome remote blob) as [A B].
  split; [exact A | split; [exact B | apply getOwnerAndRepo_cases]].
Qed.

(** ** The further properties at the sample inputs *)

(** The title of the scenario, read back. *)
Lemma X1_witness :
  canonical Examples.aliceTitle
  /\ titleMatch (canonicalTitle Examples.aliceTitle)
     = Some Examples.aliceTitle.
Proof.
  assert (canonical Examples.aliceTitle) as H.
  { unfold canonical, Spec.annotation, Spec.nonEmptyOf.
    cbn [Examples.aliceTitle m_type m_scope m_message m_username m_pr].
    repeat split; try (vm_compute; reflexivity).
    - exists "alice". repeat split; vm_compute; reflexivity.
    - exists "10". repeat split; vm_compute; reflexivity. }
  split; [exact H | exact (X1_canonical_title_reads_back _ H)].
Defined.

(** The records of the scenario, entry by entry. *)
Lemma X2_witness :
  convertStringToLog (Js.split lineDelimiter Sample.scenario)
  = Ok ([Sample.aliceRecord; Sample.bobRecord], ["me"])
  /\ [Sample.aliceRecord; Sample.bobRecord]
     = flat_map lineRecords (Js.split lineDelimiter Sample.scenario)
  /\ (List.length [Sample.aliceRecord; Sample.bobRecord]
      <= List.length (Js.split lineDelimiter Sample.scenario))%nat.
Proof.
  assert (convertStringToLog (Js.split lineDelimiter Sample.scenario)
          = Ok ([Sample.aliceRecord; Sample.bobRecord], ["me"])) as H
      by (vm_compute; reflexivity).
  destruct (X2_records_in_entry_order _ _ _ H) as (A & B & _).
  split; [exact H | split; [exact A | exact B]].
Defined.

(** The one committer of the two entries of the scenario. *)
Lemma X4_witness :
  convertStringToLog (Js.split lineDelimiter Sample.scenario)
  = Ok ([Sample.aliceRecord; Sample.bobRecord], ["me"])
  /\ NoDup ["me"]
  /\ forall c,
      In c ["me"]
      <-> In c (flat_map lineCommitters
                         (Js.split lineDelimiter Sample.scenario)).
Proof.
  assert (convertStringToLog (Js.split lineDelimiter Sample.scenario)
          = Ok ([Sample.aliceRecord; Sample.bobRecord], ["me"])) as H
      by (vm_compute; reflexivity).
  destruct (X4_committers_of_matching_entries _ _ _ H) as [A B].
  split; [exact H | split; [exact A | exact B]].
Defined.

(** The username group of the fix of the scenario. *)
Lemma X5_witness :
  convertStringToLog (Js.split lineDelimiter Sample.scenario)
  = Ok ([Sample.aliceRecord; Sample.bobRecord], ["me"])
  /\ In Sample.bobRecord [Sample.aliceRecord; Sample.bobRecord]
  /\ exists line hash shortHash title rest m,
      In line (Js.split lineDelimiter Sample.scenario)
      /\ map Js.trim (Js.split logDelimiter line)
         = hash :: shortHash :: title :: rest
      /\ titleMatch title = Some m
      /\ Sample.bobRecord = recordOf hash shortHash rest m
      /\ lineRecords line = [Sample.bobRecord]
      /\ Spec.optionalGroup (usernames Sample.bobRecord)
         = match m_username m with
           | Some u => " (" ++ u ++ ")"
           | None => EmptyString
           end.
Proof.
  assert (convertStringToLog (Js.split lineDelimiter Sample.scenario)
          = Ok ([Sample.aliceRecord; Sample.bobRecord], ["me"])) as H
      by (vm_compute; reflexivity).
  assert (In Sample.bobRecord [Sample.aliceRecord; Sample.bobRecord]) as Hin
      by (right; left; reflexivity).
  split; [exact H | split; [exact Hin |]].
  exact (X5_username_annotation_verbatim _ _ _ _ H Hin).
Defined.

(** The feature entry of the scenario, formatted and parsed back. *)
Lemma X6_witness :
  canonical Examples.aliceTitle
  /\ convertStringToLog
       (Js.split lineDelimiter
                 (entry "7777777777" "7777777"
                        (canonicalTitle Examples.aliceTitle)
                        EmptyString "me"))
     = Ok ([recordOf (Js.trim "7777777777") (Js.trim "7777777")
                     [Js.trim EmptyString; Js.trim "me"]
                     Examples.aliceTitle],
           if Js.truthy (Js.trim "me")
              && Spec.nonBotCommitter (Js.trim "me")
           then [Js.trim "me"] else []).
Proof.
  assert (canonical Examples.aliceTitle) as H.
  { unfold canonical, Spec.annotation, Spec.nonEmptyOf.
    cbn [Examples.aliceTitle m_type m_scope m_message m_username m_pr].
    repeat split; try (vm_compute; reflexivity).
    - exists "alice". repeat split; vm_compute; reflexivity.
    - exists "10". repeat split; vm_compute; reflexivity. }
  split; [exact H |].
  apply (X6_formatted_entry_reads_back
           "7777777777" "7777777" EmptyString "me" Examples.aliceTitle H).
  - repeat (apply Forall_cons; [vm_compute; reflexivity |]).
    apply Forall_nil.
  - vm_compute. reflexivity.
Defined.

(** The fields of an entry and a blob of one entry, joined and split. *)
Lemma X7_witness :
  Js.split logDelimiter
           (Js.join logDelimiter
                    ["9999999999"; "9999999"; "Merge pull request";
                     EmptyString; "me"])
  = ["9999999999"; "9999999"; "Merge pull request"; EmptyString; "me"]
  /\ Js.split lineDelimiter
              (Js.join lineDelimiter
                       (EmptyString :: [Sample.freeFormEntry]))
     = EmptyString :: [Sample.freeFormEntry].
Proof.
  destruct X7_delimiters_separate as [A B]. split.
  - apply A; [discriminate |].
    repeat (apply Forall_cons; [vm_compute; reflexivity |]).
    apply Forall_nil.
  - apply B.
    repeat (apply Forall_cons; [vm_compute; reflexivity |]).
    apply Forall_nil.
Defined.

(** The feature of the scenario is rendered; a revert is not. *)
Lemma X8_witness :
  (In Sample.aliceRecord [Sample.aliceRecord; Sample.bobRecord]
   /\ In (type Sample.aliceRecord) renderedTypes)
  /\ ((exists ty,
          In Sample.aliceRecord
             (sectionItems ty [Sample.aliceRecord; Sample.bobRecord]))
      \/ In Sample.aliceRecord
            (allOtherLogs [Sample.aliceRecord; Sample.bobRecord]))
  /\ type Examples.revertRecord = "revert"
  /\ (forall ty,
         ~ In Examples.revertRecord
              (sectionItems ty [Examples.revertRecord]))
  /\ ~ In Examples.revertRecord (allOtherLogs [Examples.revertRecord]).
Proof.
  assert (In Sample.aliceRecord [Sample.aliceRecord; Sample.bobRecord]
          /\ In (type Sample.aliceRecord) renderedTypes) as H
      by (split; left; reflexivity).
  assert (type Examples.revertRecord = "revert") as R by reflexivity.
  split; [exact H | split; [| split; [exact R |]]].
  - exact (proj2 (proj1 (X8_sections_and_footer_divide_the_records
                           [Sample.aliceRecord; Sample.bobRecord]
                           Sample.aliceRecord)) H).
  - exact (proj2 (proj2 (X8_sections_and_footer_divide_the_records
                           [Examples.revertRecord]
                           Examples.revertRecord)) R).
Defined.

(** A log of one revert is announced as holding no new contribution. *)
Lemma X9_witness :
  convertStringToLog (Js.split lineDelimiter Examples.revertOnly)
  = Ok ([Examples.revertRecord], ["me"])
  /\ exists text,
      generateChangelog Sample.owner Sample.repo Examples.revertOnly
      = Ok (EmptyString, Warned text).
Proof.
  assert (convertStringToLog (Js.split lineDelimiter Examples.revertOnly)
          = Ok ([Examples.revertRecord], ["me"])) as H
      by (vm_compute; reflexivity).
  split; [exact H |].
  destruct (X9_warning_when_nothing_is_rendered
              Sample.owner Sample.repo _ _ _ H)
    as (out & sp & E & Hwarn & Hout).
  assert (out = EmptyString) as ->.
  { apply Hout. split; [vm_compute; lia | split; [vm_compute; lia |]].
    intros r [<- | []].
    vm_compute. intro F.
    repeat (destruct F as [F | F]; [discriminate F |]). exact F. }
  destruct (proj2 Hwarn eq_refl) as [text ->].
  exists text. exact E.
Defined.

(** An SSH remote, and an output without a path. *)
Lemma X10_witness :
  getOwnerAndRepo Examples.sshRemote = Returned ("iwmywn", "release")
  /\ (exists pre c suffix,
         Js.trim Examples.sshRemote
         = pre ++ String c ("iwmywn" ++ "/" ++ "release" ++ suffix)
         /\ (c = ":" \/ c = "/")%char
         /\ Spec.nonEmptyOf Remote.notSeparator "iwmywn"
         /\ Spec.nonEmptyOf Remote.notSlash "release"
         /\ (suffix = EmptyString \/ suffix = ".git"))
  /\ Js.all Remote.notSlash (Js.trim Examples.noPath) = true
  /\ getOwnerAndRepo Examples.noPath = Exited 1.
Proof.
  assert (getOwnerAndRepo Examples.sshRemote
          = Returned ("iwmywn", "release")) as H
      by (vm_compute; reflexivity).
  assert (Js.all Remote.notSlash (Js.trim Examples.noPath) = true) as N
      by (vm_compute; reflexivity).
  destruct X10_owner_and_repo_end_the_url as [A B].
  split; [exact H | split; [exact (A _ _ _ H) | split; [exact N |]]].
  exact (B _ N).
Defined.

(** The owner and the repository of an SSH remote. *)
Lemma X11_witness :
  Js.trim Examples.sshRemote
  = "git@github.com" ++ String ":" ("iwmywn" ++ "/" ++ "release" ++ ".git")
  /\ getOwnerAndRepo Examples.sshRemote = Returned ("iwmywn", "release").
Proof.
  assert (Js.trim Examples.sshRemote
          = "git@github.com"
            ++ String ":" ("iwmywn" ++ "/" ++ "release" ++ ".git")) as H
      by (vm_compute; reflexivity).
  split; [exact H |].
  apply (X11_owner_and_repo_of_a_remote_url
           Examples.sshRemote "git@github.com" ":"%char
           "iwmywn" "release" ".git" H).
  - reflexivity.
  - split; vm_compute; reflexivity.
  - split; vm_compute; reflexivity.
  - left. reflexivity.
Defined.

(** The release created at the third attempt, after one and two seconds. *)
Lemma X13_witness :
  Examples.thirdTime 3 = Created
  /\ calls (createGithubRelease Examples.thirdTime) = 3%nat
  /\ slept (createGithubRelease Examples.thirdTime)
     = (500 * (3 * (3 - 1)))%nat.
Proof.
  assert (Examples.thirdTime 3 = Created) as H by reflexivity.
  split; [exact H |].
  apply (proj1 (proj2 (X13_release_succeeds_after_network_errors
                         Examples.thirdTime)) 3%nat); [lia | exact H |].
  intros j Hj.
  destruct j as [|[|[|j]]]; [lia | reflexivity | reflexivity | lia].
Defined.

(** An empty tag listing, and the listing of two tags. *)
Lemma X14_witness :
  Js.trim Js.lf = EmptyString
  /\ getLog (Some Js.lf) Examples.gitLog None
     = Ok (logOf Examples.gitLog "--root" None)
  /\ Js.trim Examples.tagListing <> EmptyString
  /\ (getLog (Some Examples.tagListing) Examples.gitLog None
      = Throw TypeError
      \/ exists tag,
          Js.trim tag = tag
          /\ getLog (Some Examples.tagListing) Examples.gitLog None
             = Ok (logOf Examples.gitLog (tag ++ "..HEAD") (Some tag))).
Proof.
  assert (Js.trim Js.lf = EmptyString) as H by (vm_compute; reflexivity).
  assert (Js.trim Examples.tagListing <> EmptyString) as N
      by (vm_compute; discriminate).
  split; [exact H | split; [| split; [exact N |]]].
  - exact (proj1 (X14_whole_history_only_without_tags
                    Js.lf Examples.gitLog None) H).
  - exact (proj2 (X14_whole_history_only_without_tags
                    Examples.tagListing Examples.gitLog None) N).
Defined.

(** The last of two tags. *)
Lemma X15_witness :
  Js.trim Examples.tagListing
  = (Examples.firstTagLine ++ Js.lf)
    ++ ("2222222222" ++ String Examples.TAB EmptyString)
    ++ tagsRef ++ "v25.2.0"
  /\ getLog (Some Examples.tagListing) Examples.gitLog None
     = Ok (logOf Examples.gitLog (Js.trim "v25.2.0" ++ "..HEAD")
                 (Some (Js.trim "v25.2.0"))).
Proof.
  assert (Js.trim Examples.tagListing
          = (Examples.firstTagLine ++ Js.lf)
            ++ ("2222222222" ++ String Examples.TAB EmptyString)
            ++ tagsRef ++ "v25.2.0") as H
      by (vm_compute; reflexivity).
  split; [exact H |].
  apply (X15_last_tag_of_the_last_line
           Examples.tagListing (Examples.firstTagLine ++ Js.lf)
           ("2222222222" ++ String Examples.TAB EmptyString) "v25.2.0"
           Examples.gitLog None H).
  - right. exists Examples.firstTagLine. reflexivity.
  - vm_compute. reflexivity.
  - vm_compute. reflexivity.
  - vm_compute. reflexivity.
Defined.

(** A listing whose last line names no ref. *)
Lemma X16_witness :
  Js.trim Examples.noRef = EmptyString ++ "2222222222 v25.2.0"
  /\ Js.includes tagsRef "2222222222 v25.2.0" = false
  /\ getLog (Some Examples.noRef) Examples.gitLog None = Throw TypeError.
Proof.
  assert (Js.trim Examples.noRef = EmptyString ++ "2222222222 v25.2.0")
    as H by (vm_compute; reflexivity).
  assert (Js.includes tagsRef "2222222222 v25.2.0" = false) as I
      by (vm_compute; reflexivity).
  split; [exact H | split; [exact I |]].
  apply (proj2 (X16_last_line_without_ref_throws
                  Examples.noRef EmptyString "2222222222 v25.2.0"
                  Examples.gitLog None H (or_introl eq_refl)
                  ltac:(vm_compute; reflexivity) ltac:(discriminate))).
  exact I.
Defined.

(** The log of one fix after the last of two tags: the text with the
    remote resolved, an exit without; a blank inside a commit body throws. *)
Lemma X3_witness :
  getLog (Some Examples.tagListing) Examples.gitLog None
  = Ok (logOf Examples.gitLog "v25.2.0..HEAD" (Some "v25.2.0"))
  /\ fetched (logOf Examples.gitLog "v25.2.0..HEAD" (Some "v25.2.0"))
     = Returned Sample.oneFix
  /\ (exists text,
         buildChangelog "iwmywn" "release" Sample.oneFix = Ok text
         /\ Process.buildChangelog (Some Examples.sshRemote)
              (Some Examples.tagListing) Examples.gitLog None
            = Ok (Returned text))
  /\ Process.buildChangelog (Some Examples.noPath)
        (Some Examples.tagListing) Examples.gitLog None
     = Ok (Exited 1)
  /\ Process.buildChangelog (Some Examples.sshRemote)
        (Some Examples.tagListing) Examples.gitLogBlank None
     = Throw TypeError.
Proof.
  assert (getLog (Some Examples.tagListing) Examples.gitLog None
          = Ok (logOf Examples.gitLog "v25.2.0..HEAD" (Some "v25.2.0")))
    as H by (vm_compute; reflexivity).
  assert (fetched (logOf Examples.gitLog "v25.2.0..HEAD" (Some "v25.2.0"))
          = Returned Sample.oneFix) as B by (vm_compute; reflexivity).
  assert (getLog (Some Examples.tagListing) Examples.gitLogBlank None
          = Ok (logOf Examples.gitLogBlank "v25.2.0..HEAD" (Some "v25.2.0")))
    as H' by (vm_compute; reflexivity).
  assert (fetched (logOf Examples.gitLogBlank "v25.2.0..HEAD"
                         (Some "v25.2.0"))
          = Returned Examples.blankInBody) as B'
      by (vm_compute; reflexivity).
  split; [exact H | split; [exact B | split; [| split]]].
  - destruct (X3_outcome_of_buildChangelog
                (Some Examples.sshRemote) _ _ _ _ _ H B) as (_ & R & _).
    apply (R ltac:(vm_compute; reflexivity)).
    vm_compute. reflexivity.
  - destruct (X3_outcome_of_buildChangelog
                (Some Examples.noPath) _ _ _ _ _ H B) as (_ & R & _).
    apply (R ltac:(vm_compute; reflexivity)); [vm_compute; reflexivity |].
    apply Exists_exists. exists Sample.fixRecord. split.
    + vm_compute. left. reflexivity.
    + unfold rendered. vm_compute. tauto.
  - destruct (X3_outcome_of_buildChangelog
                (Some Examples.sshRemote) _ _ _ _ _ H' B') as (T & _).
    apply T. vm_compute. reflexivity.
Defined.

